(** * OmniLRS high-resolution DEM generator: a shallow embedding

    Source files:
    - [src/terrain_management/high_res_dem_gen.py]
    - [src/terrain_management/large_scale_terrain/utils.py]

    Modelling conventions.
    - Python [int] is [Z].  Python [float] configuration values
      ([resolution], [source_resolution], shift coordinates) are exact
      rationals [Q]; [int(f)] is truncation toward zero ([py_int]) and
      [f // g] is the floor of the quotient.  Rounding of IEEE doubles is
      not modelled: the properties that involve these values are stated
      on the expressions the code evaluates, or depend only on their
      sign or on quotients that are whole numbers.
    - [block_size] is an integer, as in the driver at the end of the
      source file ([block_size = 50]); block anchors are then integers.
    - A normal return is [Ok v]; a call that does not return normally
      is [Raise e], where [e] is the exception raised or, for a [put]
      that waits on a full queue which nothing empties, [Blocked].
    - A Python [dict] is an insertion-ordered association list
      ([PyDict]); the per-tile state dictionaries are mutable objects
      shared between trackers, so they live in a store addressed by
      references.
    - A 2-D [numpy] array is a list of rows; the element type is kept
      abstract (the code only copies, zero-fills and adds elevations).
      Basic slices follow [numpy]: negative bounds count from the end,
      bounds are clipped, shapes are checked with broadcasting.
    - The worker processes and their queues are not run: the dispatcher
      is modelled one loop turn at a time on the queue contents it
      observes, and the results [collect_results()] drains are arguments
      of [collect_terrain_data].  The generator keeps the intake of each
      manager, of bound 400; how many jobs the dispatcher process has
      taken from it when [process_data] puts the next one is an argument
      of [generate_terrain_blocks] and [shift] (a [schedule]).
    - [cv2.resize] and the [crater_gen] module are collaborators outside
      these sources; they are operations of the classes [Cv2],
      [CraterGen] and [CraterBuilder].  [cv2.resize] and
      [generateCraters] may raise.
    - The loops of the dispatcher and of a worker are also run to their
      end on given queue contents ([dispatch_run], [worker_run]), for
      the case that no other process touches the queues meanwhile.
    - [ScopedTimer] reads the clock and prints: the times are arguments
      and the printed lines are collected in a list. *)

From Stdlib Require Import ZArith QArith Qround Lia String Ascii.
From stdpp Require Import base option list gmap strings pretty.

Open Scope Z_scope.

(* ================================================================= *)
(** ** Exceptions *)

Inductive exn : Set :=
| KeyError
| ValueError
| ZeroDivisionError
| IndexError
| Cv2Error       (* [cv2.error] *)
| DanglingRef    (* a reference outside the store: not a Python exception *)
| Blocked.       (* a [put] on a full queue that nothing empties: the call
                    never returns; not a Python exception *)

Inductive result (A : Type) : Type :=
| Ok (a : A)
| Raise (e : exn).
Arguments Ok {A} a.
Arguments Raise {A} e.

#[global] Instance result_ret : MRet result := λ A a, Ok a.
#[global] Instance result_bind : MBind result := λ A B k m,
  match m with
  | Ok a => k a
  | Raise e => Raise e
  end.

(** [for x in xs: s = body x s], stopping at the first turn that does
    not return. *)
Fixpoint for_each {A S : Type} (xs : list A) (body : A → S → result S)
    (s : S) : result S :=
  match xs with
  | [] => Ok s
  | x :: xs' => s' ← body x s; for_each xs' body s'
  end.

(* ================================================================= *)
(** ** Python numerics *)

(** [range(lo, hi)] with step 1. *)
Definition py_range (lo hi : Z) : list Z := seqZ lo (hi - lo).

(** [int(f)] for a float [f]: truncation toward zero. *)
Definition py_int (q : Q) : Z := Z.quot (Qnum q) (Z.pos (Qden q)).

(** [a / b] on floats. *)
Definition true_div (a b : Q) : result Q :=
  if Qeq_bool b 0 then Raise ZeroDivisionError else Ok (a / b)%Q.

(** [a // b] on floats: the floor of the quotient, still a float. *)
Definition floor_div (a b : Q) : result Q :=
  if Qeq_bool b 0 then Raise ZeroDivisionError
  else Ok (inject_Z (Qfloor (a / b)%Q)).

Definition Qltb (a b : Q) : bool := negb (Qle_bool b a).

(** [min(xs, key=key)]: the first element whose key is smallest; the
    running best is replaced only by a strictly smaller key. *)
Definition py_min_by {A : Type} (key : A → Z) (xs : list A) : result A :=
  match xs with
  | [] => Raise ValueError
  | x :: rest =>
      Ok (fold_left (λ best y, if key y <? key best then y else best) rest x)
  end.

(** [str.lower()] on ASCII text. *)
Definition ascii_lower (c : ascii) : ascii :=
  let n := N_of_ascii c in
  if ((65 <=? n) && (n <=? 90))%N then ascii_of_N (n + 32) else c.

Fixpoint str_lower (s : string) : string :=
  match s with
  | EmptyString => EmptyString
  | String c s' => String (ascii_lower c) (str_lower s')
  end.

(* ================================================================= *)
(** ** Python dictionaries *)

Module PyDict.
Section dict.
Context {K V : Type} `{EqDecision K}.

Definition t : Type := list (K * V).

Definition empty : t := [].

(** [d.get(k)]: [None] when the key is absent. *)
Fixpoint get (k : K) (d : t) : option V :=
  match d with
  | [] => None
  | (k', v) :: d' => if decide (k = k') then Some v else get k d'
  end.

(** [k in d]. *)
Definition mem (k : K) (d : t) : bool :=
  match get k d with Some _ => true | None => false end.

(** [d[k]]. *)
Definition getitem (k : K) (d : t) : result V :=
  match get k d with Some v => Ok v | None => Raise KeyError end.

(** [d[k] = v]: an existing key keeps its position, a new key goes last. *)
Fixpoint set (k : K) (v : V) (d : t) : t :=
  match d with
  | [] => [(k, v)]
  | (k', v') :: d' =>
      if decide (k = k') then (k, v) :: d' else (k', v') :: set k v d'
  end.

(** [d.keys()], in insertion order. *)
Definition keys (d : t) : list K := d.*1.

(** [len(d)]. *)
Definition len (d : t) : nat := length d.
End dict.
Arguments t : clear implicits.
End PyDict.

(* ================================================================= *)
(** ** numpy arrays and basic slicing *)

(** The elevation type ([np.float32] in the source). *)
Class Elevation := {
  elt : Type;
  ezero : elt;
  eadd : elt → elt → elt;
}.

Module Np.
Abbreviation ndarray := (list (list elt)).

Section ndarray.
Context `{Elevation}.

Definition shape0 (a : ndarray) : Z := Z.of_nat (length a).
Definition shape1 (a : ndarray) : Z :=
  match a with
  | [] => 0
  | row :: _ => Z.of_nat (length row)
  end.

(** [a] has [r] rows of [c] elements each. *)
Definition rect (r c : Z) (a : ndarray) : Prop :=
  shape0 a = r ∧ Forall (λ row, Z.of_nat (length row) = c) a.

(** [a[i, j]] for in-range non-negative indices. *)
Definition get (a : ndarray) (i j : Z) : elt :=
  match a !! Z.to_nat i with
  | Some row => default ezero (row !! Z.to_nat j)
  | None => ezero
  end.

Definition tabulate (r c : Z) (f : Z → Z → elt) : ndarray :=
  (λ i, (λ j, f i j) <$> seqZ 0 c) <$> seqZ 0 r.

(** [np.zeros((r, c))]: negative dimensions are rejected. *)
Definition zeros (r c : Z) : result ndarray :=
  if (r <? 0) || (c <? 0) then Raise ValueError
  else Ok (tabulate r c (λ _ _, ezero)).

(** One bound of [start:stop] on an axis of length [n]: a missing
    bound takes [dflt], a negative one counts from the end, and the
    result is clipped to [0, n]. *)
Definition slice_bound (n dflt : Z) (b : option Z) : Z :=
  match b with
  | None => dflt
  | Some i => Z.max 0 (Z.min n (if i <? 0 then i + n else i))
  end.

(** A normalised half-open index range; empty when [hi <= lo]. *)
Record span : Set := Span { lo : Z; hi : Z }.

Definition slice (n : Z) (start stop : option Z) : span :=
  Span (slice_bound n 0 start) (slice_bound n n stop).

Definition span_len (s : span) : Z := Z.max 0 (hi s - lo s).

Definition in_span (s : span) (i : Z) : bool :=
  (lo s <=? i) && (i <? hi s).

(** A right-hand side of an assignment, read out before anything is
    written: its shape and its elements. *)
Record block : Type := Block {
  rows : Z;
  cols : Z;
  at_ : Z → Z → elt;
}.

Definition as_block (a : ndarray) : block :=
  Block (shape0 a) (shape1 a) (get a).

(** [a[rs, cs]] as a value. *)
Definition getitem (a : ndarray) (rs cs : span) : block :=
  Block (span_len rs) (span_len cs) (λ i j, get a (lo rs + i) (lo cs + j)).

(** Broadcasting of an [m]-long axis onto an [n]-long one. *)
Definition broadcasts (m n : Z) : bool := (m =? n) || (m =? 1).
Definition bidx (m k : Z) : Z := if m =? 1 then 0 else k.

(** [a[rs, cs] = v].  The right-hand side may be a view of [a] itself
    that overlaps the target; [numpy] then assigns as if from a copy, and
    [v] is the content as it was before the write. *)
Definition setitem (a : ndarray) (rs cs : span) (v : block)
    : result ndarray :=
  if broadcasts (rows v) (span_len rs) && broadcasts (cols v) (span_len cs)
  then Ok (tabulate (shape0 a) (shape1 a) (λ i j,
             if in_span rs i && in_span cs j
             then at_ v (bidx (rows v) (i - lo rs)) (bidx (cols v) (j - lo cs))
             else get a i j))
  else Raise ValueError.

(** [a[rs, cs] = x] for a scalar [x]. *)
Definition fill (a : ndarray) (rs cs : span) (x : elt) : ndarray :=
  tabulate (shape0 a) (shape1 a) (λ i j,
    if in_span rs i && in_span cs j then x else get a i j).

(** [a[rs, cs] += v]. *)
Definition iadd (a : ndarray) (rs cs : span) (v : block) : result ndarray :=
  if broadcasts (rows v) (span_len rs) && broadcasts (cols v) (span_len cs)
  then Ok (tabulate (shape0 a) (shape1 a) (λ i j,
             if in_span rs i && in_span cs j
             then eadd (get a i j)
                    (at_ v (bidx (rows v) (i - lo rs)) (bidx (cols v) (j - lo cs)))
             else get a i j))
  else Raise ValueError.

(** [a[r0:r1, c0:c1]] materialised as an array of its own. *)
Definition crop (a : ndarray) (rs cs : span) : ndarray :=
  tabulate (span_len rs) (span_len cs) (λ i j, get a (lo rs + i) (lo cs + j)).
End ndarray.
End Np.

(* ================================================================= *)
(** ** [InterpolatorCfg] and [CPUInterpolator] *)

(** The [cv2] interpolation flags the method string is replaced by. *)
Inductive cv2_interp : Set :=
| INTER_NEAREST
| INTER_LINEAR
| INTER_CUBIC
| INTER_AREA.

(** The messages [__post_init__] prints. *)
Inductive warning : Set :=
| PaddingTooSmall
| BicubicDownscaling
| AreaUpscaling.

Module InterpolatorCfg.
Record t : Set := Build {
  source_resolution : Q;
  target_resolution : Q;
  source_padding : Z;
  method : cv2_interp;
  fx : Q;
  fy : Q;
  target_padding : Z;
}.

(** The four method names that are accepted, after lower-casing. *)
Definition recognized (m : string) : Prop :=
  let m := str_lower m in
  m = "bicubic"%string ∨ m = "nearest"%string ∨
  m = "linear"%string ∨ m = "area"%string.

(** The dataclass constructor followed by [__post_init__], on the four
    declared fields.  [target_padding] is computed before
    [source_padding] is coerced. *)
Definition post_init (source_resolution target_resolution : Q)
    (source_padding : Z) (method : string) : result (t * list warning) :=
  let method := str_lower method in
  fx ← true_div source_resolution target_resolution;
  fy ← true_div source_resolution target_resolution;
  let target_padding := py_int (inject_Z source_padding * fx)%Q in
  let '(source_padding, w) :=
    if source_padding <? 2 then (2, [PaddingTooSmall])
    else (source_padding, []) in
  let mk m := Build source_resolution target_resolution source_padding m
                fx fy target_padding in
  if String.eqb method "bicubic" then
    Ok (mk INTER_CUBIC, w ++ if Qltb fx 1 then [BicubicDownscaling] else [])
  else if String.eqb method "nearest" then Ok (mk INTER_NEAREST, w)
  else if String.eqb method "linear" then Ok (mk INTER_LINEAR, w)
  else if String.eqb method "area" then
    Ok (mk INTER_AREA, w ++ if Qltb 1 fx then [AreaUpscaling] else [])
  else Raise ValueError.
End InterpolatorCfg.

(** [cv2.resize(data, (0, 0), fx=..., fy=..., interpolation=...)], the
    resampling kernel, is an external library call; it raises on what it
    refuses (an empty array, an output of no pixels). *)
Class Cv2 `{Elevation} := {
  cv2_resize : Np.ndarray → Q → Q → cv2_interp → result Np.ndarray;
}.

Module CPUInterpolator.
Section interp.
Context `{Cv2}.
Import InterpolatorCfg.

(** The number of pixels cut from the leading edge of each axis:
    [int(self.settings.source_padding * self.settings.fx)]. *)
Definition trim_lo (settings : InterpolatorCfg.t) : Z :=
  py_int (inject_Z (source_padding settings) * fx settings)%Q.

(** The trailing bound [-int(self.settings.source_padding * self.settings.fy)]. *)
Definition trim_hi (settings : InterpolatorCfg.t) : Z :=
  - py_int (inject_Z (source_padding settings) * fy settings)%Q.

Definition interpolate (settings : InterpolatorCfg.t) (data : Np.ndarray)
    : result Np.ndarray :=
  r ← cv2_resize data (fx settings) (fy settings) (method settings);
  Ok (Np.crop r
        (Np.slice (Np.shape0 r)
           (Some (trim_lo settings)) (Some (trim_hi settings)))
        (Np.slice (Np.shape1 r)
           (Some (trim_lo settings)) (Some (trim_hi settings)))).
End interp.
End CPUInterpolator.

(* ================================================================= *)
(** ** Workers and worker managers *)

(** A queued item [(coords, data)]; [data = None] is the shutdown signal. *)
Definition job (P : Type) : Type := (Z * Z) * option P.

(** [queue.full()] for a queue created with [maxsize]; a queue with
    [maxsize <= 0] is unbounded. *)
Definition queue_full {A : Type} (maxsize : Z) (q : list A) : bool :=
  (0 <? maxsize) && (maxsize <=? Z.of_nat (length q)).

Module BaseWorker.
Record t (P : Type) : Type := Build {
  input_queue : list (job P);
  queue_size : Z;
}.
Arguments Build {P}.
Arguments input_queue {P}.
Arguments queue_size {P}.

Definition get_input_queue_length {P} (w : t P) : Z :=
  Z.of_nat (length (input_queue w)).

Definition is_input_queue_empty {P} (w : t P) : bool :=
  match input_queue w with [] => true | _ => false end.

(** A queue with [maxsize <= 0] is unbounded. *)
Definition is_input_queue_full {P} (w : t P) : bool :=
  (0 <? queue_size w) && (queue_size w <=? get_input_queue_length w).

Definition put {P} (j : job P) (w : t P) : t P :=
  Build (input_queue w ++ [j]) (queue_size w).
End BaseWorker.

(** [instantiate_workers]: [num_workers] workers with empty queues. *)
Definition instantiate_workers {P : Type} (num_workers worker_queue_size : Z)
    : list (BaseWorker.t P) :=
  (λ _, BaseWorker.Build [] worker_queue_size) <$> py_range 0 num_workers.

Module BaseWorkerManager.
(** The intake with its bound, and the workers; the output queue is
    written by the workers only and is an argument where it matters. *)
Record t (P : Type) : Type := Build {
  input_queue : list (job P);
  input_queue_size : Z;
  workers : list (BaseWorker.t P);
}.
Arguments Build {P}.
Arguments input_queue {P}.
Arguments input_queue_size {P}.
Arguments workers {P}.

(** [__init__]: an empty intake of bound [input_queue_size] and idle
    workers. *)
Definition init {P} (num_workers input_queue_size worker_queue_size : Z)
    : t P :=
  Build [] input_queue_size (instantiate_workers num_workers worker_queue_size).

Definition is_input_queue_full {P} (m : t P) : bool :=
  queue_full (input_queue_size m) (input_queue m).

(** The key of [get_shortest_queue_index]:
    [self.workers[i].get_input_queue_length()]. *)
Definition load {P} (m : t P) (i : nat) : Z :=
  default 0 (BaseWorker.get_input_queue_length <$> workers m !! i).

Definition get_shortest_queue_index {P} (m : t P) : result nat :=
  py_min_by (load m) (seq 0 (length (workers m))).

Definition are_workers_done {P} (m : t P) : bool :=
  forallb BaseWorker.is_input_queue_empty (workers m).

(** [process_data]: [self.input_queue.put((coords, data))].  On a full
    intake the [put] waits until the dispatcher takes a job; on the
    intake as it is here it does not return. *)
Definition process_data {P} (coords : Z * Z) (data : P) (m : t P)
    : result (t P) :=
  if is_input_queue_full m then Raise Blocked
  else Ok (Build (input_queue m ++ [(coords, Some data)])
             (input_queue_size m) (workers m)).

(** What the process that submits can see of the dispatcher process:
    [k] more jobs have left the intake.  The workers' queues, which the
    dispatcher fills and the workers empty in processes of their own, are
    not followed. *)
Definition dispatched {P} (k : nat) (m : t P) : t P :=
  Build (drop k (input_queue m)) (input_queue_size m) (workers m).
End BaseWorkerManager.

(** What one turn of the [while True] loop of [dispatch_jobs] does.  The
    queues are filled and emptied by other processes; a turn is taken on
    the queue contents the dispatcher observes. *)
Inductive dispatch_turn (M : Type) : Type :=
| AwaitJob                      (* the intake is empty: [get] blocks *)
| Break (m : M)                 (* the shutdown signal was dequeued *)
| Routed (i : nat) (m : M)      (* the job went to worker [i] *)
| AwaitRoom (i : nat).          (* worker [i]'s queue is full: [put] blocks *)
Arguments AwaitJob {M}.
Arguments Break {M} m.
Arguments Routed {M} i m.
Arguments AwaitRoom {M} i.

Module CraterBuilderManager.
Import BaseWorkerManager.

Definition dispatch_jobs {P} (m : t P) : result (dispatch_turn (t P)) :=
  match input_queue m with
  | [] => Ok AwaitJob
  | (coords, None) :: rest =>
      Ok (Break (Build rest (input_queue_size m) (workers m)))
  | (coords, Some crater_metadata) :: rest =>
      i ← get_shortest_queue_index m;
      match workers m !! i with
      | None => Raise IndexError
      | Some w =>
          if BaseWorker.is_input_queue_full w then Ok (AwaitRoom i)
          else
            Ok (Routed i
                  (Build rest (input_queue_size m)
                     (<[i := BaseWorker.put (coords, Some crater_metadata) w]>
                        (workers m))))
      end
  end.
End CraterBuilderManager.

Module BicubicInterpolatorManager.
(** The loop of [BicubicInterpolatorManager.dispatch_jobs] is the same
    text as [CraterBuilderManager.dispatch_jobs]. *)
Definition dispatch_jobs {P} := @CraterBuilderManager.dispatch_jobs P.
End BicubicInterpolatorManager.

(* ================================================================= *)
(** ** Configuration and collaborators of [HighResDEMGen] *)

(** [BoundingBox] of [large_scale_terrain/utils.py]; the generator fills
    it with integers. *)
Record BoundingBox : Set := {
  x_min : Z;
  x_max : Z;
  y_min : Z;
  y_max : Z;
}.

Module HighResDEMGenCfg.
(** The fields the generator itself reads; the remaining ones are
    forwarded unchanged to the crater collaborators. *)
Record t : Set := Build {
  num_blocks : Z;
  block_size : Z;
  resolution : Q;
  source_resolution : Q;
  interpolation_method : string;
  interpolation_padding : Z;
}.

(** The part of [__post_init__] that builds [interpolator_cfg]. *)
Definition interpolator_cfg (s : t)
    : result (InterpolatorCfg.t * list warning) :=
  InterpolatorCfg.post_init (source_resolution s) (resolution s)
    (interpolation_padding s) (interpolation_method s).
End HighResDEMGenCfg.

(** The crater database, sampler and builder of [crater_gen], which the
    generator calls but which are not part of these sources.  The
    database is threaded as a value. *)
Class CraterGen `{Elevation} := {
  CraterDB : Type;
  crater_metadata : Type;
  crater_raster : Type;
  (** [crater_sampler.sample_craters_by_region(region)] *)
  sample_craters_by_region : BoundingBox → CraterDB → CraterDB;
  (** [crater_db.check_block_exists(coords)] *)
  check_block_exists : Z * Z → CraterDB → bool;
  (** [crater_db.get_block_data(coords)] *)
  get_block_data : Z * Z → CraterDB → crater_metadata;
  (** [data[0]] of a crater builder result *)
  item0 : crater_raster → Np.ndarray;
}.

(** The per-tile state dictionary. *)
Record BlockState : Set := {
  has_crater_metadata : bool;
  has_crater_data : bool;
  has_terrain_data : bool;
  is_padding : bool;
}.

Definition set_has_crater_metadata (b : bool) (s : BlockState) : BlockState :=
  {| has_crater_metadata := b; has_crater_data := has_crater_data s;
     has_terrain_data := has_terrain_data s; is_padding := is_padding s |}.
Definition set_has_crater_data (b : bool) (s : BlockState) : BlockState :=
  {| has_crater_metadata := has_crater_metadata s; has_crater_data := b;
     has_terrain_data := has_terrain_data s; is_padding := is_padding s |}.
Definition set_has_terrain_data (b : bool) (s : BlockState) : BlockState :=
  {| has_crater_metadata := has_crater_metadata s;
     has_crater_data := has_crater_data s;
     has_terrain_data := b; is_padding := is_padding s |}.
Definition set_is_padding (b : bool) (s : BlockState) : BlockState :=
  {| has_crater_metadata := has_crater_metadata s;
     has_crater_data := has_crater_data s;
     has_terrain_data := has_terrain_data s; is_padding := b |}.

(** The literal [{"has_crater_metadata": False, ..., "is_padding": False}]. *)
Definition empty_state : BlockState :=
  {| has_crater_metadata := false; has_crater_data := false;
     has_terrain_data := false; is_padding := false |}.

(** References to state dictionaries. *)
Abbreviation ref := positive.
Abbreviation coord := (Z * Z)%type.

(* ================================================================= *)
(** ** [HighResDEMGen] *)

Module HighResDEMGen.
Section gen.
Context `{CraterGen}.
Import HighResDEMGenCfg.

(** The object [self], together with the store of state dictionaries.
    Of the two worker managers the generator touches the intake only
    ([process_data]). *)
Record t : Type := Build {
  settings : HighResDEMGenCfg.t;
  low_res_dem : Np.ndarray;
  current_block_coord : coord;
  store : gmap ref BlockState;
  next_ref : ref;
  block_grid_tracker : PyDict.t coord ref;
  map_grid_block2coords : PyDict.t coord coord;
  high_res_dem : Np.ndarray;
  lr_dem_px_offset : Z * Z;
  lr_dem_ratio : Q;
  lr_dem_block_size : Z;
  crater_db : CraterDB;
  crater_builder_manager : BaseWorkerManager.t crater_metadata;
  interpolator_manager : BaseWorkerManager.t Np.ndarray;
}.

(** *** Attribute updates *)

Definition with_store (st : t) (s : gmap ref BlockState) (n : ref) : t :=
  Build (settings st) (low_res_dem st) (current_block_coord st) s n
    (block_grid_tracker st) (map_grid_block2coords st) (high_res_dem st)
    (lr_dem_px_offset st) (lr_dem_ratio st) (lr_dem_block_size st)
    (crater_db st) (crater_builder_manager st) (interpolator_manager st).

Definition with_grid (st : t) (tr : PyDict.t coord ref)
    (mp : PyDict.t coord coord) : t :=
  Build (settings st) (low_res_dem st) (current_block_coord st) (store st)
    (next_ref st) tr mp (high_res_dem st)
    (lr_dem_px_offset st) (lr_dem_ratio st) (lr_dem_block_size st)
    (crater_db st) (crater_builder_manager st) (interpolator_manager st).

Definition with_current (st : t) (c : coord) : t :=
  Build (settings st) (low_res_dem st) c (store st)
    (next_ref st) (block_grid_tracker st) (map_grid_block2coords st)
    (high_res_dem st)
    (lr_dem_px_offset st) (lr_dem_ratio st) (lr_dem_block_size st)
    (crater_db st) (crater_builder_manager st) (interpolator_manager st).

Definition with_dem (st : t) (d : Np.ndarray) : t :=
  Build (settings st) (low_res_dem st) (current_block_coord st) (store st)
    (next_ref st) (block_grid_tracker st) (map_grid_block2coords st) d
    (lr_dem_px_offset st) (lr_dem_ratio st) (lr_dem_block_size st)
    (crater_db st) (crater_builder_manager st) (interpolator_manager st).

Definition with_lr (st : t) (off : Z * Z) (ratio : Q) (bsz : Z) : t :=
  Build (settings st) (low_res_dem st) (current_block_coord st) (store st)
    (next_ref st) (block_grid_tracker st) (map_grid_block2coords st)
    (high_res_dem st) off ratio bsz
    (crater_db st) (crater_builder_manager st) (interpolator_manager st).

Definition with_db (st : t) (db : CraterDB) : t :=
  Build (settings st) (low_res_dem st) (current_block_coord st) (store st)
    (next_ref st) (block_grid_tracker st) (map_grid_block2coords st)
    (high_res_dem st)
    (lr_dem_px_offset st) (lr_dem_ratio st) (lr_dem_block_size st)
    db (crater_builder_manager st) (interpolator_manager st).

Definition with_managers (st : t) (cm : BaseWorkerManager.t crater_metadata)
    (im : BaseWorkerManager.t Np.ndarray) : t :=
  Build (settings st) (low_res_dem st) (current_block_coord st) (store st)
    (next_ref st) (block_grid_tracker st) (map_grid_block2coords st)
    (high_res_dem st)
    (lr_dem_px_offset st) (lr_dem_ratio st) (lr_dem_block_size st)
    (crater_db st) cm im.

(** The jobs waiting in the intakes of the two managers. *)
Definition crater_jobs (st : t) : list (job crater_metadata) :=
  BaseWorkerManager.input_queue (crater_builder_manager st).
Definition terrain_jobs (st : t) : list (job Np.ndarray) :=
  BaseWorkerManager.input_queue (interpolator_manager st).

(** *** The store of state dictionaries *)

(** A new dictionary object holding [s]. *)
Definition alloc (s : BlockState) (st : t) : ref * t :=
  (next_ref st,
   with_store st (<[next_ref st := s]> (store st)) (Pos.succ (next_ref st))).

(** Reading the dictionary behind [r]. *)
Definition deref (r : ref) (st : t) : result BlockState :=
  match store st !! r with
  | Some s => Ok s
  | None => Raise DanglingRef
  end.

(** [obj[field] = v] on the dictionary behind [r]. *)
Definition setattr (r : ref) (upd : BlockState → BlockState) (st : t)
    : result t :=
  s ← deref r st;
  Ok (with_store st (<[r := upd s]> (store st)) (next_ref st)).

(** The state dictionary of the tile at local key [l]. *)
Definition state_at (l : coord) (st : t) : option BlockState :=
  r ← PyDict.get l (block_grid_tracker st); store st !! r.

(** The state dictionary of the tile anchored at world block [w]. *)
Definition state_of_anchor (w : coord) (st : t) : option BlockState :=
  l ← PyDict.get w (map_grid_block2coords st); state_at l st.

(** *** Construction helpers *)

Definition get_low_res_dem_offset (st : t) : result t :=
  let off := (Np.shape0 (low_res_dem st) `div` 2,
              Np.shape1 (low_res_dem st) `div` 2) in
  ratio ← true_div (source_resolution (settings st)) (resolution (settings st));
  b ← true_div (inject_Z (block_size (settings st)))
        (source_resolution (settings st));
  Ok (with_lr st off ratio (py_int b)).

Definition instantiate_high_res_dem (st : t) : result t :=
  side ← true_div
    (inject_Z ((num_blocks (settings st) * 2 + 3) * block_size (settings st)))
    (resolution (settings st));
  d ← Np.zeros (py_int side) (py_int side);
  Ok (with_dem st d).

Definition cast_coordinates_to_block_space (coordinates : Q * Q) (st : t)
    : result coord :=
  let '(x, y) := coordinates in
  let bs := block_size (settings st) in
  qx ← floor_div x (inject_Z bs);
  qy ← floor_div y (inject_Z bs);
  Ok (py_int qx * bs, py_int qy * bs).

(** The [if / elif / else] deciding [is_padding] from the loop indices. *)
Definition padding_of (n x y : Z) : bool :=
  if (x =? - n - 1) || (x =? n + 1) then true
  else if (y =? - n - 1) || (y =? n + 1) then true
  else false.

(** *** The block grid *)

Definition build_block_cell (x y : Z) (st : t) : result t :=
  let n := num_blocks (settings st) in
  let bs := block_size (settings st) in
  let x_c := x * bs in
  let x_i := x_c + (current_block_coord st).1 in
  let y_c := y * bs in
  let y_i := y_c + (current_block_coord st).2 in
  (* self.block_grid_tracker[(x_c, y_c)] = copy.copy(state) *)
  let '(r, st) := alloc empty_state st in
  let st := with_grid st (PyDict.set (x_c, y_c) r (block_grid_tracker st))
              (map_grid_block2coords st) in
  (* self.block_grid_tracker[(x_c, y_c)]["is_padding"] = ... *)
  r' ← PyDict.getitem (x_c, y_c) (block_grid_tracker st);
  st ← setattr r' (set_is_padding (padding_of n x y)) st;
  Ok (with_grid st (block_grid_tracker st)
        (PyDict.set (x_i, y_i) (x_c, y_c) (map_grid_block2coords st))).

Definition build_block_grid (st : t) : result t :=
  let n := num_blocks (settings st) in
  let st := with_grid st PyDict.empty PyDict.empty in
  for_each (py_range (- n - 1) (n + 2))
    (λ x, for_each (py_range (- n - 1) (n + 2)) (λ y, build_block_cell x y))
    st.

(** The loop state of [shift_block_grid]: [self] and the two local
    dictionaries under construction. *)
Definition shift_acc : Type :=
  t * PyDict.t coord ref * PyDict.t coord coord.

Definition shift_block_cell (coordinates : coord) (x y : Z)
    (acc : shift_acc) : result shift_acc :=
  let '(st, new_block_grid_tracker, new_map_grid_block2coords) := acc in
  let n := num_blocks (settings st) in
  let bs := block_size (settings st) in
  let x_c := x * bs in
  let x_i := x_c + coordinates.1 in
  let y_c := y * bs in
  let y_i := y_c + coordinates.2 in
  '(st, new_block_grid_tracker) ←
    (if negb (PyDict.mem (x_i, y_i) (map_grid_block2coords st)) then
       let '(r, st) := alloc empty_state st in
       Ok (st, PyDict.set (x_c, y_c) r new_block_grid_tracker)
     else
       l2 ← PyDict.getitem (x_i, y_i) (map_grid_block2coords st);
       r ← PyDict.getitem l2 (block_grid_tracker st);
       Ok (st, PyDict.set (x_c, y_c) r new_block_grid_tracker));
  let new_map_grid_block2coords :=
    PyDict.set (x_i, y_i) (x_c, y_c) new_map_grid_block2coords in
  (* self.block_grid_tracker[(x_c, y_c)]["is_padding"] = ... : the
     dictionary indexed here is the one [self] still holds *)
  r' ← PyDict.getitem (x_c, y_c) (block_grid_tracker st);
  st ← setattr r' (set_is_padding (padding_of n x y)) st;
  Ok (st, new_block_grid_tracker, new_map_grid_block2coords).

Definition shift_block_grid (coordinates : coord) (st : t) : result t :=
  let n := num_blocks (settings st) in
  '(st, new_block_grid_tracker, new_map_grid_block2coords) ←
    for_each (py_range (- n - 1) (n + 2))
      (λ x, for_each (py_range (- n - 1) (n + 2))
              (λ y, shift_block_cell coordinates x y))
      (st, PyDict.empty, PyDict.empty);
  Ok (with_grid st new_block_grid_tracker new_map_grid_block2coords).

(** *** The raster buffer *)

Definition shift_dem (pixel_shift : Z * Z) (st : t) : result t :=
  let '(x_shift, y_shift) := pixel_shift in
  let dem := high_res_dem st in
  let s0 := Np.shape0 dem in
  let s1 := Np.shape1 dem in
  let all0 := Np.slice s0 None None in
  let all1 := Np.slice s1 None None in
  if (x_shift >? s0) || (y_shift >? s1) then
    (* self.high_res_dem[:, :] = 0 *)
    Ok (with_dem st (Np.fill dem all0 all1 ezero))
  else
    let '(x_min_s, x_max_s, x_min_t, x_max_t) :=
      if x_shift >? 0 then (0, - x_shift, x_shift, s0)
      else if x_shift =? 0 then (0, s0, 0, s0)
      else (- x_shift, s0, 0, x_shift) in
    let '(y_min_s, y_max_s, y_min_t, y_max_t) :=
      if y_shift >? 0 then (0, - y_shift, y_shift, s1)
      else if y_shift =? 0 then (0, s1, 0, s1)
      else (- y_shift, s1, 0, y_shift) in
    (* self.high_res_dem[x_min_t:x_max_t, y_min_t:y_max_t] =
         self.high_res_dem[x_min_s:x_max_s, y_min_s:y_max_s] *)
    dem ← Np.setitem dem
             (Np.slice s0 (Some x_min_t) (Some x_max_t))
             (Np.slice s1 (Some y_min_t) (Some y_max_t))
             (Np.getitem dem
                (Np.slice s0 (Some x_min_s) (Some x_max_s))
                (Np.slice s1 (Some y_min_s) (Some y_max_s)));
    let dem :=
      if x_shift <? 0 then
        Np.fill dem (Np.slice s0 (Some x_max_t) None) all1 ezero
      else if x_shift >? 0 then
        Np.fill dem (Np.slice s0 None (Some x_min_t)) all1 ezero
      else dem in
    let dem :=
      if y_shift <? 0 then
        Np.fill dem all0 (Np.slice s1 (Some y_max_t) None) ezero
      else if y_shift >? 0 then
        Np.fill dem all0 (Np.slice s1 None (Some y_min_t)) ezero
      else dem in
    Ok (with_dem st dem).

(** *** Crater metadata and job submission *)

Definition generate_craters_metadata (st : t) : result t :=
  let n := num_blocks (settings st) in
  let bs := block_size (settings st) in
  let c := current_block_coord st in
  let region :=
    {| x_min := c.1 - (n + 2) * bs; x_max := c.1 + (n + 2) * bs;
       y_min := c.2 - (n + 2) * bs; y_max := c.2 + (n + 2) * bs |} in
  let st := with_db st (sample_craters_by_region region (crater_db st)) in
  for_each (PyDict.keys (map_grid_block2coords st))
    (λ coords st,
       let exists_ := check_block_exists coords (crater_db st) in
       local_coords ← PyDict.getitem coords (map_grid_block2coords st);
       r ← PyDict.getitem local_coords (block_grid_tracker st);
       if exists_ then setattr r (set_has_crater_metadata true) st
       else setattr r (set_has_crater_metadata false) st)
    st.

Definition querry_low_res_dem (coordinates : coord) (st : t)
    : result Np.ndarray :=
  let sr := source_resolution (settings st) in
  let pad := interpolation_padding (settings st) in
  q0 ← true_div (inject_Z coordinates.1) sr;
  q1 ← true_div (inject_Z coordinates.2) sr;
  let lr_dem_coordinates :=
    (py_int (q0 + inject_Z (lr_dem_px_offset st).1)%Q,
     py_int (q1 + inject_Z (lr_dem_px_offset st).2)%Q) in
  let dem := low_res_dem st in
  Ok (Np.crop dem
        (Np.slice (Np.shape0 dem)
           (Some (lr_dem_coordinates.1 - pad))
           (Some (lr_dem_coordinates.1 + lr_dem_block_size st + pad)))
        (Np.slice (Np.shape1 dem)
           (Some (lr_dem_coordinates.2 - pad))
           (Some (lr_dem_coordinates.2 + lr_dem_block_size st + pad)))).

(** The dispatchers run in processes of their own while the loop of
    [generate_terrain_blocks] submits.  A schedule says, for the loop
    turn of each key, how many jobs the dispatcher of the crater builder
    and the dispatcher of the interpolator have taken from their intakes
    since the previous [put] on that intake, by the time the [put] of
    that turn is made.  What a dispatcher takes between two calls counts
    at the next [put]. *)
Definition schedule : Type := coord → nat * nat.

(** No dispatcher takes anything. *)
Definition stalled : schedule := λ _, (0%nat, 0%nat).

Definition generate_terrain_blocks (taken : schedule) (st : t) : result t :=
  for_each (PyDict.keys (map_grid_block2coords st))
    (λ grid_key st,
       let coords := (grid_key.1, grid_key.2) in
       grid_coords ← PyDict.getitem grid_key (map_grid_block2coords st);
       r ← PyDict.getitem grid_coords (block_grid_tracker st);
       s ← deref r st;
       st ← (if negb (has_crater_data s) then
               m ← BaseWorkerManager.process_data coords
                      (get_block_data coords (crater_db st))
                      (BaseWorkerManager.dispatched (taken grid_key).1
                         (crater_builder_manager st));
               Ok (with_managers st m (interpolator_manager st))
             else Ok st);
       r ← PyDict.getitem grid_coords (block_grid_tracker st);
       s ← deref r st;
       if negb (has_terrain_data s) then
         patch ← querry_low_res_dem coords st;
         m ← BaseWorkerManager.process_data coords patch
                (BaseWorkerManager.dispatched (taken grid_key).2
                   (interpolator_manager st));
         Ok (with_managers st (crater_builder_manager st) m)
       else Ok st)
    st.

(** *** [shift] and [collect_terrain_data] *)

Definition shift (coordinates : Q * Q) (taken : schedule) (st : t)
    : result t :=
  new_block_coord ← cast_coordinates_to_block_space coordinates st;
  let delta_coord :=
    (new_block_coord.1 - (current_block_coord st).1,
     new_block_coord.2 - (current_block_coord st).2) in
  px ← true_div (inject_Z delta_coord.1) (resolution (settings st));
  py ← true_div (inject_Z delta_coord.2) (resolution (settings st));
  let pixel_shift := (- py_int px, - py_int py) in
  st ← shift_block_grid new_block_coord st;
  st ← shift_dem pixel_shift st;
  let st := with_current st new_block_coord in
  st ← generate_craters_metadata st;
  generate_terrain_blocks taken st.

(** The body shared by the two loops of [collect_terrain_data]: add
    [data] into the tile's region of the raster and raise [flag]. *)
Definition collect_one (offset : Z) (flag : BlockState → BlockState)
    (coords : coord) (data : Np.ndarray) (st : t) : result t :=
  let res := resolution (settings st) in
  let bs := block_size (settings st) in
  '(x_c, y_c) ← PyDict.getitem coords (map_grid_block2coords st);
  let local_coords := (x_c, y_c) in
  x0 ← true_div (inject_Z x_c) res;
  x1 ← true_div (inject_Z (x_c + bs)) res;
  y0 ← true_div (inject_Z y_c) res;
  y1 ← true_div (inject_Z (y_c + bs)) res;
  let dem := high_res_dem st in
  dem ← Np.iadd dem
           (Np.slice (Np.shape0 dem)
              (Some (py_int x0 + offset)) (Some (py_int x1 + offset)))
           (Np.slice (Np.shape1 dem)
              (Some (py_int y0 + offset)) (Some (py_int y1 + offset)))
           (Np.as_block data);
  let st := with_dem st dem in
  r ← PyDict.getitem local_coords (block_grid_tracker st);
  setattr r flag st.

(** [crater_results] and [terrain_results] are what the two
    [collect_results()] calls drained from the output queues. *)
Definition collect_terrain_data
    (crater_results : list (coord * crater_raster))
    (terrain_results : list (coord * Np.ndarray)) (st : t) : result t :=
  off ← true_div
    (inject_Z ((num_blocks (settings st) + 1) * block_size (settings st)))
    (resolution (settings st));
  let offset := py_int off in
  st ← for_each crater_results
         (λ '(coords, data),
            collect_one offset (set_has_crater_data true) coords (item0 data))
         st;
  for_each terrain_results
    (λ '(coords, data),
       collect_one offset (set_has_terrain_data true) coords data)
    st.

(** *** Construction *)

(** [__init__] up to and including [build()], which creates the two
    managers with the queue sizes written there. *)
Definition init (low_res_dem : Np.ndarray) (settings : HighResDEMGenCfg.t)
    (db : CraterDB) : result t :=
  let st :=
    Build settings low_res_dem (0, 0) ∅ 1%positive PyDict.empty PyDict.empty
      [] (0, 0) 0%Q 0 db
      (BaseWorkerManager.init 8 400 2) (BaseWorkerManager.init 1 400 200) in
  st ← build_block_grid st;
  st ← instantiate_high_res_dem st;
  get_low_res_dem_offset st.

(** *** Operation sequences *)

Inductive op : Type :=
| OpShift (coordinates : Q * Q) (taken : schedule)
| OpCratersMetadata
| OpCollect (crater_results : list (coord * crater_raster))
            (terrain_results : list (coord * Np.ndarray)).

Definition run_op (o : op) (st : t) : result t :=
  match o with
  | OpShift c taken => shift c taken st
  | OpCratersMetadata => generate_craters_metadata st
  | OpCollect cr tr => collect_terrain_data cr tr st
  end.

(** The states a generator goes through: construction followed by any
    operations that returned normally, whatever the dispatchers did
    meanwhile. *)
Inductive reachable (low_res_dem : Np.ndarray)
    (settings : HighResDEMGenCfg.t) : t → Prop :=
| reach_init db st :
    init low_res_dem settings db = Ok st →
    reachable low_res_dem settings st
| reach_op o st st' :
    reachable low_res_dem settings st →
    run_op o st = Ok st' →
    reachable low_res_dem settings st'.
End gen.
End HighResDEMGen.

(* ================================================================= *)
(** ** [ScopedTimer] *)

Module ScopedTimer.
(** The line [__exit__] builds,
    [f"{ansi_color}{indentation}{name} took: {elapsed_time:.4f} seconds{reset_color}"],
    as its parts: the colour prefix, the number of spaces, the name and
    the elapsed time before it is rendered. *)
Record message : Set := Message {
  color : string;
  indentation : Z;
  label : string;
  elapsed : Q;
}.

Record t : Set := Build {
  name : string;
  active : bool;
  argb_color : option Z;
  ansi_color : string;
  indent : Z;
  start_time : option Q;
}.

Definition argb_to_rgb (argb : Z) : Z * Z * Z :=
  let rgb := Z.land (Z.shiftr argb 16) 0xFFFFFF in
  (Z.land (Z.shiftr rgb 16) 0xFF, Z.land (Z.shiftr rgb 8) 0xFF,
   Z.land rgb 0xFF).

Definition rgb_to_ansi (rgb : Z * Z * Z) : string :=
  let '(r, g, b) := rgb in
  String "027"
    ("[38;2;" +:+ pretty r +:+ ";" +:+ pretty g +:+ ";" +:+ pretty b +:+ "m").

(** [__init__]; [if argb_color:] is false for [None] and for [0]. *)
Definition init (name : string) (active : bool) (argb_color : option Z) : t :=
  let ansi_color :=
    match argb_color with
    | Some c => if c =? 0 then ""%string else rgb_to_ansi (argb_to_rgb c)
    | None => ""%string
    end in
  Build name active argb_color ansi_color 2 None.

(** [_thread_local_data]: both attributes are absent until the first
    active timer is entered. *)
Record thread_local : Set := Local {
  nesting_level : option Z;
  messages : option (list message);
}.

(** The thread-local data and the lines printed so far. *)
Record world : Set := World {
  tls : thread_local;
  stdout : list message;
}.

(** [__enter__], at time [now]. *)
Definition enter (now : Q) (self : t) (tl : thread_local) : t * thread_local :=
  if active self then
    let level := default 0 (nesting_level tl) in
    let msgs := default [] (messages tl) in
    (Build (name self) (active self) (argb_color self) (ansi_color self)
       (indent self) (Some now),
     Local (Some (level + 1)) (Some msgs))
  else (self, tl).

(** [__exit__], at time [now]; [None] stands for the [AttributeError]
    of a timer that was never entered. *)
Definition exit (now : Q) (self : t) (w : world) : option world :=
  if active self then
    start ← start_time self;
    level ← nesting_level (tls w);
    msgs ← messages (tls w);
    let elapsed_time := (now - start)%Q in
    let indentation := Z.max 0 (level - 1) * Z.max 0 (indent self) in
    let message := Message (ansi_color self) indentation (name self) elapsed_time in
    let msgs := message :: msgs in
    let level := level - 1 in
    if level =? 0 then
      Some (World (Local (Some level) (Some [])) (stdout w ++ msgs))
    else Some (World (Local (Some level) (Some msgs)) (stdout w))
  else Some w.

(** [with ScopedTimer(name, active, argb_color): body], entered at
    [t_enter] and left at [t_exit], where [body] is a sequence of such
    statements. *)
#[local] Unset Elimination Schemes.
Inductive block : Set :=
| With (name : string) (active : bool) (argb_color : option Z)
       (t_enter t_exit : Q) (body : list block).
#[local] Set Elimination Schemes.

Definition run_seq (run : block → world → option world)
    : list block → world → option world :=
  fix go bs w :=
    match bs with
    | [] => Some w
    | b :: bs' => w' ← run b w; go bs' w'
    end.

Fixpoint run (b : block) (w : world) : option world :=
  match b with
  | With name active argb_color t_enter t_exit body =>
      let '(self, tl) := enter t_enter (init name active argb_color) (tls w) in
      w ← run_seq run body (World tl (stdout w));
      exit t_exit self w
  end.

(** The lines of a block whose enclosing active timers number [level]:
    its own line first, then those of its inner blocks, the last inner
    block first. *)
Fixpoint report (level : Z) (b : block) : list message :=
  match b with
  | With name active argb_color t_enter t_exit body =>
      if active then
        Message (ansi_color (init name active argb_color)) (level * 2) name
          (t_exit - t_enter)%Q
        :: concat (rev (map (report (level + 1)) body))
      else concat (rev (map (report level) body))
  end.

(** No timer is running on the thread. *)
Definition idle (tl : thread_local) : Prop :=
  (nesting_level tl = None ∨ nesting_level tl = Some 0) ∧
  (messages tl = None ∨ messages tl = Some []).
End ScopedTimer.

(* ================================================================= *)
(** ** Worker loops and the dispatcher loop *)

(** How the [while True] loop of a worker's [run] ends on the queue
    contents it observes. *)
Inductive worker_end (R : Type) : Type :=
| SawSentinel                          (* [break] at the shutdown signal *)
| AwaitsInput                          (* [get] blocks on the empty queue *)
| AwaitsOutputRoom (pending : coord * R)   (* [put] blocks on the full output *)
| KernelRaised (e : exn).              (* the call raised: the process ends *)
Arguments SawSentinel {R}.
Arguments AwaitsInput {R}.
Arguments AwaitsOutputRoom {R} pending.
Arguments KernelRaised {R} e.

(** The loop shared by [CraterBuilderWorker.run] and
    [BicubicInterpolatorWorker.run]; [kernel coords data] is the call
    whose result is put on the output queue. *)
Fixpoint worker_run {P R : Type} (kernel : coord → P → result R)
    (output_queue_size : Z) (input_queue : list (job P))
    (output_queue : list (coord * R))
    : worker_end R * list (job P) * list (coord * R) :=
  match input_queue with
  | [] => (AwaitsInput, [], output_queue)
  | (coords, None) :: rest => (SawSentinel, rest, output_queue)
  | (coords, Some data) :: rest =>
      match kernel coords data with
      | Raise e => (KernelRaised e, rest, output_queue)
      | Ok r =>
          if queue_full output_queue_size output_queue then
            (AwaitsOutputRoom (coords, r), rest, output_queue)
          else
            worker_run kernel output_queue_size rest
              (output_queue ++ [(coords, r)])
      end
  end.

(** [self.builder.generateCraters(crater_meta_data, coords)] of
    [crater_gen.CraterBuilder]. *)
Class CraterBuilder `{CraterGen} := {
  generateCraters : crater_metadata → coord → result crater_raster;
}.

Module CraterBuilderWorker.
Definition run `{CraterBuilder} :=
  worker_run (λ coords crater_meta_data,
                generateCraters crater_meta_data coords).
End CraterBuilderWorker.

Module BicubicInterpolatorWorker.
Definition run `{Cv2} (settings : InterpolatorCfg.t) :=
  worker_run (λ _ data, CPUInterpolator.interpolate settings data).
End BicubicInterpolatorWorker.

(** How the [while True] loop of [dispatch_jobs] ends when no other
    process touches the queues meanwhile. *)
Inductive dispatch_end (M : Type) : Type :=
| Waits (m : M)               (* [get] blocks on the empty intake *)
| Stops (m : M)               (* [break] at the shutdown signal *)
| Blocks (i : nat) (m : M)    (* [put] blocks on worker [i] *)
| Runs (m : M).               (* still looping after the given turns *)
Arguments Waits {M} m.
Arguments Stops {M} m.
Arguments Blocks {M} i m.
Arguments Runs {M} m.

Fixpoint dispatch_run {P : Type} (turns : nat) (m : BaseWorkerManager.t P)
    : result (dispatch_end (BaseWorkerManager.t P)) :=
  match turns with
  | O => Ok (Runs m)
  | S turns' =>
      turn ← CraterBuilderManager.dispatch_jobs m;
      match turn with
      | AwaitJob => Ok (Waits m)
      | Break m' => Ok (Stops m')
      | Routed _ m' => dispatch_run turns' m'
      | AwaitRoom i => Ok (Blocks i m)
      end
  end.

(** [process_data] called once for each job of [jobs]. *)
Definition submit {P : Type} (jobs : list (coord * P)) : list (job P) :=
  (λ j, (j.1, Some j.2)) <$> jobs.

(** The manager a run of the dispatcher loop ends with. *)
Definition final_manager {M : Type} (e : dispatch_end M) : M :=
  match e with
  | Waits m | Stops m | Blocks _ m | Runs m => m
  end.

(** All jobs waiting in the workers' queues. *)
Definition queued {P : Type} (m : BaseWorkerManager.t P) : list (job P) :=
  concat (BaseWorker.input_queue <$> BaseWorkerManager.workers m).

(* ================================================================= *)
(** ** Vocabulary of the properties *)

(** The cells of two nested loops, in the order they are visited. *)
Definition cells (xs ys : list Z) : list (Z * Z) :=
  x ← xs; (λ y, (x, y)) <$> ys.

(** [i] is the first index below [n] at which [key] is smallest. *)
Definition first_argmin (key : nat → Z) (n i : nat) : Prop :=
  (i < n)%nat ∧
  (∀ j, (j < n)%nat → key i ≤ key j) ∧
  (∀ j, (j < i)%nat → key i < key j).

(** Index [i] of an axis of length [n] receives the old element at
    [i - D], when that index exists. *)
Definition shifted_in (n D i : Z) : bool := (0 <=? i - D) && (i - D <? n).

(** The raster translation along one axis as the specification words it:
    for [D > 0] the destination range [D, n) is copied from [0, n - D)
    and [0, D) is zeroed; for [D < 0] the destination range [0, n + D)
    is copied from [-D, n) and [n + D, n) is zeroed; [D = 0] leaves the
    axis as it is.  [Some i'] is the source index, [None] a zeroed one. *)
Definition translate_src (n D i : Z) : option Z :=
  if 0 <? D then (if D <=? i then Some (i - D) else None)
  else if D <? 0 then (if i <? n + D then Some (i - D) else None)
  else Some i.

(** An array with its [p] outermost pixels removed on each of its four
    edges. *)
Definition trim_edges `{Elevation} (p : Z) (a : Np.ndarray) : Np.ndarray :=
  Np.tabulate (Np.shape0 a - 2 * p) (Np.shape1 a - 2 * p)
    (λ i j, Np.get a (i + p) (j + p)).

(** The loop indices [range(-num_blocks - 1, num_blocks + 2)] and the
    cells of the window in the order the two nested loops visit them. *)
Definition offsets (n : Z) : list Z := py_range (- n - 1) (n + 2).
Definition window_cells (n : Z) : list (Z * Z) := cells (offsets n) (offsets n).

(** The keys the loops compute for cell [(x, y)]: [(x_c, y_c)] and
    [(x_i, y_i)]. *)
Definition local_key (bs : Z) (c : Z * Z) : coord := (c.1 * bs, c.2 * bs).
Definition world_key (bs : Z) (center : coord) (c : Z * Z) : coord :=
  (c.1 * bs + center.1, c.2 * bs + center.2).

(** Two states with the same three [has_*] flags, and the order in which
    a flag may only go from false to true. *)
Definition flags_eq (s s' : BlockState) : Prop :=
  has_crater_metadata s = has_crater_metadata s' ∧
  has_crater_data s = has_crater_data s' ∧
  has_terrain_data s = has_terrain_data s'.
Definition flags_le (s s' : BlockState) : Prop :=
  (has_crater_metadata s = true → has_crater_metadata s' = true) ∧
  (has_crater_data s = true → has_crater_data s' = true) ∧
  (has_terrain_data s = true → has_terrain_data s' = true).


(** A tracker with exactly [(2 * num_blocks + 3)^2] entries, one for each
    local offset [(dx, dy)] with [dx] and [dy] in
    [-(num_blocks + 1), num_blocks + 1]. *)
Definition tracker_complete {V : Type} (cfg : HighResDEMGenCfg.t)
    (tracker : PyDict.t coord V) : Prop :=
  let n := HighResDEMGenCfg.num_blocks cfg in
  let bs := HighResDEMGenCfg.block_size cfg in
  Z.of_nat (PyDict.len tracker) = (2 * n + 3) ^ 2 ∧
  ∀ l, is_Some (PyDict.get l tracker) ↔
       ∃ dx dy, - (n + 1) ≤ dx ≤ n + 1 ∧ - (n + 1) ≤ dy ≤ n + 1 ∧
                l = (dx * bs, dy * bs).

Section grid_vocabulary.
Context `{CraterGen}.
Import HighResDEMGenCfg HighResDEMGen.

(** The two dictionaries describe the window centred at [center] and
    every reference they hold is live. *)
Definition grid_ok (center : coord) (st : t) : Prop :=
  let n := num_blocks (settings st) in
  let bs := block_size (settings st) in
  PyDict.keys (block_grid_tracker st) = local_key bs <$> window_cells n ∧
  map_grid_block2coords st
    = (λ c, (world_key bs center c, local_key bs c)) <$> window_cells n ∧
  (∀ l r, PyDict.get l (block_grid_tracker st) = Some r →
          is_Some (store st !! r)) ∧
  (∀ r, is_Some (store st !! r) → (r < next_ref st)%positive).

Definition wf (st : t) : Prop := grid_ok (current_block_coord st) st.

(** How the tile of [cell] in the new tracker relates to the old
    generator [st]: carried over by reference, or new with no flag. *)
Definition tile_from (st : t) (coordinates : coord) (sto : gmap ref BlockState)
    (cell : Z * Z) (r : ref) : Prop :=
  let bs := block_size (settings st) in
  match PyDict.get (world_key bs coordinates cell) (map_grid_block2coords st) with
  | Some l2 => PyDict.get l2 (block_grid_tracker st) = Some r
  | None => (next_ref st ≤ r)%positive ∧
            ∃ s, sto !! r = Some s ∧ flags_eq empty_state s
  end.

Definition shift_inv (st : t) (coordinates : coord) (done : list (Z * Z))
    (acc : shift_acc) : Prop :=
  let bs := block_size (settings st) in
  let '(st1, nt, nm) := acc in
  st1 = with_store st (store st1) (next_ref st1) ∧
  (next_ref st ≤ next_ref st1)%positive ∧
  (∀ r s, store st !! r = Some s →
          ∃ s', store st1 !! r = Some s' ∧ flags_eq s s') ∧
  (∀ r, is_Some (store st1 !! r) → (r < next_ref st1)%positive) ∧
  PyDict.keys nt = local_key bs <$> done ∧
  nm = (λ c, (world_key bs coordinates c, local_key bs c)) <$> done ∧
  (∀ cell, cell ∈ done →
     ∃ r, PyDict.get (local_key bs cell) nt = Some r ∧
          is_Some (store st1 !! r) ∧
          tile_from st coordinates (store st1) cell r).

(** The loop invariant of [build_block_grid]. *)
Definition build_inv (st : t) (done : list (Z * Z)) (st1 : t) : Prop :=
  let bs := block_size (settings st) in
  st1 = with_grid (with_store st (store st1) (next_ref st1))
          (block_grid_tracker st1) (map_grid_block2coords st1) ∧
  (∀ r, is_Some (store st1 !! r) → (r < next_ref st1)%positive) ∧
  PyDict.keys (block_grid_tracker st1) = local_key bs <$> done ∧
  map_grid_block2coords st1
    = (λ c, (world_key bs (current_block_coord st) c, local_key bs c))
        <$> done ∧
  (∀ l r, PyDict.get l (block_grid_tracker st1) = Some r →
          is_Some (store st1 !! r)).

(** Every dictionary object of [m] is still in [m'], related by [R],
    and [m'] has no other objects. *)
Definition store_rel (R : BlockState → BlockState → Prop)
    (m m' : gmap ref BlockState) : Prop :=
  (∀ r s, m !! r = Some s → ∃ s', m' !! r = Some s' ∧ R s s') ∧
  (∀ r, is_Some (m' !! r) → is_Some (m !! r)).

(** The region [generate_craters_metadata] asks the sampler for. *)
Definition metadata_region (st : t) : BoundingBox :=
  let n := num_blocks (settings st) in
  let bs := block_size (settings st) in
  let c := current_block_coord st in
  {| x_min := c.1 - (n + 2) * bs; x_max := c.1 + (n + 2) * bs;
     y_min := c.2 - (n + 2) * bs; y_max := c.2 + (n + 2) * bs |}.

(** What holds of every reachable generator built from [dem] and
    [cfg]. *)
Definition reach_inv (dem : Np.ndarray) (cfg : HighResDEMGenCfg.t)
    (st : t) : Prop :=
  settings st = cfg ∧ low_res_dem st = dem ∧ wf st ∧
  lr_dem_px_offset st = (Np.shape0 dem `div` 2, Np.shape1 dem `div` 2) ∧
  ∃ b, true_div (inject_Z (block_size cfg)) (source_resolution cfg) = Ok b ∧
       lr_dem_block_size st = py_int b.

(** The generators after each operation of a sequence. *)
Fixpoint run_ops (ops : list op) (st : t) : result (list t) :=
  match ops with
  | [] => Ok []
  | o :: ops' =>
      st' ← run_op o st;
      rest ← run_ops ops' st';
      Ok (st' :: rest)
  end.

(** The coarse-DEM patch as the specification words it: the centre
    pixel is [floor(X / source_resolution) + cx] (and likewise for
    [Y]), and the slice is [p - P_c : p + T_c + P_c] on each axis. *)
Definition patch_by_floor (coordinates : coord) (st : t) : Np.ndarray :=
  let sr := source_resolution (settings st) in
  let pad := interpolation_padding (settings st) in
  let dem := low_res_dem st in
  let p0 := Qfloor (inject_Z coordinates.1 / sr) + Np.shape0 dem `div` 2 in
  let p1 := Qfloor (inject_Z coordinates.2 / sr) + Np.shape1 dem `div` 2 in
  Np.crop dem
    (Np.slice (Np.shape0 dem) (Some (p0 - pad))
       (Some (p0 + lr_dem_block_size st + pad)))
    (Np.slice (Np.shape1 dem) (Some (p1 - pad))
       (Some (p1 + lr_dem_block_size st + pad))).
End grid_vocabulary.

(** *** Vocabulary of the further properties *)

(** Every worker of [ws] is still there in [ws'], with the same queue
    bound and a queue that only grew at its tail. *)
Definition queues_grow {P : Type} (ws ws' : list (BaseWorker.t P)) : Prop :=
  length ws' = length ws ∧
  ∀ i w, ws !! i = Some w →
    ∃ w', ws' !! i = Some w' ∧
          BaseWorker.queue_size w' = BaseWorker.queue_size w ∧
          BaseWorker.input_queue w `prefix_of` BaseWorker.input_queue w'.

(** What holds of the workers after the first [k] of [jobs] were dealt
    to [N] idle workers in turn. *)
Definition dealt {P : Type} (N q : Z) (jobs : list (coord * P)) (k : nat)
    (ws : list (BaseWorker.t P)) : Prop :=
  length ws = Z.to_nat N ∧
  (∀ i w, ws !! i = Some w →
     BaseWorker.queue_size w = q ∧
     Z.of_nat (length (BaseWorker.input_queue w))
     = (Z.of_nat k + N - 1 - Z.of_nat i) `div` N) ∧
  (∀ k' j, (k' < k)%nat → jobs !! k' = Some j →
     ∃ w, ws !! Z.to_nat (Z.of_nat k' `mod` N) = Some w ∧
          BaseWorker.input_queue w !! Z.to_nat (Z.of_nat k' `div` N)
          = Some (j.1, Some j.2)).

(** The manager [m] after [jobs] were put on its intake, in this order,
    and the dispatcher took [k] jobs from its front in all. *)
Definition fed {P : Type} (jobs : list (coord * P)) (k : nat)
    (m : BaseWorkerManager.t P) : BaseWorkerManager.t P :=
  BaseWorkerManager.Build
    (drop k (BaseWorkerManager.input_queue m ++ submit jobs))
    (BaseWorkerManager.input_queue_size m) (BaseWorkerManager.workers m).

(** The intake of [m] is unbounded or can take [n] more jobs. *)
Definition has_room {P : Type} (n : Z) (m : BaseWorkerManager.t P) : Prop :=
  BaseWorkerManager.input_queue_size m ≤ 0 ∨
  Z.of_nat (length (BaseWorkerManager.input_queue m)) + n
  ≤ BaseWorkerManager.input_queue_size m.

(** No two keys of a tracker hold the same dictionary object. *)
Definition tracker_inj (tracker : PyDict.t coord ref) : Prop :=
  ∀ l1 l2 r,
    PyDict.get l1 tracker = Some r → PyDict.get l2 tracker = Some r → l1 = l2.

Section grid_vocabulary_more.
Context `{CraterGen}.
Import HighResDEMGenCfg HighResDEMGen.

(** The state dictionary [build_block_grid] leaves at cell [(x, y)]. *)
Definition built_state (n : Z) (cell : Z * Z) : BlockState :=
  set_is_padding (padding_of n cell.1 cell.2) empty_state.

(** The loop invariants of [build_block_grid] and [shift_block_grid],
    extended with what the loops do to the dictionaries. *)
Definition build_inv2 (st : t) (done : list (Z * Z)) (st1 : t) : Prop :=
  let n := num_blocks (settings st) in
  let bs := block_size (settings st) in
  build_inv st done st1 ∧
  tracker_inj (block_grid_tracker st1) ∧
  ∀ cell, cell ∈ done →
    state_at (local_key bs cell) st1 = Some (built_state n cell).

Definition shift_inv2 (st : t) (coordinates : coord) (done : list (Z * Z))
    (acc : shift_acc) : Prop :=
  let n := num_blocks (settings st) in
  let bs := block_size (settings st) in
  shift_inv st coordinates done acc ∧
  tracker_inj acc.1.2 ∧
  (∀ cell r, cell ∈ done →
     PyDict.get (local_key bs cell) (block_grid_tracker st) = Some r →
     ∃ s, store acc.1.1 !! r = Some s ∧
          is_padding s = padding_of n cell.1 cell.2) ∧
  (∀ r s, (next_ref st ≤ r)%positive →
          store acc.1.1 !! r = Some s → s = empty_state).

(** The tile anchored at [w] is in the window and its [flag] is not
    set. *)
Definition lacks (flag : BlockState → bool) (st : t) (w : coord) : bool :=
  match state_of_anchor w st with
  | Some s => negb (flag s)
  | None => false
  end.

(** The coarse patch [querry_low_res_dem] returns for [w]. *)
Definition patch_of (st : t) (w : coord) : Np.ndarray :=
  match querry_low_res_dem w st with
  | Ok patch => patch
  | Raise _ => []
  end.

(** The jobs one pass of [generate_terrain_blocks] hands to the crater
    builder and to the interpolator. *)
Definition crater_jobs_due (st : t) : list (coord * crater_metadata) :=
  (λ w, (w, get_block_data w (crater_db st)))
    <$> filter (λ w, lacks has_crater_data st w = true)
          (PyDict.keys (map_grid_block2coords st)).
Definition terrain_jobs_due (st : t) : list (coord * Np.ndarray) :=
  (λ w, (w, patch_of st w))
    <$> filter (λ w, lacks has_terrain_data st w = true)
          (PyDict.keys (map_grid_block2coords st)).

(** The block [cast_coordinates_to_block_space] returns and the pixel
    shift [shift] derives from it. *)
Definition block_of (bs : Z) (coordinates : Q * Q) : coord :=
  (Qfloor (coordinates.1 / inject_Z bs) * bs,
   Qfloor (coordinates.2 / inject_Z bs) * bs).
Definition pixel_shift_to (st : t) (nb : coord) : Z * Z :=
  (- py_int (inject_Z (nb.1 - (current_block_coord st).1)
             / resolution (settings st)),
   - py_int (inject_Z (nb.2 - (current_block_coord st).2)
             / resolution (settings st))).
End grid_vocabulary_more.

(* ================================================================= *)
(** ** A small concrete generator *)

Module Small.
(** Integer elevations. *)
Definition elevation : Elevation :=
  {| elt := Z; ezero := 0; eadd := Z.add |}.

Definition ndarray : Type := list (list (@elt elevation)).

(** A crater collaborator that knows every block and builds rasters
    that are plain arrays. *)
Definition craters : @CraterGen elevation :=
  {| CraterDB := unit;
     crater_metadata := unit;
     crater_raster := ndarray;
     sample_craters_by_region := λ _ db, db;
     check_block_exists := λ _ _, true;
     get_block_data := λ _ _, tt;
     item0 := λ a, a |}.

Definition gen : Type := @HighResDEMGen.t elevation craters.

(** A stand-in for [cv2.resize]: nearest-neighbour resampling to
    [round(fy * rows) x round(fx * cols)] pixels whatever the method,
    which refuses an empty input and an empty output. *)
Definition resize_nearest (a : ndarray) (fx fy : Q) (_ : cv2_interp)
    : result ndarray :=
  let rows := @Np.shape0 elevation a in
  let cols := @Np.shape1 elevation a in
  let rows' := Qfloor (inject_Z rows * fy + (1 # 2)) in
  let cols' := Qfloor (inject_Z cols * fx + (1 # 2)) in
  if (rows <=? 0) || (cols <=? 0) || (rows' <=? 0) || (cols' <=? 0)
  then Raise Cv2Error
  else Ok (@Np.tabulate elevation rows' cols' (λ i j,
             @Np.get elevation a
               (Z.min (rows - 1) (Qfloor (inject_Z i / fy)))
               (Z.min (cols - 1) (Qfloor (inject_Z j / fx))))).

Definition cv2 : @Cv2 elevation := {| cv2_resize := resize_nearest |}.

(** The end-to-end configuration of the specification:
    [num_blocks = 1], [block_size = 10], [resolution = 1],
    [source_resolution = 5]. *)
Definition settings : HighResDEMGenCfg.t :=
  HighResDEMGenCfg.Build 1 10 1 5 "bicubic" 2.

Definition low_res_dem : ndarray :=
  @Np.tabulate elevation 40 40 (λ i j, i * 40 + j).

Definition gen0 : result gen :=
  @HighResDEMGen.init elevation craters low_res_dem settings tt.

(** A coarse DEM of 4 x 4 pixels at 4 world units per pixel: the
    window of [num_blocks = 1] blocks of size 10 reaches past it. *)
Definition coarse_settings : HighResDEMGenCfg.t :=
  HighResDEMGenCfg.Build 1 10 1 4 "nearest" 2.

Definition coarse_dem : ndarray :=
  @Np.tabulate elevation 4 4 (λ i j, i * 4 + j).

Definition coarse_gen0 : result gen :=
  @HighResDEMGen.init elevation craters coarse_dem coarse_settings tt.

(** A 3 x 3 raster with distinct entries, and a generator object
    holding it as its raster buffer. *)
Definition raster3 : ndarray := [[1; 2; 3]; [4; 5; 6]; [7; 8; 9]].

Definition with_raster3 : gen :=
  @HighResDEMGen.Build elevation craters settings low_res_dem (0, 0) ∅
    1%positive PyDict.empty PyDict.empty raster3 (0, 0) 0%Q 0 tt
    (BaseWorkerManager.init 8 400 2) (BaseWorkerManager.init 1 400 200).

(** A pool of three workers holding 2, 1 and 1 queued jobs, and one
    job waiting in the intake. *)
Definition pool : BaseWorkerManager.t unit :=
  BaseWorkerManager.Build
    [((5, 5), Some tt)] 400
    [BaseWorker.Build [((0, 0), Some tt); ((0, 1), Some tt)] 10;
     BaseWorker.Build [((1, 0), Some tt)] 10;
     BaseWorker.Build [((2, 0), Some tt)] 10].





#[local] Existing Instance elevation.
#[local] Existing Instance craters.

Definition op : Type := HighResDEMGen.op.

(** The generator a computation returns. *)
Definition value (r : result gen) : gen :=
  match r with
  | Ok st => st
  | Raise _ => with_raster3
  end.

Definition after (o : op) (st : gen) : gen :=
  value (HighResDEMGen.run_op o st).

(** The constructed generators, evaluated. *)
Definition st0 : gen := Eval vm_compute in value gen0.
Definition coarse_st0 : gen := Eval vm_compute in value coarse_gen0.

(** The grid of [st0] shifted one block in [+x]. *)
Definition shifted : gen :=
  Eval vm_compute in value (HighResDEMGen.shift_block_grid (10, 0) st0).

(** Initial placement, with the two results for the block anchored
    at [(0, 0)] collected. *)
Definition place : op := HighResDEMGen.OpShift (0%Q, 0%Q) HighResDEMGen.stalled.
Definition collect0 : op :=
  HighResDEMGen.OpCollect [((0, 0), [[1]])] [((0, 0), [[2]])].
Definition placed : gen := Eval vm_compute in after place st0.
Definition primed : gen := Eval vm_compute in after collect0 placed.

(** One block in [+x], a metadata pass, a collect, and back. *)
Definition ops : list op :=
  [HighResDEMGen.OpShift (10%Q, 0%Q) HighResDEMGen.stalled;
   HighResDEMGen.OpCratersMetadata;
   HighResDEMGen.OpCollect [] [((10, 0), [[3]])];
   HighResDEMGen.OpShift (0%Q, 0%Q) HighResDEMGen.stalled].
Definition trace1 : gen :=
  Eval vm_compute in after (HighResDEMGen.OpShift (10%Q, 0%Q) HighResDEMGen.stalled) primed.
Definition trace2 : gen :=
  Eval vm_compute in after HighResDEMGen.OpCratersMetadata trace1.
Definition trace3 : gen :=
  Eval vm_compute in
    after (HighResDEMGen.OpCollect [] [((10, 0), [[3]])]) trace2.
Definition trace4 : gen :=
  Eval vm_compute in after (HighResDEMGen.OpShift (0%Q, 0%Q) HighResDEMGen.stalled) trace3.
Definition trace : list gen := [trace1; trace2; trace3; trace4].

(** Initial placement followed by a shift past the whole window,
    before anything was collected. *)
Definition leave : op := HighResDEMGen.OpShift (1000%Q, 1000%Q) HighResDEMGen.stalled.
Definition far : gen := Eval vm_compute in after leave placed.

Definition all_flags : BlockState :=
  {| has_crater_metadata := true; has_crater_data := true;
     has_terrain_data := true; is_padding := false |}.
(** Timers [b] and [c] one after the other inside timer [a]. *)
Definition nested_timers : ScopedTimer.block :=
  ScopedTimer.With "a" true None 0 5
    [ScopedTimer.With "b" true None 1 2 [];
     ScopedTimer.With "c" true None 3 4 []].

(** Settings [__post_init__] builds for down-scaling by 4 and by 2. *)
Definition area_cfg : InterpolatorCfg.t :=
  InterpolatorCfg.Build 1 4 2 INTER_AREA (1 # 4) (1 # 4) 0.

Definition linear_cfg : InterpolatorCfg.t :=
  InterpolatorCfg.Build 1 2 2 INTER_LINEAR (1 # 2) (1 # 2) 1.

(** A pool whose two workers, of queue bound 1, are both full. *)
Definition full_pool : BaseWorkerManager.t unit :=
  BaseWorkerManager.Build
    [((5, 5), Some tt)] 400
    [BaseWorker.Build [((0, 0), Some tt)] 1;
     BaseWorker.Build [((1, 0), Some tt); ((1, 1), Some tt)] 1].

(** [pool] once the dispatcher has run on it. *)
Definition pool_after : BaseWorkerManager.t unit :=
  Eval vm_compute in
    match dispatch_run 2 pool with
    | Ok e => final_manager e
    | Raise _ => pool
    end.

(** The 10 x 10 result of one tile. *)
Definition tile10 : ndarray := @Np.tabulate elevation 10 10 (λ _ _, 7).
End Small.

(* ================================================================= *)
(** * Properties *)

(** ** The exception monad and loops *)

Lemma bind_Ok {A B} (m : result A) (k : A → result B) (b : B) :
  m ≫= k = Ok b ↔ ∃ a, m = Ok a ∧ k a = Ok b.
Proof.
  destruct m as [a|e]; simpl; split.
  - intros Hk. by exists a.
  - by intros (a' & [= <-] & Hk).
  - discriminate.
  - by intros (a' & ? & _).
Qed.

Lemma Ok_bind {A B} (a : A) (k : A → result B) : Ok a ≫= k = k a.
Proof. done. Qed.

Lemma for_each_app {A S} (xs ys : list A) (body : A → S → result S) (s : S) :
  for_each (xs ++ ys) body s = for_each xs body s ≫= for_each ys body.
Proof.
  revert s. induction xs as [|x xs IH]; intros s; simpl; [done|].
  destruct (body x s) as [s'|e]; simpl; [apply IH | done].
Qed.

Lemma for_each_fmap {A B S} (f : A → B) (xs : list A)
    (body : B → S → result S) (s : S) :
  for_each (f <$> xs) body s = for_each xs (λ a, body (f a)) s.
Proof.
  revert s. induction xs as [|x xs IH]; intros s; simpl; [done|].
  destruct (body (f x) s) as [s'|e]; simpl; [apply IH | done].
Qed.

Lemma for_each_nested {S} (xs ys : list Z) (body : Z → Z → S → result S)
    (s : S) :
  for_each xs (λ x, for_each ys (body x)) s
  = for_each (cells xs ys) (λ c, body c.1 c.2) s.
Proof.
  revert s. induction xs as [|x xs IH]; intros s; [done|].
  unfold cells. simpl. rewrite for_each_app, for_each_fmap. simpl.
  destruct (for_each ys (body x) s) as [s'|e]; simpl; [apply IH | done].
Qed.

(** Loop invariants indexed by the part of the list already visited. *)
Lemma for_each_ind {A S} (J : list A → S → Prop) (body : A → S → result S)
    (xs : list A) (s : S) :
  J [] s →
  (∀ done x rest st, xs = done ++ x :: rest → J done st →
     ∃ st', body x st = Ok st' ∧ J (done ++ [x]) st') →
  ∃ s', for_each xs body s = Ok s' ∧ J xs s'.
Proof.
  intros H0 Hstep.
  cut (∀ todo done st, xs = done ++ todo → J done st →
         ∃ s', for_each todo body st = Ok s' ∧ J xs s').
  { intros Hgen. by apply (Hgen xs [] s). }
  induction todo as [|x todo IH]; intros done st Hxs HJ.
  - rewrite app_nil_r in Hxs. subst. by exists st.
  - destruct (Hstep done x todo st Hxs HJ) as (st' & Hb & HJ').
    simpl. rewrite Hb. simpl. apply (IH (done ++ [x])); [|done].
    by rewrite <- app_assoc.
Qed.

(** Loop invariants that do not depend on the progress made. *)
(** A loop whose turns keep [J] or end in a way [E] allows. *)
Lemma for_each_ind_or {A S} (J : list A → S → Prop) (E : exn → Prop)
    (body : A → S → result S) (xs : list A) (s : S) :
  J [] s →
  (∀ done x rest st, xs = done ++ x :: rest → J done st →
     (∃ st', body x st = Ok st' ∧ J (done ++ [x]) st') ∨
     (∃ e, body x st = Raise e ∧ E e)) →
  (∃ s', for_each xs body s = Ok s' ∧ J xs s') ∨
  (∃ e, for_each xs body s = Raise e ∧ E e).
Proof.
  intros H0 Hstep.
  cut (∀ todo done st, xs = done ++ todo → J done st →
         (∃ s', for_each todo body st = Ok s' ∧ J xs s') ∨
         (∃ e, for_each todo body st = Raise e ∧ E e)).
  { intros Hgen. by apply (Hgen xs [] s). }
  induction todo as [|x todo IH]; intros done st Hxs HJ.
  - rewrite app_nil_r in Hxs. subst. left. by exists st.
  - destruct (Hstep done x todo st Hxs HJ) as [(st' & Hb & HJ')|(e & Hb & He)].
    + simpl. rewrite Hb. simpl. apply (IH (done ++ [x])); [|done].
      by rewrite <- app_assoc.
    + right. exists e. simpl. by rewrite Hb.
Qed.

Lemma for_each_inv {A S} (P : S → Prop) (body : A → S → result S)
    (xs : list A) (s s' : S) :
  P s →
  (∀ x st st', x ∈ xs → P st → body x st = Ok st' → P st') →
  for_each xs body s = Ok s' → P s'.
Proof.
  revert s. induction xs as [|x xs IH]; intros s HP Hstep; simpl.
  - by intros [= <-].
  - intros (st & Hb & Hrest)%bind_Ok.
    eapply (IH st); [|intros; eapply Hstep; [by right|..]|]; eauto.
    eapply Hstep; eauto. by left.
Qed.

(** ** The dispatcher (C9) *)

Section dispatcher.
Context {P : Type}.
Implicit Types (m : BaseWorkerManager.t P).

Lemma fold_min_first_argmin (key : nat → Z) (k a best : nat) :
  first_argmin key a best →
  first_argmin key (a + k)
    (fold_left (λ best y, if key y <? key best then y else best)
       (seq a k) best).
Proof.
  revert a best. induction k as [|k IH]; intros a best Hb; simpl.
  - by rewrite Nat.add_0_r.
  - replace (a + S k)%nat with (S a + k)%nat by lia. apply IH.
    destruct Hb as (Hlt & Hmin & Hfirst).
    destruct (Z.ltb_spec (key a) (key best)) as [Hless|Hge].
    + split; [lia|]. split.
      * intros j Hj. destruct (decide (j = a)) as [->|]; [lia|].
        specialize (Hmin j). lia.
      * intros j Hj. specialize (Hmin j). lia.
    + split; [lia|]. split; [|done].
      intros j Hj. destruct (decide (j = a)) as [->|]; [lia|].
      apply Hmin. lia.
Qed.

Lemma get_shortest_queue_index_spec m i :
  BaseWorkerManager.get_shortest_queue_index m = Ok i →
  first_argmin (BaseWorkerManager.load m)
    (length (BaseWorkerManager.workers m)) i.
Proof.
  unfold BaseWorkerManager.get_shortest_queue_index, py_min_by.
  destruct (length (BaseWorkerManager.workers m)) as [|k]; simpl; [done|].
  intros [= <-].
  apply (fold_min_first_argmin _ k 1 0%nat).
  split; [lia|]. split; intros j Hj; [|lia].
  by replace j with 0%nat by lia.
Qed.

Lemma get_shortest_queue_index_total m :
  BaseWorkerManager.workers m ≠ [] →
  ∃ i, BaseWorkerManager.get_shortest_queue_index m = Ok i.
Proof.
  unfold BaseWorkerManager.get_shortest_queue_index, py_min_by.
  destruct (BaseWorkerManager.workers m); [done|]. simpl. eauto.
Qed.
End dispatcher.

(** C9.  Whenever a turn of the dispatcher loop routes a job to worker
    [i], the job is the head of the intake queue, it is appended to worker
    [i]'s input queue, worker [i]'s queue length is minimal among all
    workers at that moment, and every worker with a smaller index has a
    strictly longer queue.  The interpolation manager's loop is the same
    function. *)
Theorem C9_dispatch_routes_to_first_shortest {P : Type}
    (m m' : BaseWorkerManager.t P) (i : nat) :
  CraterBuilderManager.dispatch_jobs m = Ok (Routed i m') →
  (i < length (BaseWorkerManager.workers m))%nat ∧
  (∀ j, (j < length (BaseWorkerManager.workers m))%nat →
        BaseWorkerManager.load m i ≤ BaseWorkerManager.load m j) ∧
  (∀ j, (j < i)%nat →
        BaseWorkerManager.load m i < BaseWorkerManager.load m j) ∧
  (∃ jb rest w,
      BaseWorkerManager.input_queue m = jb :: rest ∧
      BaseWorkerManager.workers m !! i = Some w ∧
      BaseWorkerManager.input_queue m' = rest ∧
      BaseWorkerManager.workers m' !! i = Some (BaseWorker.put jb w) ∧
      ∀ j, j ≠ i →
        BaseWorkerManager.workers m' !! j = BaseWorkerManager.workers m !! j) ∧
  BicubicInterpolatorManager.dispatch_jobs m = Ok (Routed i m').
Proof.
  intros Hd. assert (Hd' := Hd).
  unfold CraterBuilderManager.dispatch_jobs in Hd.
  destruct (BaseWorkerManager.input_queue m) as [|[coords [data|]] rest] eqn:Hq;
    [done| |done].
  apply bind_Ok in Hd as (i' & Hidx & Hd).
  destruct (BaseWorkerManager.workers m !! i') as [w|] eqn:Hw; [|done].
  destruct (BaseWorker.is_input_queue_full w); [done|].
  injection Hd as <- <-.
  destruct (get_shortest_queue_index_spec _ _ Hidx) as (Hlt & Hmin & Hfirst).
  repeat split; try done.
  exists (coords, Some data), rest, w. simpl.
  repeat split; try done.
  - by rewrite list_lookup_insert_eq.
  - intros j Hj. by rewrite list_lookup_insert_ne.
Qed.

Lemma C9_dispatch_witness :
  ∃ m', CraterBuilderManager.dispatch_jobs Small.pool = Ok (Routed 1 m') ∧
        (∀ j, (j < 3)%nat →
           BaseWorkerManager.load Small.pool 1 ≤ BaseWorkerManager.load Small.pool j) ∧
        (∀ j, (j < 1)%nat →
           BaseWorkerManager.load Small.pool 1 < BaseWorkerManager.load Small.pool j).
Proof.
  eexists. split; [reflexivity|].
  destruct (C9_dispatch_routes_to_first_shortest Small.pool _ 1 eq_refl)
    as (_ & Hmin & Hfirst & _).
  split; [exact Hmin | exact Hfirst].
Defined.

(** ** Truncation and floor of rationals *)

Lemma py_int_inject_Z (z : Z) : py_int (inject_Z z) = z.
Proof. unfold py_int, inject_Z. simpl. apply Z.quot_1_r. Qed.

Lemma py_int_mono (a b : Q) : (a <= b)%Q → py_int a ≤ py_int b.
Proof.
  destruct a as [na da], b as [nb db]. unfold Qle, py_int. simpl. intros Hle.
  rewrite <- (Z.quot_mul_cancel_r na (Z.pos da) (Z.pos db)) by lia.
  rewrite <- (Z.quot_mul_cancel_r nb (Z.pos db) (Z.pos da)) by lia.
  rewrite (Z.mul_comm (Z.pos db) (Z.pos da)).
  apply Z.quot_le_mono; lia.
Qed.

Lemma py_int_comp (a b : Q) : (a == b)%Q → py_int a = py_int b.
Proof.
  intros Hab. apply Z.le_antisymm; apply py_int_mono; rewrite Hab; apply Qle_refl.
Qed.

(** Truncation is the floor of what is not negative and the ceiling of
    what is not positive. *)
Lemma py_int_nonneg (q : Q) : (0 <= q)%Q → py_int q = Qfloor q.
Proof.
  destruct q as [n d]. unfold Qle, py_int, Qfloor. simpl. intros Hn.
  apply Z.quot_div_nonneg; lia.
Qed.

Lemma py_int_nonpos (q : Q) : (q <= 0)%Q → py_int q = Qceiling q.
Proof.
  destruct q as [n d]. unfold Qle, py_int, Qceiling, Qfloor, Qopp. simpl.
  intros Hn. rewrite <- (Z.opp_involutive n) at 1.
  rewrite Z.quot_opp_l by lia. rewrite Z.quot_div_nonneg by lia. done.
Qed.

Lemma py_int_double_pos (q : Q) :
  (1 # 2 <= q)%Q → 0 < py_int (inject_Z 2 * q).
Proof.
  destruct q as [n d]. unfold Qle, py_int, Qmult, inject_Z. simpl.
  rewrite !Pos.mul_1_l. intros Hq.
  rewrite Z.quot_div_nonneg by lia.
  apply Z.lt_le_trans with 1; [lia|]. apply Z.div_le_lower_bound; lia.
Qed.

(** Truncating [sp * q] for [sp < 2] gives strictly less than truncating
    [2 * q], as soon as [q >= 1/2]. *)
Lemma py_int_scale_lt (q : Q) (sp : Z) :
  sp < 2 → (1 # 2 <= q)%Q →
  py_int (inject_Z sp * q) < py_int (inject_Z 2 * q).
Proof.
  destruct q as [n d]. unfold Qle, py_int, Qmult, inject_Z. simpl.
  rewrite !Pos.mul_1_l. intros Hsp Hq.
  assert (1 ≤ Z.quot (2 * n) (Z.pos d)) as H2.
  { rewrite Z.quot_div_nonneg by lia. apply Z.div_le_lower_bound; lia. }
  destruct (decide (sp ≤ 0)) as [Hneg|Hpos].
  - assert (Z.quot (sp * n) (Z.pos d) ≤ Z.quot 0 (Z.pos d)) as H0.
    { apply Z.quot_le_mono; [lia|nia]. }
    rewrite Z.quot_0_l in H0 by lia. lia.
  - assert (sp = 1) as -> by lia. rewrite Z.mul_1_l.
    rewrite !Z.quot_div_nonneg by lia.
    assert (0 ≤ n `div` Z.pos d) as Hk by (apply Z.div_pos; lia).
    assert (Z.pos d * (n `div` Z.pos d) ≤ n) as Hmul
      by (apply Z.mul_div_le; lia).
    apply Z.lt_le_trans with (n `div` Z.pos d + 1); [lia|].
    apply Z.div_le_lower_bound; [lia|].
    destruct (decide (n `div` Z.pos d = 0)) as [Hz|Hnz]; [rewrite Hz; lia|nia].
Qed.

(** ** Division *)

Lemma true_div_Ok (a b : Q) : ¬ (b == 0)%Q → true_div a b = Ok (a / b)%Q.
Proof.
  intros Hb. unfold true_div.
  destruct (Qeq_bool b 0) eqn:E; [|done].
  by apply Qeq_bool_iff in E.
Qed.

Lemma true_div_inv (a b q : Q) :
  true_div a b = Ok q → ¬ (b == 0)%Q ∧ q = (a / b)%Q.
Proof.
  unfold true_div. destruct (Qeq_bool b 0) eqn:E; [done|].
  intros [= <-]. split; [|done].
  intros Hb%Qeq_bool_iff. congruence.
Qed.

(** ** Arrays *)

Section ndarray_facts.
Context `{Elevation}.
Implicit Types (a : Np.ndarray) (f : Z → Z → elt).

Lemma lookup_tabulate r c f i :
  0 ≤ i < r →
  Np.tabulate r c f !! Z.to_nat i = Some ((λ j, f i j) <$> seqZ 0 c).
Proof.
  intros Hi. unfold Np.tabulate.
  rewrite list_lookup_fmap, lookup_seqZ_lt by lia. simpl.
  by replace (0 + Z.of_nat (Z.to_nat i)) with i by lia.
Qed.

Lemma get_tabulate r c f i j :
  0 ≤ i < r → 0 ≤ j < c → Np.get (Np.tabulate r c f) i j = f i j.
Proof.
  intros Hi Hj. unfold Np.get. rewrite lookup_tabulate by done.
  rewrite list_lookup_fmap, lookup_seqZ_lt by lia. simpl.
  by replace (0 + Z.of_nat (Z.to_nat j)) with j by lia.
Qed.

Lemma rect_tabulate r c f : 0 ≤ r → 0 ≤ c → Np.rect r c (Np.tabulate r c f).
Proof.
  intros Hr Hc. split.
  - unfold Np.shape0, Np.tabulate. rewrite length_fmap, length_seqZ. lia.
  - unfold Np.tabulate. apply Forall_fmap, Forall_forall. intros i _. simpl.
    rewrite length_fmap, length_seqZ. lia.
Qed.

Lemma rect_nonneg r c a : Np.rect r c a → 0 ≤ r.
Proof. intros [<- _]. unfold Np.shape0. lia. Qed.

Lemma shape0_nonneg a : 0 ≤ Np.shape0 a.
Proof. unfold Np.shape0. lia. Qed.

Lemma shape1_nonneg a : 0 ≤ Np.shape1 a.
Proof. destruct a; unfold Np.shape1; lia. Qed.

Lemma rect_shape1 r c a : Np.rect r c a → 0 < r → Np.shape1 a = c.
Proof.
  intros [Hr Hc] Hpos.
  destruct a as [|row a]; [unfold Np.shape0 in Hr; simpl in Hr; lia|].
  simpl. by inversion Hc.
Qed.

Lemma rect_square_shape1 S a : Np.rect S S a → Np.shape1 a = S.
Proof.
  intros [H0 Hrows]. destruct a as [|row a]; [done|].
  by inversion Hrows.
Qed.

Lemma tabulate_get r c a : Np.rect r c a → Np.tabulate r c (Np.get a) = a.
Proof.
  intros [Hr Hrows]. unfold Np.shape0 in Hr.
  apply list_eq. intros i.
  destruct (decide (i < length a)%nat) as [Hi|Hi].
  - replace i with (Z.to_nat (Z.of_nat i)) at 1 by lia.
    rewrite lookup_tabulate by lia.
    destruct (lookup_lt_is_Some_2 a i Hi) as [row Hrow]. rewrite Hrow.
    f_equal. apply list_eq. intros j.
    assert (Z.of_nat (length row) = c) as Hlen.
    { eapply Forall_forall in Hrows; [exact Hrows|].
      eapply list_elem_of_lookup_2, Hrow. }
    rewrite list_lookup_fmap.
    destruct (decide (j < length row)%nat) as [Hj|Hj].
    + rewrite lookup_seqZ_lt by lia. simpl.
      unfold Np.get. rewrite Nat2Z.id, Hrow.
      replace (Z.to_nat (0 + Z.of_nat j)) with j by lia.
      destruct (lookup_lt_is_Some_2 row j Hj) as [x Hx]. by rewrite Hx.
    + rewrite lookup_seqZ_ge by lia. simpl.
      symmetry. apply lookup_ge_None. lia.
  - rewrite (proj2 (lookup_ge_None a i)) by lia.
    apply lookup_ge_None. unfold Np.tabulate.
    rewrite length_fmap, length_seqZ. lia.
Qed.

(** Two arrays of one shape with the same elements are equal. *)
Lemma ndarray_ext r c a b :
  Np.rect r c a → Np.rect r c b →
  (∀ i j, 0 ≤ i < r → 0 ≤ j < c → Np.get a i j = Np.get b i j) → a = b.
Proof.
  intros Ha Hb Hget.
  rewrite <- (tabulate_get r c a Ha), <- (tabulate_get r c b Hb).
  unfold Np.tabulate. apply list_fmap_ext. intros k i Hk.
  apply lookup_seqZ in Hk as [-> Hk].
  apply list_fmap_ext. intros k' j Hk'.
  apply lookup_seqZ in Hk' as [-> Hk']. apply Hget; lia.
Qed.

(** The slice [p:-p] of both axes removes [p] pixels from each edge. *)
Lemma crop_trim_edges a p :
  0 < p → 2 * p ≤ Np.shape0 a → 2 * p ≤ Np.shape1 a →
  Np.crop a (Np.slice (Np.shape0 a) (Some p) (Some (- p)))
    (Np.slice (Np.shape1 a) (Some p) (Some (- p)))
  = trim_edges p a.
Proof.
  intros Hp H0 H1.
  assert (∀ n, 2 * p ≤ n →
            Np.slice n (Some p) (Some (- p)) = Np.Span p (n - p)) as Hs.
  { intros n Hn. unfold Np.slice, Np.slice_bound.
    rewrite (proj2 (Z.ltb_ge p 0)), (proj2 (Z.ltb_lt (- p) 0)) by lia.
    f_equal; lia. }
  rewrite !Hs by done. unfold Np.crop, trim_edges, Np.span_len. simpl.
  replace (Z.max 0 (Np.shape0 a - p - p)) with (Np.shape0 a - 2 * p) by lia.
  replace (Z.max 0 (Np.shape1 a - p - p)) with (Np.shape1 a - 2 * p) by lia.
  unfold Np.tabulate. apply list_fmap_ext. intros k i _.
  apply list_fmap_ext. intros k' j _. f_equal; lia.
Qed.

Lemma in_span_true s i : Np.in_span s i = true ↔ Np.lo s ≤ i < Np.hi s.
Proof. unfold Np.in_span. rewrite andb_true_iff, Z.leb_le, Z.ltb_lt. done. Qed.

Lemma in_span_false s i :
  Np.in_span s i = false ↔ ¬ (Np.lo s ≤ i < Np.hi s).
Proof. rewrite <- in_span_true. by destruct (Np.in_span s i). Qed.

Lemma fill_square S a rs cs x :
  Np.rect S S a →
  Np.rect S S (Np.fill a rs cs x) ∧
  ∀ i j, 0 ≤ i < S → 0 ≤ j < S →
    Np.get (Np.fill a rs cs x) i j
    = if Np.in_span rs i && Np.in_span cs j then x else Np.get a i j.
Proof.
  intros Ha. pose proof (rect_nonneg _ _ _ Ha) as HS.
  unfold Np.fill. rewrite (rect_square_shape1 S a Ha), (proj1 Ha).
  split; [by apply rect_tabulate|].
  intros i j Hi Hj. by rewrite get_tabulate.
Qed.

Lemma setitem_square S a rs cs v :
  Np.rect S S a →
  Np.rows v = Np.span_len rs → Np.cols v = Np.span_len cs →
  ∃ a', Np.setitem a rs cs v = Ok a' ∧ Np.rect S S a' ∧
    ∀ i j, 0 ≤ i < S → 0 ≤ j < S →
      Np.get a' i j
      = if Np.in_span rs i && Np.in_span cs j
        then Np.at_ v (Np.bidx (Np.rows v) (i - Np.lo rs))
               (Np.bidx (Np.cols v) (j - Np.lo cs))
        else Np.get a i j.
Proof.
  intros Ha Hr Hc. pose proof (rect_nonneg _ _ _ Ha) as HS.
  unfold Np.setitem, Np.broadcasts. rewrite Hr, Hc, !Z.eqb_refl. simpl.
  rewrite (rect_square_shape1 S a Ha), (proj1 Ha).
  eexists. split; [reflexivity|]. split; [by apply rect_tabulate|].
  intros i j Hi Hj. by rewrite get_tabulate.
Qed.
End ndarray_facts.

(** ** [InterpolatorCfg] and the trim of [interpolate] (C10) *)

Section interp_trim.
Context `{Cv2}.

Lemma interpolate_trim_edges (settings : InterpolatorCfg.t)
    (data r : Np.ndarray) (p : Z) :
  cv2_resize data (InterpolatorCfg.fx settings) (InterpolatorCfg.fy settings)
    (InterpolatorCfg.method settings) = Ok r →
  CPUInterpolator.trim_lo settings = p →
  CPUInterpolator.trim_hi settings = - p →
  0 < p → 2 * p ≤ Np.shape0 r → 2 * p ≤ Np.shape1 r →
  CPUInterpolator.interpolate settings data = Ok (trim_edges p r).
Proof.
  intros Hr Hlo Hhi Hp Hrows Hcols. unfold CPUInterpolator.interpolate.
  rewrite Hr, Hlo, Hhi. simpl. f_equal. by apply crop_trim_edges.
Qed.

(** C10 (amended).  For every [InterpolatorCfg] built with a recognized
    method, a non-zero target resolution, [source_padding < 2] and a
    scale factor [fx >= 1/2]: construction succeeds, the stored
    [source_padding] is 2, the stored [target_padding] is [int(p * fx)]
    for the padding [p] that was passed in, whereas
    [CPUInterpolator.interpolate] removes [int(2 * fx)] pixels, at least
    one and strictly more than [target_padding], from each edge of the
    resized array. *)
Theorem C10_target_padding_uses_uncoerced_padding
    (sr tr : Q) (sp : Z) (m : string) :
  InterpolatorCfg.recognized m → sp < 2 → ¬ (tr == 0)%Q →
  (1 # 2 <= sr / tr)%Q →
  ∃ cfg w,
    InterpolatorCfg.post_init sr tr sp m = Ok (cfg, w) ∧
    InterpolatorCfg.source_padding cfg = 2 ∧
    InterpolatorCfg.fx cfg = (sr / tr)%Q ∧
    InterpolatorCfg.target_padding cfg
      = py_int (inject_Z sp * InterpolatorCfg.fx cfg) ∧
    let p := py_int (inject_Z 2 * InterpolatorCfg.fx cfg) in
    InterpolatorCfg.target_padding cfg < p ∧ 0 < p ∧
    ∀ data r,
      cv2_resize data (InterpolatorCfg.fx cfg) (InterpolatorCfg.fy cfg)
        (InterpolatorCfg.method cfg) = Ok r →
      2 * p ≤ Np.shape0 r → 2 * p ≤ Np.shape1 r →
      CPUInterpolator.interpolate cfg data = Ok (trim_edges p r).
Proof.
  intros Hm Hsp Htr Hfx.
  pose proof (py_int_scale_lt (sr / tr) sp Hsp Hfx) as Hlt.
  pose proof (py_int_double_pos (sr / tr) Hfx) as Hpos.
  unfold InterpolatorCfg.post_init. rewrite (true_div_Ok _ _ Htr). simpl.
  destruct (Z.ltb_spec sp 2) as [_|]; [|lia].
  unfold InterpolatorCfg.recognized in Hm. simpl in Hm.
  destruct Hm as [-> | [-> | [-> | ->]]]; simpl;
    (eexists _, _; split; [reflexivity|]; simpl;
     do 4 (split; [done|]); split; [done|];
     intros data r Hr Hrows Hcols;
     by apply (interpolate_trim_edges _ data r)).
Qed.
End interp_trim.

Lemma C10_witness :
  ∃ cfg w out,
    InterpolatorCfg.post_init 1 (1 # 2) 1 "Nearest" = Ok (cfg, w) ∧
    InterpolatorCfg.source_padding cfg = 2 ∧
    InterpolatorCfg.target_padding cfg = 2 ∧
    @CPUInterpolator.interpolate _ Small.cv2 cfg Small.low_res_dem = Ok out ∧
    @Np.shape0 Small.elevation out = 72.
Proof.
  destruct (@C10_target_padding_uses_uncoerced_padding _ Small.cv2
              1 (1 # 2) 1 "Nearest")
    as (cfg & w & Hc & Hsp & Hfx & Htp & Hlt & Hpos & Htrim).
  - right. left. reflexivity.
  - lia.
  - unfold Qeq. simpl. lia.
  - unfold Qle. simpl. lia.
  - exists cfg, w. eexists. split; [exact Hc|]. split; [exact Hsp|].
    split; [by rewrite Htp, Hfx|].
    vm_compute in Hc. injection Hc as <- _.
    split.
    + apply Htrim; [vm_compute; reflexivity|vm_compute; discriminate..].
    + vm_compute. reflexivity.
Defined.

(** C10 as stated fails when the scale factor is small: with
    [source_resolution = 1], [target_resolution = 4] ([fx = 1/4]) and
    [source_padding = 1], [int(2 * fx)] is 0, yet [interpolate] does not
    return the resized array with nothing removed: it returns an empty
    array. *)
Lemma C10_counterexample :
  ∃ cfg w r,
    InterpolatorCfg.post_init 1 4 1 "nearest" = Ok (cfg, w) ∧
    InterpolatorCfg.source_padding cfg = 2 ∧
    py_int (inject_Z (InterpolatorCfg.source_padding cfg)
            * InterpolatorCfg.fx cfg) = 0 ∧
    @cv2_resize _ Small.cv2 Small.coarse_dem (InterpolatorCfg.fx cfg)
      (InterpolatorCfg.fy cfg) (InterpolatorCfg.method cfg) = Ok r ∧
    @trim_edges Small.elevation 0 r = r ∧ r ≠ [] ∧
    @CPUInterpolator.interpolate _ Small.cv2 cfg Small.coarse_dem
    ≠ Ok (@trim_edges Small.elevation 0 r).
Proof.
  eexists _, _, _. split; [reflexivity|]. split; [reflexivity|].
  split; [reflexivity|]. split; [vm_compute; reflexivity|].
  split; [reflexivity|]. split; [done|]. vm_compute. discriminate.
Qed.

(** ** The raster translation (C3, C4) *)

Ltac split_Z_tests :=
  repeat match goal with
    | |- context [?a <=? ?b] => destruct (Z.leb_spec a b)
    | |- context [?a <? ?b] => destruct (Z.ltb_spec a b)
    | |- context [?a =? ?b] => destruct (Z.eqb_spec a b)
    end.

(** Decide the sign tests of [Np.slice_bound] from the context. *)
Ltac norm_slice_bounds :=
  unfold Np.slice, Np.slice_bound;
  repeat match goal with
    | |- context [?a <? 0] =>
        first [ rewrite (proj2 (Z.ltb_lt a 0)) by lia
              | rewrite (proj2 (Z.ltb_ge a 0)) by lia ]
    end.

Section axis.
Context `{Elevation}.

Lemma full_span n i : 0 ≤ i < n → Np.in_span (Np.slice n None None) i = true.
Proof. intros Hi. apply in_span_true. simpl. lia. Qed.

(** Source and target ranges of an axis shifted by [D > 0]. *)
Lemma axis_pos_len n D :
  0 < D ≤ n →
  Np.span_len (Np.slice n (Some 0) (Some (- D)))
  = Np.span_len (Np.slice n (Some D) (Some n)).
Proof.
  intros HD. unfold Np.span_len. norm_slice_bounds. simpl. lia.
Qed.

Lemma axis_pos_at n D i :
  0 < D ≤ n → 0 ≤ i < n →
  Np.in_span (Np.slice n (Some D) (Some n)) i = shifted_in n D i ∧
  Np.in_span (Np.slice n None (Some D)) i = negb (shifted_in n D i) ∧
  (shifted_in n D i = true →
   Np.lo (Np.slice n (Some 0) (Some (- D)))
   + Np.bidx (Np.span_len (Np.slice n (Some 0) (Some (- D))))
       (i - Np.lo (Np.slice n (Some D) (Some n))) = i - D).
Proof.
  intros HD Hi.
  unfold Np.in_span, shifted_in, Np.bidx, Np.span_len.
  norm_slice_bounds. simpl.
  split_Z_tests; simpl; repeat split; try done; try lia;
    first [intros _; lia | exfalso; lia].
Qed.

(** An axis that is not shifted. *)
Lemma axis_zero_at n i :
  0 ≤ i < n →
  Np.in_span (Np.slice n (Some 0) (Some n)) i = shifted_in n 0 i ∧
  shifted_in n 0 i = true ∧
  (shifted_in n 0 i = true →
   Np.lo (Np.slice n (Some 0) (Some n))
   + Np.bidx (Np.span_len (Np.slice n (Some 0) (Some n)))
       (i - Np.lo (Np.slice n (Some 0) (Some n))) = i - 0).
Proof.
  intros Hi.
  unfold Np.in_span, shifted_in, Np.bidx, Np.span_len.
  norm_slice_bounds. simpl.
  split_Z_tests; simpl; repeat split; try done; try lia;
    first [intros _; lia | exfalso; lia].
Qed.

(** Source and target ranges of an axis shifted by [D < 0]; [D] may
    be below [- n], in which case both are empty. *)
Lemma axis_neg_len n D :
  0 ≤ n → D < 0 →
  Np.span_len (Np.slice n (Some (- D)) (Some n))
  = Np.span_len (Np.slice n (Some 0) (Some D)).
Proof.
  intros Hn HD. unfold Np.span_len. norm_slice_bounds. simpl. lia.
Qed.

Lemma axis_neg_at n D i :
  D < 0 → 0 ≤ i < n →
  Np.in_span (Np.slice n (Some 0) (Some D)) i = shifted_in n D i ∧
  Np.in_span (Np.slice n (Some D) None) i = negb (shifted_in n D i) ∧
  (shifted_in n D i = true →
   Np.lo (Np.slice n (Some (- D)) (Some n))
   + Np.bidx (Np.span_len (Np.slice n (Some (- D)) (Some n)))
       (i - Np.lo (Np.slice n (Some 0) (Some D))) = i - D).
Proof.
  intros HD Hi.
  unfold Np.in_span, shifted_in, Np.bidx, Np.span_len.
  norm_slice_bounds. simpl.
  split_Z_tests; simpl; repeat split; try done; try lia;
    first [intros _; lia | exfalso; lia].
Qed.

Lemma translate_src_shifted n D i :
  - n < D < n → 0 ≤ i < n →
  translate_src n D i = if shifted_in n D i then Some (i - D) else None.
Proof.
  intros HD Hi. unfold translate_src, shifted_in.
  split_Z_tests; simpl; try done; try lia. f_equal. lia.
Qed.
End axis.

Section raster.
Context `{CraterGen}.
Import HighResDEMGen.

(** What [shift_dem] does to a square buffer, for every shift. *)
Lemma shift_dem_spec n (st : t) Dx Dy :
  Np.rect n n (high_res_dem st) →
  ∃ dem', shift_dem (Dx, Dy) st = Ok (with_dem st dem') ∧
    Np.rect n n dem' ∧
    ∀ i j, 0 ≤ i < n → 0 ≤ j < n →
      Np.get dem' i j
      = if shifted_in n Dx i && shifted_in n Dy j
        then Np.get (high_res_dem st) (i - Dx) (j - Dy) else ezero.
Proof.
  intros Ha. pose proof (rect_nonneg _ _ _ Ha) as Hn.
  unfold shift_dem.
  rewrite (rect_square_shape1 n _ Ha), (proj1 Ha).
  destruct (Z.gtb_spec Dx n) as [HxS|HxS]; simpl.
  { destruct (fill_square n _ (Np.slice n None None) (Np.slice n None None)
                ezero Ha) as [Hr Hg].
    eexists. split; [reflexivity|]. split; [done|].
    intros i j Hi Hj. rewrite Hg, !full_span by done. unfold shifted_in.
    destruct (Z.leb_spec 0 (i - Dx)); [lia|]. done. }
  destruct (Z.gtb_spec Dy n) as [HyS|HyS]; simpl.
  { destruct (fill_square n _ (Np.slice n None None) (Np.slice n None None)
                ezero Ha) as [Hr Hg].
    eexists. split; [reflexivity|]. split; [done|].
    intros i j Hi Hj. rewrite Hg, !full_span by done. unfold shifted_in.
    destruct (Z.leb_spec 0 (j - Dy)); [lia|]. simpl.
    by rewrite andb_false_r. }
  destruct (Z.gtb_spec Dx 0) as [Hx|Hx];
    [|destruct (Z.eqb_spec Dx 0) as [Hx0|Hx0]];
  (destruct (Z.gtb_spec Dy 0) as [Hy|Hy];
    [|destruct (Z.eqb_spec Dy 0) as [Hy0|Hy0]]).
  (* the copy: source and target have the same shape *)
  all: match goal with
       | |- context [Np.setitem ?a ?rs ?cs ?v] =>
           destruct (setitem_square n a rs cs v Ha) as (a1 & -> & Hr1 & Hg1);
           [cbn [Np.rows Np.cols Np.getitem];
            first [ done | apply axis_pos_len; lia | apply axis_neg_len; lia ] ..
           |]
       end.
  all: repeat match goal with
       | |- context [?a <? 0] =>
           first [ rewrite (proj2 (Z.ltb_lt a 0)) by lia
                 | rewrite (proj2 (Z.ltb_ge a 0)) by lia ]
       end.
  all: cbn [mbind result_bind]; eexists; (split; [reflexivity|]).
  (* the zeroed strips *)
  all: repeat match goal with
       | Hr : Np.rect ?s ?s ?a |- context [Np.fill ?a ?rs ?cs ?x] =>
           let Hr' := fresh "Hr" in
           let Hg' := fresh "Hg" in
           destruct (fill_square s a rs cs x Hr) as [Hr' Hg'];
           let a' := fresh "a" in
           set (a' := Np.fill a rs cs x) in *; clearbody a'
       end.
  all: (split; [done|]); intros i j Hi Hj.
  all: repeat match goal with
       | Hg : ∀ i j, _ → _ → Np.get ?a i j = _ |- context [Np.get ?a _ _] =>
           rewrite Hg by done
       end.
  all: cbn [Np.at_ Np.getitem Np.rows Np.cols]; rewrite ?full_span by done.
  all: first [ destruct (axis_pos_at n Dx i ltac:(lia) Hi) as (Ex1 & Ex2 & Ex3)
             | destruct (axis_neg_at n Dx i ltac:(lia) Hi) as (Ex1 & Ex2 & Ex3)
             | subst Dx; destruct (axis_zero_at n i Hi) as (Ex1 & Ex2 & Ex3) ].
  all: first [ destruct (axis_pos_at n Dy j ltac:(lia) Hj) as (Ey1 & Ey2 & Ey3)
             | destruct (axis_neg_at n Dy j ltac:(lia) Hj) as (Ey1 & Ey2 & Ey3)
             | subst Dy; destruct (axis_zero_at n j Hj) as (Ey1 & Ey2 & Ey3) ].
  all: rewrite ?Ex1, ?Ex2, ?Ey1, ?Ey2.
  all: try (rewrite Ex2 in Ex3); try (rewrite Ey2 in Ey3).
  all: destruct (shifted_in n _ i) eqn:Bx in *;
       destruct (shifted_in n _ j) eqn:By in *; simpl; try done.
  all: f_equal; auto.
Qed.

(** C3.  If [|Dx| >= S] or [|Dy| >= S] for the side length [S] of the
    raster buffer, [shift_dem] returns normally, keeps the shape, leaves
    every other attribute alone and leaves every element zero. *)
Theorem C3_shift_dem_beyond_extent_zeroes (S : Z) (st : t) (Dx Dy : Z) :
  Np.rect S S (high_res_dem st) →
  S ≤ Z.abs Dx ∨ S ≤ Z.abs Dy →
  ∃ st', shift_dem (Dx, Dy) st = Ok st' ∧
    st' = with_dem st (high_res_dem st') ∧
    Np.rect S S (high_res_dem st') ∧
    ∀ i j, 0 ≤ i < S → 0 ≤ j < S → Np.get (high_res_dem st') i j = ezero.
Proof.
  intros Ha Hbig.
  destruct (shift_dem_spec S st Dx Dy Ha) as (dem' & Hs & Hr & Hg).
  exists (with_dem st dem'). do 3 (split; [done|]).
  intros i j Hi Hj. simpl. rewrite Hg by done. unfold shifted_in.
  destruct Hbig; split_Z_tests; simpl; try done; lia.
Qed.

(** C4.  For [|Dx| < S] and [|Dy| < S], [shift_dem] returns normally
    and moves the contents along each axis as [translate_src] says:
    an element whose two indices have a source is the old element
    there, every other element is zero.  A shift by [(0, 0)] leaves the
    buffer as it was. *)
Theorem C4_shift_dem_translates (S : Z) (st : t) (Dx Dy : Z) :
  Np.rect S S (high_res_dem st) →
  Z.abs Dx < S → Z.abs Dy < S →
  ∃ st', shift_dem (Dx, Dy) st = Ok st' ∧
    st' = with_dem st (high_res_dem st') ∧
    Np.rect S S (high_res_dem st') ∧
    (∀ i j, 0 ≤ i < S → 0 ≤ j < S →
       Np.get (high_res_dem st') i j
       = match translate_src S Dx i, translate_src S Dy j with
         | Some i', Some j' => Np.get (high_res_dem st) i' j'
         | _, _ => ezero
         end) ∧
    (Dx = 0 → Dy = 0 → high_res_dem st' = high_res_dem st).
Proof.
  intros Ha Hx Hy.
  destruct (shift_dem_spec S st Dx Dy Ha) as (dem' & Hs & Hr & Hg).
  exists (with_dem st dem'). do 3 (split; [done|]). split.
  - intros i j Hi Hj. simpl. rewrite Hg by done.
    rewrite !translate_src_shifted by lia.
    by destruct (shifted_in S Dx i), (shifted_in S Dy j).
  - intros -> ->. simpl. apply (ndarray_ext S S); [done..|].
    intros i j Hi Hj. rewrite Hg by done. unfold shifted_in.
    rewrite !Z.sub_0_r. split_Z_tests; simpl; try done; lia.
Qed.
End raster.

Lemma raster3_rect : Np.rect 3 3 Small.raster3.
Proof. split; [reflexivity|]. by repeat constructor. Qed.

Lemma C3_witness :
  ∃ st', HighResDEMGen.shift_dem (-3, 0) Small.with_raster3 = Ok st' ∧
    HighResDEMGen.high_res_dem st' = [[0; 0; 0]; [0; 0; 0]; [0; 0; 0]].
Proof.
  destruct (C3_shift_dem_beyond_extent_zeroes 3 Small.with_raster3 (-3) 0)
    as (st' & Hs & _ & _ & _).
  - exact raster3_rect.
  - left. simpl. lia.
  - exists st'. split; [exact Hs|].
    vm_compute in Hs. injection Hs as <-. reflexivity.
Defined.

Lemma C4_witness :
  ∃ st', HighResDEMGen.shift_dem (1, -1) Small.with_raster3 = Ok st' ∧
    HighResDEMGen.high_res_dem st' = [[0; 0; 0]; [2; 3; 0]; [5; 6; 0]].
Proof.
  destruct (C4_shift_dem_translates 3 Small.with_raster3 1 (-1))
    as (st' & Hs & _ & _ & _).
  - exact raster3_rect.
  - simpl. lia.
  - simpl. lia.
  - exists st'. split; [exact Hs|].
    vm_compute in Hs. injection Hs as <-. reflexivity.
Defined.

(** ** Dictionaries and the window *)

Section dict_facts.
Context {K V : Type} `{EqDecision K}.
Implicit Types (d : PyDict.t K V) (k : K) (v : V).

Lemma get_set_eq k v d : PyDict.get k (PyDict.set k v d) = Some v.
Proof.
  induction d as [|[k' v'] d IH]; simpl.
  - by rewrite decide_True.
  - destruct (decide (k = k')); simpl; [by rewrite decide_True|].
    by rewrite decide_False.
Qed.

Lemma get_set_ne k k' v d :
  k ≠ k' → PyDict.get k' (PyDict.set k v d) = PyDict.get k' d.
Proof.
  intros Hne. induction d as [|[k0 v0] d IH]; simpl.
  - by rewrite decide_False.
  - destruct (decide (k = k0)) as [->|]; simpl.
    + by rewrite !decide_False.
    + destruct (decide (k' = k0)); [done|apply IH].
Qed.

Lemma get_None k d : PyDict.get k d = None ↔ k ∉ PyDict.keys d.
Proof.
  unfold PyDict.keys. induction d as [|[k' v'] d IH]; simpl.
  - split; [intros _; apply not_elem_of_nil|done].
  - rewrite not_elem_of_cons. destruct (decide (k = k')) as [->|Hne].
    + split; [done|]. by intros [Hk _].
    + rewrite IH. split; [by intros Hk|by intros [_ Hk]].
Qed.

Lemma get_Some_keys k v d : PyDict.get k d = Some v → k ∈ PyDict.keys d.
Proof.
  intros Hg. destruct (decide (k ∈ PyDict.keys d)) as [|Hn]; [done|].
  apply get_None in Hn. congruence.
Qed.

Lemma keys_get k d : k ∈ PyDict.keys d → is_Some (PyDict.get k d).
Proof.
  intros Hk. destruct (PyDict.get k d) eqn:E; [eauto|].
  by apply get_None in E.
Qed.

Lemma set_new k v d : k ∉ PyDict.keys d → PyDict.set k v d = d ++ [(k, v)].
Proof.
  unfold PyDict.keys. induction d as [|[k' v'] d IH]; simpl; [done|].
  rewrite not_elem_of_cons. intros [Hne Hd].
  rewrite decide_False by done. by rewrite IH.
Qed.

Lemma getitem_Ok k v d : PyDict.getitem k d = Ok v ↔ PyDict.get k d = Some v.
Proof.
  unfold PyDict.getitem. destruct (PyDict.get k d); split; congruence.
Qed.

(** A dictionary filled from distinct keys in list order. *)
Lemma get_fmap_entries {A} (f : A → K) (g : A → V) (l : list A) (a : A) :
  (∀ a1 a2, a1 ∈ l → a2 ∈ l → f a1 = f a2 → a1 = a2) →
  a ∈ l → PyDict.get (f a) ((λ x, (f x, g x)) <$> l) = Some (g a).
Proof.
  intros Hinj Ha. induction l as [|x l IH]; [by apply elem_of_nil in Ha|].
  simpl. destruct (decide (f a = f x)) as [Heq|Hne].
  - f_equal. f_equal. apply Hinj; [by left|done|done].
  - apply elem_of_cons in Ha as [->|Ha]; [done|].
    apply IH; [|done]. intros a1 a2 H1 H2. apply Hinj; by right.
Qed.

Lemma get_fmap_entries_inv {A} (f : A → K) (g : A → V) (l : list A) k v :
  PyDict.get k ((λ x, (f x, g x)) <$> l) = Some v →
  ∃ a, a ∈ l ∧ k = f a ∧ v = g a.
Proof.
  induction l as [|x l IH]; simpl; [done|].
  destruct (decide (k = f x)) as [->|Hne].
  - intros [= <-]. exists x. split; [by left|done].
  - intros (a & Ha & ? & ?)%IH. exists a. split; [by right|done].
Qed.

Lemma keys_fmap_entries {A} (f : A → K) (g : A → V) (l : list A) :
  PyDict.keys ((λ x, (f x, g x)) <$> l) = f <$> l.
Proof. unfold PyDict.keys. by rewrite <- list_fmap_compose. Qed.
End dict_facts.

Section window_facts.
Lemma elem_of_py_range lo hi x : x ∈ py_range lo hi ↔ lo ≤ x < hi.
Proof. unfold py_range. rewrite elem_of_seqZ. lia. Qed.

Lemma elem_of_cells xs ys c : c ∈ cells xs ys ↔ c.1 ∈ xs ∧ c.2 ∈ ys.
Proof.
  unfold cells. rewrite list_elem_of_bind. destruct c as [x y]. simpl. split.
  - intros (x' & Hy & Hx). apply list_elem_of_fmap in Hy as (y' & [= -> ->] & Hy).
    done.
  - intros [Hx Hy]. exists x. split; [|done].
    apply list_elem_of_fmap. by exists y.
Qed.

Lemma NoDup_cells xs ys : NoDup xs → NoDup ys → NoDup (cells xs ys).
Proof.
  intros Hxs Hys. unfold cells. induction Hxs as [|x xs Hx Hxs IH]; simpl.
  - constructor.
  - apply NoDup_app. split; [|split; [|done]].
    + apply NoDup_fmap_2; [|done]. by intros y1 y2 [= ->].
    + intros c (y & -> & Hy)%list_elem_of_fmap Hc.
      apply (elem_of_cells xs ys (x, y)) in Hc as [Hc _]. done.
Qed.

Lemma length_cells xs ys : length (cells xs ys) = (length xs * length ys)%nat.
Proof.
  unfold cells. induction xs as [|x xs IH]; simpl; [done|].
  rewrite length_app, length_fmap. unfold mbind in IH. rewrite IH. done.
Qed.

Lemma elem_of_window n c :
  c ∈ window_cells n ↔ (- (n + 1) ≤ c.1 ≤ n + 1) ∧ (- (n + 1) ≤ c.2 ≤ n + 1).
Proof.
  unfold window_cells, offsets.
  rewrite elem_of_cells, !elem_of_py_range. lia.
Qed.

Lemma NoDup_window n : NoDup (window_cells n).
Proof. apply NoDup_cells; apply NoDup_seqZ. Qed.

Lemma length_window n :
  0 ≤ n → Z.of_nat (length (window_cells n)) = (2 * n + 3) ^ 2.
Proof.
  intros Hn. unfold window_cells, offsets, py_range.
  rewrite length_cells, length_seqZ. nia.
Qed.

Lemma local_key_inj bs c1 c2 :
  bs ≠ 0 → local_key bs c1 = local_key bs c2 → c1 = c2.
Proof.
  destruct c1, c2. unfold local_key. simpl. intros Hbs [= H1 H2].
  f_equal; nia.
Qed.

Lemma world_key_inj bs center c1 c2 :
  bs ≠ 0 → world_key bs center c1 = world_key bs center c2 → c1 = c2.
Proof.
  destruct c1, c2. unfold world_key. simpl. intros Hbs [= H1 H2].
  f_equal; nia.
Qed.
End window_facts.

Section grid.
Context `{CraterGen}.
Import HighResDEMGenCfg HighResDEMGen.

Lemma flags_eq_refl s : flags_eq s s.
Proof. done. Qed.

Lemma flags_eq_trans s1 s2 s3 : flags_eq s1 s2 → flags_eq s2 s3 → flags_eq s1 s3.
Proof. intros (? & ? & ?) (? & ? & ?). repeat split; congruence. Qed.

Lemma flags_eq_padding b s : flags_eq s (set_is_padding b s).
Proof. done. Qed.

Lemma grid_ok_tracker_get c0 st cell :
  block_size (settings st) ≠ 0 →
  grid_ok c0 st → cell ∈ window_cells (num_blocks (settings st)) →
  ∃ r, PyDict.get (local_key (block_size (settings st)) cell)
         (block_grid_tracker st) = Some r ∧
       is_Some (store st !! r) ∧ (r < next_ref st)%positive.
Proof.
  intros Hbs (Hk & Hm & Hlive & Hbound) Hc.
  destruct (keys_get (local_key (block_size (settings st)) cell)
              (block_grid_tracker st)) as [r Hr].
  { rewrite Hk. by apply list_elem_of_fmap_2. }
  exists r. split; [done|]. split; [eauto|]. eauto.
Qed.

(** Extending the loop invariant by one cell, for any new store that
    keeps the flags of the dictionaries already there. *)
Lemma shift_inv_extend st coordinates done cell st1 nt nm sto' nx' r :
  block_size (settings st) ≠ 0 →
  cell ∉ done →
  shift_inv st coordinates done (st1, nt, nm) →
  (next_ref st1 ≤ nx')%positive →
  (∀ r0 s, store st1 !! r0 = Some s →
           ∃ s', sto' !! r0 = Some s' ∧ flags_eq s s') →
  (∀ r0, is_Some (sto' !! r0) → (r0 < nx')%positive) →
  is_Some (sto' !! r) →
  tile_from st coordinates sto' cell r →
  shift_inv st coordinates (done ++ [cell])
    (with_store st sto' nx',
     PyDict.set (local_key (block_size (settings st)) cell) r nt,
     PyDict.set (world_key (block_size (settings st)) coordinates cell)
       (local_key (block_size (settings st)) cell) nm).
Proof.
  intros Hbs Hfresh (Hfr & Hnext & Hsto & Hbound & Hnt & Hnm & Hcells)
    Hnx Hevo Hbound' Hlive Htile.
  set (bs := block_size (settings st)) in *.
  assert (local_key bs cell ∉ PyDict.keys nt) as Hk1.
  { rewrite Hnt. intros (c' & Heq & Hc')%list_elem_of_fmap.
    apply local_key_inj in Heq; [|done]. by subst. }
  assert (world_key bs coordinates cell ∉ PyDict.keys nm) as Hk2.
  { rewrite Hnm, keys_fmap_entries.
    intros (c' & Heq & Hc')%list_elem_of_fmap.
    apply world_key_inj in Heq; [|done]. by subst. }
  unfold shift_inv. fold bs.
  split; [done|]. simpl.
  split; [lia|].
  split.
  { intros r0 s Hs. destruct (Hsto r0 s Hs) as (s1 & Hs1 & Hf1).
    destruct (Hevo r0 s1 Hs1) as (s2 & Hs2 & Hf2).
    exists s2. split; [done|]. by eapply flags_eq_trans. }
  split; [done|].
  split.
  { rewrite (set_new _ _ _ Hk1). unfold PyDict.keys in *.
    by rewrite !fmap_app, Hnt. }
  split.
  { rewrite (set_new _ _ _ Hk2), Hnm. by rewrite fmap_app. }
  intros cell0 [Hin| ->%list_elem_of_singleton]%elem_of_app.
  - destruct (Hcells cell0 Hin) as (r0 & Hr0 & [s0 Hs0] & Ht0).
    exists r0. split.
    { rewrite get_set_ne; [done|]. intros Heq.
      apply local_key_inj in Heq; [|done]. by subst. }
    destruct (Hevo r0 s0 Hs0) as (s0' & Hs0' & Hf0).
    split; [eauto|].
    unfold tile_from in *. fold bs in Ht0 |- *.
    destruct (PyDict.get (world_key bs coordinates cell0)
                (map_grid_block2coords st)); [done|].
    destruct Ht0 as (Hge & sx & Hsx & Hfx). split; [done|].
    destruct (Hevo r0 sx Hsx) as (sx' & Hsx' & Hfx').
    exists sx'. split; [done|]. by eapply flags_eq_trans.
  - exists r. by rewrite get_set_eq.
Qed.

Lemma shift_block_cell_step st c0 coordinates done cell rest acc :
  block_size (settings st) ≠ 0 →
  grid_ok c0 st →
  window_cells (num_blocks (settings st)) = done ++ cell :: rest →
  shift_inv st coordinates done acc →
  ∃ acc', shift_block_cell coordinates cell.1 cell.2 acc = Ok acc' ∧
          shift_inv st coordinates (done ++ [cell]) acc'.
Proof.
  intros Hbs Hok Hwin HJ.
  destruct acc as [[st1 nt] nm].
  pose proof HJ as (Hfr & Hnext & Hsto & Hbound & Hnt & Hnm & Hcells).
  set (n := num_blocks (settings st)) in *.
  set (bs := block_size (settings st)) in *.
  assert (cell ∈ window_cells n) as Hcell.
  { rewrite Hwin. apply elem_of_app. right. by left. }
  assert (cell ∉ done) as Hfresh.
  { pose proof (NoDup_window n) as Hnd. rewrite Hwin in Hnd.
    apply NoDup_app in Hnd as (_ & Hnd & _). intros Hin.
    apply (Hnd cell Hin). by left. }
  destruct (grid_ok_tracker_get c0 st cell Hbs Hok Hcell)
    as (r' & Hr' & [s0 Hs0] & Hr'lt).
  fold bs in Hr'.
  destruct (Hsto r' s0 Hs0) as (s1 & Hs1 & Hfl1).
  (* the store after the [is_padding] write, from any store [m] that
     still holds [s1] at [r'] *)
  assert (∀ m : gmap ref BlockState, m !! r' = Some s1 →
            ∀ b r0 s, m !! r0 = Some s →
              ∃ s', <[r' := set_is_padding b s1]> m !! r0 = Some s' ∧
                    flags_eq s s') as Hwrite.
  { intros m Hm b r0 s Hs. destruct (decide (r0 = r')) as [->|Hne].
    - rewrite lookup_insert_eq. exists (set_is_padding b s1).
      split; [done|]. rewrite Hm in Hs. by injection Hs as <-.
    - rewrite lookup_insert_ne by done. by exists s. }
  destruct cell as [x y]. unfold shift_block_cell. simpl.
  rewrite Hfr. simpl. fold n bs.
  change (x * bs, y * bs) with (local_key bs (x, y)) in *.
  change (x * bs + coordinates.1, y * bs + coordinates.2)
    with (world_key bs coordinates (x, y)).
  unfold PyDict.mem.
  destruct (PyDict.get (world_key bs coordinates (x, y))
              (map_grid_block2coords st)) as [l2|] eqn:Hmem; simpl.
  - (* carried over *)
    rewrite (proj2 (getitem_Ok _ _ _) Hmem). simpl.
    assert (∃ r, PyDict.get l2 (block_grid_tracker st) = Some r ∧
                 is_Some (store st !! r)) as (r & Hr & [sr Hsr]).
    { pose proof Hok as (_ & Hm & _). rewrite Hm in Hmem.
      apply get_fmap_entries_inv in Hmem as (c2 & Hc2 & _ & ->).
      destruct (grid_ok_tracker_get c0 st c2 Hbs Hok Hc2) as (r & ? & ? & _).
      eauto. }
    rewrite (proj2 (getitem_Ok _ _ _) Hr). simpl.
    rewrite (proj2 (getitem_Ok _ _ _) Hr'). simpl.
    unfold setattr, deref. simpl. rewrite Hs1. simpl.
    eexists. split; [reflexivity|].
    apply (shift_inv_extend st coordinates done (x, y) st1 nt nm); try done.
    + by apply Hwrite.
    + intros r0 [s Hs]. destruct (decide (r0 = r')) as [->|Hne].
      * apply Hbound. eauto.
      * rewrite lookup_insert_ne in Hs by done. apply Hbound. eauto.
    + destruct (Hsto r sr Hsr) as (sr' & Hsr' & _).
      destruct (Hwrite _ Hs1 (padding_of n x y) r sr' Hsr') as (? & -> & _).
      eauto.
    + unfold tile_from. fold bs. by rewrite Hmem.
  - (* a new block *)
    assert (r' ≠ next_ref st1) as Hne by lia.
    assert (∀ r0, is_Some (store st1 !! r0) → r0 ≠ next_ref st1) as Hold.
    { intros r0 Hr0%Hbound. lia. }
    rewrite (proj2 (getitem_Ok _ _ _) Hr'). simpl.
    unfold setattr, deref. simpl.
    rewrite lookup_insert_ne, Hs1 by done. simpl.
    eexists. split; [reflexivity|].
    apply (shift_inv_extend st coordinates done (x, y) st1 nt nm); try done.
    + lia.
    + intros r0 s Hs. apply Hwrite.
      * by rewrite lookup_insert_ne.
      * rewrite lookup_insert_ne; [done|]. apply not_eq_sym, Hold. eauto.
    + intros r0 [s Hs]. destruct (decide (r0 = r')) as [->|Hne'].
      { assert (r' < next_ref st1)%positive by (apply Hbound; eauto). lia. }
      rewrite lookup_insert_ne in Hs by done.
      destruct (decide (r0 = next_ref st1)) as [->|Hne'']; [lia|].
      rewrite lookup_insert_ne in Hs by done.
      assert (r0 < next_ref st1)%positive by (apply Hbound; eauto). lia.
    + rewrite lookup_insert_ne, lookup_insert_eq by done. eauto.
    + unfold tile_from. fold bs. rewrite Hmem. split; [done|].
      exists empty_state.
      by rewrite lookup_insert_ne, lookup_insert_eq by done.
Qed.

Lemma with_store_id (st : t) : with_store st (store st) (next_ref st) = st.
Proof. by destruct st. Qed.

Lemma with_grid_id (st : t) :
  with_grid st (block_grid_tracker st) (map_grid_block2coords st) = st.
Proof. by destruct st. Qed.

(** [shift_block_grid] on a well-formed grid: it returns, the new
    dictionaries describe the window at [coordinates], every
    dictionary object keeps its three [has_*] flags, and every tile of
    the new tracker is carried over by reference or new. *)
Lemma shift_block_grid_spec st c0 coordinates :
  block_size (settings st) ≠ 0 →
  grid_ok c0 st →
  ∃ st', shift_block_grid coordinates st = Ok st' ∧
    st' = with_grid (with_store st (store st') (next_ref st'))
            (block_grid_tracker st') (map_grid_block2coords st') ∧
    grid_ok coordinates st' ∧
    (∀ r s, store st !! r = Some s →
            ∃ s', store st' !! r = Some s' ∧ flags_eq s s') ∧
    (∀ cell, cell ∈ window_cells (num_blocks (settings st)) →
       ∃ r, PyDict.get (local_key (block_size (settings st)) cell)
              (block_grid_tracker st') = Some r ∧
            tile_from st coordinates (store st') cell r).
Proof.
  intros Hbs Hok. unfold shift_block_grid.
  rewrite for_each_nested.
  destruct (for_each_ind (shift_inv st coordinates)
              (λ c, shift_block_cell coordinates c.1 c.2)
              (window_cells (num_blocks (settings st)))
              (st, PyDict.empty, PyDict.empty))
    as ([[st1 nt] nm] & Hrun & HJ).
  { unfold shift_inv. rewrite with_store_id.
    split; [done|]. split; [lia|].
    split; [intros r s Hs; by exists s|].
    split; [apply Hok|]. split; [done|]. split; [done|].
    intros cell Hc. by apply elem_of_nil in Hc. }
  { intros done cell rest acc Hwin HJ.
    by eapply shift_block_cell_step. }
  fold (offsets (num_blocks (settings st))).
  fold (window_cells (num_blocks (settings st))).
  rewrite Hrun. simpl.
  destruct HJ as (Hfr & Hnext & Hsto & Hbound & Hnt & Hnm & Hcells).
  eexists. split; [reflexivity|]. simpl.
  split; [by rewrite Hfr|].
  split; [|split; [done|]].
  - unfold grid_ok. rewrite Hfr. simpl.
    split; [done|]. split; [done|]. split; [|by rewrite Hfr in Hbound].
    intros l r Hl. pose proof (get_Some_keys _ _ _ Hl) as Hk.
    rewrite Hnt in Hk. apply list_elem_of_fmap in Hk as (cell & -> & Hc).
    destruct (Hcells cell Hc) as (r0 & Hr0 & Hlive & _).
    rewrite Hfr in Hlive. simpl in Hlive. congruence.
  - intros cell Hc. destruct (Hcells cell Hc) as (r0 & Hr0 & _ & Ht).
    eauto.
Qed.

Lemma build_block_cell_step st done cell rest st1 :
  block_size (settings st) ≠ 0 →
  window_cells (num_blocks (settings st)) = done ++ cell :: rest →
  build_inv st done st1 →
  ∃ st2, build_block_cell cell.1 cell.2 st1 = Ok st2 ∧
         build_inv st (done ++ [cell]) st2.
Proof.
  intros Hbs Hwin (Hfr & Hbound & Hkeys & Hmap & Hlive).
  set (n := num_blocks (settings st)) in *.
  set (bs := block_size (settings st)) in *.
  assert (cell ∉ done) as Hfresh.
  { pose proof (NoDup_window n) as Hnd. rewrite Hwin in Hnd.
    apply NoDup_app in Hnd as (_ & Hnd & _). intros Hin.
    apply (Hnd cell Hin). by left. }
  assert (local_key bs cell ∉ PyDict.keys (block_grid_tracker st1)) as Hk1.
  { rewrite Hkeys. intros (c' & Heq & Hc')%list_elem_of_fmap.
    apply local_key_inj in Heq; [|done]. by subst. }
  assert (world_key bs (current_block_coord st) cell
          ∉ PyDict.keys (map_grid_block2coords st1)) as Hk2.
  { rewrite Hmap, keys_fmap_entries.
    intros (c' & Heq & Hc')%list_elem_of_fmap.
    apply world_key_inj in Heq; [|done]. by subst. }
  destruct cell as [x y]. unfold build_block_cell. simpl.
  rewrite Hfr. simpl. fold n bs.
  change (x * bs, y * bs) with (local_key bs (x, y)) in *.
  change (x * bs + (current_block_coord st).1,
          y * bs + (current_block_coord st).2)
    with (world_key bs (current_block_coord st) (x, y)).
  unfold PyDict.getitem. rewrite get_set_eq. simpl.
  unfold setattr, deref. simpl. rewrite lookup_insert_eq. simpl.
  eexists. split; [reflexivity|].
  unfold build_inv. simpl. fold bs.
  split; [done|]. split; [|split; [|split]].
  - intros r [s Hs]. destruct (decide (r = next_ref st1)) as [->|Hne]; [lia|].
    rewrite !lookup_insert_ne in Hs by done.
    assert (r < next_ref st1)%positive by (apply Hbound; eauto). lia.
  - rewrite (set_new _ _ _ Hk1). unfold PyDict.keys in *.
    by rewrite !fmap_app, Hkeys.
  - rewrite (set_new _ _ _ Hk2), Hmap. by rewrite fmap_app.
  - intros l r. destruct (decide (local_key bs (x, y) = l)) as [<-|Hne].
    + rewrite get_set_eq. intros [= <-]. rewrite lookup_insert_eq. eauto.
    + rewrite get_set_ne by done. intros [s Hs]%Hlive.
      destruct (decide (r = next_ref st1)) as [->|Hne'].
      * rewrite lookup_insert_eq. eauto.
      * rewrite !lookup_insert_ne by done. eauto.
Qed.

Lemma build_block_grid_spec st :
  block_size (settings st) ≠ 0 →
  (∀ r, is_Some (store st !! r) → (r < next_ref st)%positive) →
  ∃ st', build_block_grid st = Ok st' ∧
    st' = with_grid (with_store st (store st') (next_ref st'))
            (block_grid_tracker st') (map_grid_block2coords st') ∧
    grid_ok (current_block_coord st) st'.
Proof.
  intros Hbs Hbound. unfold build_block_grid.
  rewrite for_each_nested.
  destruct (for_each_ind (build_inv st)
              (λ c, build_block_cell c.1 c.2)
              (window_cells (num_blocks (settings st)))
              (with_grid st PyDict.empty PyDict.empty))
    as (st1 & Hrun & HJ).
  { unfold build_inv. simpl. by rewrite with_store_id. }
  { intros done cell rest acc Hwin HJ.
    by eapply build_block_cell_step. }
  fold (offsets (num_blocks (settings st))).
  fold (window_cells (num_blocks (settings st))).
  exists st1. split; [done|].
  destruct HJ as (Hfr & Hb & Hkeys & Hmap & Hlive).
  split; [done|]. unfold grid_ok. rewrite Hfr. simpl.
  rewrite Hfr in Hb, Hlive. by simpl in *.
Qed.

(** *** Operations that only rewrite fields of state dictionaries *)

Lemma store_rel_refl R m : (∀ s, R s s) → store_rel R m m.
Proof. intros HR. split; [|done]. intros r s Hs. by exists s. Qed.

Lemma store_rel_trans R m1 m2 m3 :
  (∀ s1 s2 s3, R s1 s2 → R s2 s3 → R s1 s3) →
  store_rel R m1 m2 → store_rel R m2 m3 → store_rel R m1 m3.
Proof.
  intros HR [H12 D12] [H23 D23]. split; [|auto].
  intros r s1 Hs1. destruct (H12 r s1 Hs1) as (s2 & Hs2 & HR12).
  destruct (H23 r s2 Hs2) as (s3 & Hs3 & HR23). exists s3. eauto.
Qed.

Lemma setattr_spec R r upd st st' :
  (∀ s, R s s) → (∀ s, R s (upd s)) →
  setattr r upd st = Ok st' →
  st' = with_store st (store st') (next_ref st) ∧
  store_rel R (store st) (store st').
Proof.
  intros Hrefl Hupd. unfold setattr, deref.
  destruct (store st !! r) as [s|] eqn:Hs; [|done]. simpl.
  intros [= <-]. simpl. split; [done|]. split.
  - intros r0 s0 Hs0. destruct (decide (r0 = r)) as [->|Hne].
    + rewrite lookup_insert_eq. exists (upd s). split; [done|].
      rewrite Hs in Hs0. by injection Hs0 as <-.
    + rewrite lookup_insert_ne by done. by exists s0.
  - intros r0. destruct (decide (r0 = r)) as [->|Hne]; [eauto|].
    by rewrite lookup_insert_ne.
Qed.

Lemma flags_le_refl s : flags_le s s.
Proof. done. Qed.

Lemma flags_le_trans s1 s2 s3 : flags_le s1 s2 → flags_le s2 s3 → flags_le s1 s3.
Proof. intros (? & ? & ?) (? & ? & ?). repeat split; auto. Qed.

Lemma flags_eq_le s s' : flags_eq s s' → flags_le s s'.
Proof. intros (? & ? & ?). repeat split; congruence. Qed.

Lemma shift_dem_frame ps st st' :
  shift_dem ps st = Ok st' → st' = with_dem st (high_res_dem st').
Proof.
  unfold shift_dem. destruct ps as [x y].
  destruct (_ || _); [by intros [= <-]|].
  destruct (x >? 0), (x =? 0), (y >? 0), (y =? 0);
    (intros (d & _ & Hd)%bind_Ok; by injection Hd as <-).
Qed.

(** [generate_craters_metadata] rewrites [has_crater_metadata] fields
    only; [R] is any relation those writes respect. *)
Lemma generate_craters_metadata_spec R st st' :
  let db' := sample_craters_by_region (metadata_region st) (crater_db st) in
  (∀ s, R s s) → (∀ s1 s2 s3, R s1 s2 → R s2 s3 → R s1 s3) →
  (∀ coords s, coords ∈ PyDict.keys (map_grid_block2coords st) →
     R s (set_has_crater_metadata (check_block_exists coords db') s)) →
  generate_craters_metadata st = Ok st' →
  st' = with_store (with_db st db') (store st') (next_ref st) ∧
  store_rel R (store st) (store st').
Proof.
  intros db' Hrefl Htrans HR. unfold generate_craters_metadata.
  fold (metadata_region st). fold db'.
  apply (for_each_inv
           (λ st1, st1 = with_store (with_db st db') (store st1) (next_ref st) ∧
                   store_rel R (store st) (store st1))).
  - simpl. split; [by destruct st|]. by apply store_rel_refl.
  - intros coords st1 st2 Hin [Hfr1 Hrel1]. simpl in Hin.
    intros (l & _ & (r & _ & Hset)%bind_Ok)%bind_Ok.
    assert (crater_db st1 = db') as Hdb by (by rewrite Hfr1).
    rewrite Hdb in Hset.
    assert (setattr r (set_has_crater_metadata (check_block_exists coords db'))
              st1 = Ok st2) as Hset'.
    { by destruct (check_block_exists coords db'). }
    apply (setattr_spec R) in Hset' as [Hfr2 Hrel2];
      [|done|intros s; by apply HR].
    split.
    + rewrite Hfr2, Hfr1. simpl. done.
    + by eapply store_rel_trans.
Qed.

Lemma generate_terrain_blocks_frame taken st st' :
  generate_terrain_blocks taken st = Ok st' →
  st' = with_managers st (crater_builder_manager st') (interpolator_manager st').
Proof.
  unfold generate_terrain_blocks.
  apply (for_each_inv
           (λ st1, st1 = with_managers st (crater_builder_manager st1)
                           (interpolator_manager st1))).
  - by destruct st.
  - intros k st1 st2 _ Hfr1.
    intros (l & _ & (r & _ & (s & _ & Hrest)%bind_Ok)%bind_Ok)%bind_Ok.
    apply bind_Ok in Hrest
      as (st1' & Hc & (r2 & _ & (s2 & _ & Hrest)%bind_Ok)%bind_Ok).
    assert (st1' = with_managers st (crater_builder_manager st1')
                     (interpolator_manager st1')) as Hfr1'.
    { destruct (negb (has_crater_data s)).
      - apply bind_Ok in Hc as (m & _ & [= <-]). simpl. by rewrite Hfr1.
      - by injection Hc as <-. }
    destruct (negb (has_terrain_data s2)).
    + apply bind_Ok in Hrest as (patch & _ & (m & _ & [= <-])%bind_Ok).
      simpl. by rewrite Hfr1'.
    + by injection Hrest as <-.
Qed.

Lemma collect_one_spec R offset flag coords data st st' :
  (∀ s, R s s) → (∀ s, R s (flag s)) →
  collect_one offset flag coords data st = Ok st' →
  st' = with_store (with_dem st (high_res_dem st')) (store st') (next_ref st) ∧
  store_rel R (store st) (store st').
Proof.
  intros Hrefl Hflag. unfold collect_one.
  intros ([x_c y_c] & _ & Hrest)%bind_Ok.
  apply bind_Ok in Hrest as (x0 & _ & (x1 & _ & (y0 & _ & (y1 & _ & Hrest)%bind_Ok)%bind_Ok)%bind_Ok).
  apply bind_Ok in Hrest as (dem & _ & (r & _ & Hset)%bind_Ok).
  apply (setattr_spec R) in Hset as [Hfr Hrel]; [|done..].
  simpl in *. split; [|done]. rewrite Hfr. simpl. done.
Qed.

Lemma collect_terrain_data_spec crater_results terrain_results st st' :
  collect_terrain_data crater_results terrain_results st = Ok st' →
  st' = with_store (with_dem st (high_res_dem st')) (store st') (next_ref st) ∧
  store_rel flags_le (store st) (store st').
Proof.
  unfold collect_terrain_data.
  intros (off & _ & (st1 & Hc & Ht)%bind_Ok)%bind_Ok.
  assert (∀ (A : Type) (f : A → Np.ndarray) flag (l : list (coord * A)) sta stb,
            (∀ s, flags_le s (flag s)) →
            for_each l (λ '(coords, data),
                          collect_one (py_int off) flag coords (f data)) sta
            = Ok stb →
            stb = with_store (with_dem sta (high_res_dem stb)) (store stb)
                    (next_ref sta) ∧
            store_rel flags_le (store sta) (store stb)) as Hloop.
  { intros A f flag l sta stb Hflag.
    apply (for_each_inv
             (λ stx, stx = with_store (with_dem sta (high_res_dem stx))
                             (store stx) (next_ref sta) ∧
                     store_rel flags_le (store sta) (store stx))).
    - split; [by destruct sta|]. apply store_rel_refl, flags_le_refl.
    - intros [coords data] stx sty _ [Hfrx Hrelx] Hone.
      apply (collect_one_spec flags_le) in Hone as [Hfry Hrely];
        [|apply flags_le_refl|done].
      split.
      + rewrite Hfry, Hfrx. simpl. done.
      + eapply store_rel_trans; [apply flags_le_trans|done..]. }
  apply (Hloop _ item0) in Hc as [Hfr1 Hrel1];
    [|intros s; by repeat split].
  apply (Hloop _ (λ a, a)) in Ht as [Hfr2 Hrel2];
    [|intros s; by repeat split].
  split.
  - rewrite Hfr2, Hfr1. simpl. done.
  - eapply store_rel_trans; [apply flags_le_trans|done..].
Qed.

(** *** Invariants of reachable generators *)

Lemma grid_ok_store_rel R c st st' :
  settings st' = settings st →
  block_grid_tracker st' = block_grid_tracker st →
  map_grid_block2coords st' = map_grid_block2coords st →
  next_ref st' = next_ref st →
  store_rel R (store st) (store st') →
  grid_ok c st → grid_ok c st'.
Proof.
  intros Hs Ht Hm Hn [Hrel Hdom] (Hk & Hmap & Hlive & Hbound).
  unfold grid_ok. rewrite Hs, Ht, Hm, Hn.
  split; [done|]. split; [done|]. split.
  - intros l r Hl. destruct (Hlive l r Hl) as [s Hsr].
    destruct (Hrel r s Hsr) as (s' & -> & _). eauto.
  - intros r Hr. apply Hbound, Hdom, Hr.
Qed.

(** The five calls [shift] is made of. *)
Lemma shift_unfold coordinates taken st st' :
  shift coordinates taken st = Ok st' →
  ∃ nb ps st1 st2 st3,
    cast_coordinates_to_block_space coordinates st = Ok nb ∧
    shift_block_grid nb st = Ok st1 ∧
    shift_dem ps st1 = Ok st2 ∧
    generate_craters_metadata (with_current st2 nb) = Ok st3 ∧
    generate_terrain_blocks taken st3 = Ok st'.
Proof.
  unfold shift.
  intros (nb & Hnb & (px & _ & (py & _ & Hrest)%bind_Ok)%bind_Ok)%bind_Ok.
  apply bind_Ok in Hrest as (st1 & H1 & (st2 & H2 & Hrest)%bind_Ok).
  apply bind_Ok in Hrest as (st3 & H3 & H4).
  eexists nb, _, st1, st2, st3. eauto.
Qed.

(** After [shift] the grid is the one [shift_block_grid] produced,
    recentred, and the store is related to that grid's store by any
    relation the metadata writes respect. *)
Lemma shift_after_grid R nb ps taken st1 st2 st3 st' :
  (∀ s, R s s) → (∀ s1 s2 s3, R s1 s2 → R s2 s3 → R s1 s3) →
  (∀ coords s,
     coords ∈ PyDict.keys (map_grid_block2coords st1) →
     R s (set_has_crater_metadata
            (check_block_exists coords
               (sample_craters_by_region
                  (metadata_region (with_current st1 nb)) (crater_db st1)))
            s)) →
  shift_dem ps st1 = Ok st2 →
  generate_craters_metadata (with_current st2 nb) = Ok st3 →
  generate_terrain_blocks taken st3 = Ok st' →
  settings st' = settings st1 ∧ low_res_dem st' = low_res_dem st1 ∧
  lr_dem_px_offset st' = lr_dem_px_offset st1 ∧
  lr_dem_block_size st' = lr_dem_block_size st1 ∧
  current_block_coord st' = nb ∧
  block_grid_tracker st' = block_grid_tracker st1 ∧
  map_grid_block2coords st' = map_grid_block2coords st1 ∧
  next_ref st' = next_ref st1 ∧
  store_rel R (store st1) (store st').
Proof.
  intros Hrefl Htrans HR H2 H3 H4.
  apply shift_dem_frame in H2.
  apply generate_terrain_blocks_frame in H4.
  apply (generate_craters_metadata_spec R) in H3 as [H3 Hrel]; [|done..|].
  - rewrite H4, H3, H2. simpl. rewrite H2 in Hrel. simpl in Hrel.
    by do 8 (split; [done|]).
  - rewrite H2. simpl. intros coords s Hin. by apply HR.
Qed.

Lemma run_op_reach_inv dem cfg o st st' :
  block_size cfg ≠ 0 →
  reach_inv dem cfg st → run_op o st = Ok st' → reach_inv dem cfg st'.
Proof.
  intros Hbs (Hs & Hd & Hwf & Hoff & Hbsz) Hrun.
  assert (block_size (settings st) ≠ 0) as Hbs' by (by rewrite Hs).
  destruct o as [coordinates taken| |cr tr]; simpl in Hrun.
  - apply shift_unfold in Hrun
      as (nb & ps & st1 & st2 & st3 & _ & H1 & H2 & H3 & H4).
    destruct (shift_block_grid_spec st _ nb Hbs' Hwf)
      as (st1' & H1' & Hfr1 & Hok1 & _).
    rewrite H1 in H1'. injection H1' as <-.
    destruct (shift_after_grid (λ _ _, True) nb ps taken st1 st2 st3 st')
      as (E1 & E2 & E3 & E4 & E5 & E6 & E7 & E8 & Hrel); try done.
    assert (settings st1 = settings st) as Es by (by rewrite Hfr1).
    unfold reach_inv, wf.
    rewrite E1, E2, E3, E4, E5, Hfr1. simpl.
    do 2 (split; [done|]). split; [|by split].
    eapply (grid_ok_store_rel _ nb st1 st'); try done.
  - apply (generate_craters_metadata_spec (λ _ _, True)) in Hrun
      as [Hfr Hrel]; [|done..].
    unfold reach_inv, wf. rewrite Hfr. simpl.
    do 2 (split; [done|]). split; [|by split].
    eapply (grid_ok_store_rel _ _ st); try done; by rewrite Hfr.
  - apply collect_terrain_data_spec in Hrun as [Hfr Hrel].
    unfold reach_inv, wf. rewrite Hfr. simpl.
    do 2 (split; [done|]). split; [|by split].
    eapply (grid_ok_store_rel _ _ st); try done; by rewrite Hfr.
Qed.

Lemma init_reach_inv dem cfg db st :
  block_size cfg ≠ 0 →
  init dem cfg db = Ok st → reach_inv dem cfg st.
Proof.
  intros Hbs. unfold init.
  intros (st1 & H1 & (st2 & H2 & H3)%bind_Ok)%bind_Ok.
  match type of H1 with build_block_grid ?s0 = _ => set (st0 := s0) in * end.
  destruct (build_block_grid_spec st0) as (st1' & H1' & Hfr1 & Hok1).
  { done. }
  { intros r [s Hs]. unfold st0 in Hs. simpl in Hs.
    by rewrite lookup_empty in Hs. }
  rewrite H1 in H1'. injection H1' as <-.
  unfold instantiate_high_res_dem in H2.
  apply bind_Ok in H2 as (side & _ & (d & _ & [= <-])%bind_Ok).
  unfold get_low_res_dem_offset in H3.
  apply bind_Ok in H3 as (ratio & _ & (b & Hb & [= <-])%bind_Ok).
  simpl in Hb. rewrite Hfr1 in Hb. simpl in Hb.
  unfold reach_inv, wf. rewrite Hfr1. simpl.
  do 2 (split; [done|]). split; [|split; [done|by exists b]].
  unfold grid_ok in *. rewrite Hfr1 in Hok1. by simpl in *.
Qed.

Lemma reachable_inv dem cfg st :
  block_size cfg ≠ 0 → reachable dem cfg st → reach_inv dem cfg st.
Proof.
  intros Hbs. induction 1 as [db st Hinit|o st st' _ IH Hrun].
  - by eapply init_reach_inv.
  - by eapply run_op_reach_inv.
Qed.
End grid.

(** ** The block grid and the tile flags (C2, C7, C8) *)

Section grid_properties.
Context `{CraterGen}.
Import HighResDEMGenCfg HighResDEMGen.

Lemma grid_ok_tracker_complete c st :
  0 ≤ num_blocks (settings st) → block_size (settings st) ≠ 0 →
  grid_ok c st → tracker_complete (settings st) (block_grid_tracker st).
Proof.
  intros Hn Hbs (Hk & _). unfold tracker_complete.
  set (n := num_blocks (settings st)) in *.
  set (bs := block_size (settings st)) in *.
  split.
  - unfold PyDict.len.
    replace (length (block_grid_tracker st))
      with (length (PyDict.keys (block_grid_tracker st)))
      by (unfold PyDict.keys; apply length_fmap).
    rewrite Hk, length_fmap. by apply length_window.
  - intros l. split.
    + intros [r Hr]. apply get_Some_keys in Hr. rewrite Hk in Hr.
      apply list_elem_of_fmap in Hr as ([dx dy] & -> & Hc).
      apply elem_of_window in Hc as [Hx Hy]. simpl in Hx, Hy.
      by exists dx, dy.
    + intros (dx & dy & Hx & Hy & ->). apply keys_get. rewrite Hk.
      apply (list_elem_of_fmap_2 (local_key bs) _ (dx, dy)).
      by apply elem_of_window.
Qed.

(** C7.  In every reachable generator (after construction and after
    every operation that returned) the local->state mapping has exactly
    [(2 * num_blocks + 3)^2] entries, one for each local offset
    [(dx, dy)] with [dx] and [dy] in [-(num_blocks + 1), num_blocks + 1];
    from such a generator [shift_block_grid] to any coordinates and
    [build_block_grid] both return and yield a mapping of that form. *)
Theorem C7_window_has_all_tiles dem cfg st :
  0 < block_size cfg → 0 ≤ num_blocks cfg →
  reachable dem cfg st →
  tracker_complete cfg (block_grid_tracker st) ∧
  (∀ coordinates, ∃ st',
      shift_block_grid coordinates st = Ok st' ∧
      tracker_complete cfg (block_grid_tracker st')) ∧
  (∃ st', build_block_grid st = Ok st' ∧
          tracker_complete cfg (block_grid_tracker st')).
Proof.
  intros Hbs Hn Hreach.
  destruct (reachable_inv dem cfg st) as (Hs & _ & Hwf & _); [lia|done|].
  assert (block_size (settings st) ≠ 0) as Hbs' by (rewrite Hs; lia).
  assert (0 ≤ num_blocks (settings st)) as Hn' by (by rewrite Hs).
  rewrite <- Hs. split; [by eapply grid_ok_tracker_complete|]. split.
  - intros coordinates.
    destruct (shift_block_grid_spec st _ coordinates Hbs' Hwf)
      as (st' & Hrun & Hfr & Hok & _).
    exists st'. split; [done|].
    assert (settings st' = settings st) as Es by (by rewrite Hfr).
    rewrite <- Es. eapply grid_ok_tracker_complete; [by rewrite Es..|done].
  - destruct (build_block_grid_spec st Hbs') as (st' & Hrun & Hfr & Hok).
    { apply Hwf. }
    exists st'. split; [done|].
    assert (settings st' = settings st) as Es by (by rewrite Hfr).
    rewrite <- Es. eapply grid_ok_tracker_complete; [by rewrite Es..|done].
Qed.

(** C2.  From every reachable generator [shift_block_grid] returns,
    and for every tile whose world anchor [w] was in the world->local
    mapping before the shift and lies at local offset [(dx, dy)] of the
    new window, the state found after the shift at that offset (and
    through the new world->local mapping) has the same
    [has_crater_metadata], [has_crater_data] and [has_terrain_data]
    values as before. *)
Theorem C2_shift_carries_flags dem cfg st coordinates :
  0 < block_size cfg →
  reachable dem cfg st →
  ∃ st', shift_block_grid coordinates st = Ok st' ∧
    ∀ w s dx dy,
      state_of_anchor w st = Some s →
      - (num_blocks cfg + 1) ≤ dx ≤ num_blocks cfg + 1 →
      - (num_blocks cfg + 1) ≤ dy ≤ num_blocks cfg + 1 →
      w = (coordinates.1 + dx * block_size cfg,
           coordinates.2 + dy * block_size cfg) →
      ∃ s', state_at (dx * block_size cfg, dy * block_size cfg) st' = Some s' ∧
            state_of_anchor w st' = Some s' ∧
            has_crater_metadata s' = has_crater_metadata s ∧
            has_crater_data s' = has_crater_data s ∧
            has_terrain_data s' = has_terrain_data s.
Proof.
  intros Hbs Hreach.
  destruct (reachable_inv dem cfg st) as (Hs & _ & Hwf & _); [lia|done|].
  assert (block_size (settings st) ≠ 0) as Hbs' by (rewrite Hs; lia).
  destruct (shift_block_grid_spec st _ coordinates Hbs' Hwf)
    as (st' & Hrun & Hfr & Hok & Hsto & Htiles).
  exists st'. split; [done|].
  intros w s dx dy Hw Hdx Hdy ->.
  rewrite Hs in Htiles, Hbs'.
  set (n := num_blocks cfg) in *. set (bs := block_size cfg) in *.
  assert ((dx, dy) ∈ window_cells n) as Hc by (by apply elem_of_window).
  destruct (Htiles (dx, dy) Hc) as (r & Hr & Ht).
  unfold state_of_anchor in Hw.
  destruct (PyDict.get _ (map_grid_block2coords st)) as [l|] eqn:Hl; [|done].
  simpl in Hw. unfold state_at in Hw.
  destruct (PyDict.get l (block_grid_tracker st)) as [r0|] eqn:Hr0; [|done].
  simpl in Hw.
  unfold tile_from in Ht. rewrite Hs in Ht. fold bs in Ht.
  replace (world_key bs coordinates (dx, dy))
    with (coordinates.1 + dx * bs, coordinates.2 + dy * bs) in Ht
    by (unfold world_key; simpl; f_equal; lia).
  rewrite Hl in Ht. rewrite Hr0 in Ht. injection Ht as <-.
  destruct (Hsto r0 s Hw) as (s' & Hs' & Hf1 & Hf2 & Hf3).
  assert (state_at (dx * bs, dy * bs) st' = Some s') as Hat.
  { unfold state_at. change (dx * bs, dy * bs) with (local_key bs (dx, dy)).
    rewrite Hr. simpl. done. }
  exists s'. split; [done|]. split; [|done].
  unfold state_of_anchor.
  destruct Hok as (_ & Hm & _).
  assert (settings st' = cfg) as Es by (by rewrite Hfr).
  rewrite Es in Hm. fold n bs in Hm. rewrite Hm.
  replace (coordinates.1 + dx * bs, coordinates.2 + dy * bs)
    with (world_key bs coordinates (dx, dy))
    by (unfold world_key; simpl; f_equal; lia).
  rewrite (get_fmap_entries (world_key bs coordinates) (local_key bs)).
  - simpl. done.
  - intros a1 a2 _ _. by apply world_key_inj.
  - done.
Qed.

(** *** Monotone flags *)


(** *** The coarse-DEM patch *)

(** C8 (amended).  In every reachable generator
    [querry_low_res_dem (X, Y)] returns the slice
    [p - P_c : p + T_c + P_c] of each axis of the coarse DEM, where
    [T_c = int(block_size / source_resolution)] and the centre pixel is
    [p = int(X / source_resolution + cx)], the sum truncated toward
    zero (and likewise for [Y]): the floor of the sum when the sum is
    not negative, its ceiling when it is not positive, whatever the
    sign of the anchor. *)
Theorem C8_patch_centre_truncates dem cfg st X Y :
  block_size cfg ≠ 0 →
  reachable dem cfg st →
  let sr := source_resolution cfg in
  let pad := interpolation_padding cfg in
  let cx := Np.shape0 dem `div` 2 in
  let cy := Np.shape1 dem `div` 2 in
  let p0 := py_int (inject_Z X / sr + inject_Z cx)%Q in
  let p1 := py_int (inject_Z Y / sr + inject_Z cy)%Q in
  querry_low_res_dem (X, Y) st
  = Ok (Np.crop dem
          (Np.slice (Np.shape0 dem) (Some (p0 - pad))
             (Some (p0 + lr_dem_block_size st + pad)))
          (Np.slice (Np.shape1 dem) (Some (p1 - pad))
             (Some (p1 + lr_dem_block_size st + pad)))) ∧
  (∃ b, true_div (inject_Z (block_size cfg)) sr = Ok b ∧
        lr_dem_block_size st = py_int b) ∧
  ((0 <= inject_Z X / sr + inject_Z cx)%Q →
   p0 = Qfloor (inject_Z X / sr + inject_Z cx)%Q) ∧
  ((inject_Z X / sr + inject_Z cx <= 0)%Q →
   p0 = Qceiling (inject_Z X / sr + inject_Z cx)%Q) ∧
  ((0 <= inject_Z Y / sr + inject_Z cy)%Q →
   p1 = Qfloor (inject_Z Y / sr + inject_Z cy)%Q) ∧
  ((inject_Z Y / sr + inject_Z cy <= 0)%Q →
   p1 = Qceiling (inject_Z Y / sr + inject_Z cy)%Q).
Proof.
  intros Hbs Hreach sr pad cx cy p0 p1.
  destruct (reachable_inv dem cfg st Hbs Hreach)
    as (Hs & Hd & _ & Hoff & b & Hb & Hsz).
  apply true_div_inv in Hb as Hsr. destruct Hsr as [Hsr _].
  assert (querry_low_res_dem (X, Y) st
          = Ok (Np.crop dem
                  (Np.slice (Np.shape0 dem) (Some (p0 - pad))
                     (Some (p0 + lr_dem_block_size st + pad)))
                  (Np.slice (Np.shape1 dem) (Some (p1 - pad))
                     (Some (p1 + lr_dem_block_size st + pad))))) as Hq.
  { unfold querry_low_res_dem. rewrite Hs, Hd, Hoff. simpl.
    fold sr. rewrite !(true_div_Ok _ sr Hsr). done. }
  split; [done|]. split; [eauto|].
  split; [apply py_int_nonneg|]. split; [apply py_int_nonpos|].
  split; [apply py_int_nonneg|apply py_int_nonpos].
Qed.
End grid_properties.

(** ** The shape of the raster buffer *)

Section raster_shape.
Context `{CraterGen}.
Import HighResDEMGenCfg HighResDEMGen.

Lemma iadd_square S a rs cs v a' :
  Np.rect S S a → Np.iadd a rs cs v = Ok a' → Np.rect S S a'.
Proof.
  intros Ha. pose proof (rect_nonneg _ _ _ Ha) as HS. unfold Np.iadd.
  destruct (_ && _); [|done]. intros [= <-].
  rewrite (rect_square_shape1 S a Ha), (proj1 Ha). by apply rect_tabulate.
Qed.

Lemma collect_one_square S offset flag coords data st st' :
  Np.rect S S (high_res_dem st) →
  collect_one offset flag coords data st = Ok st' →
  Np.rect S S (high_res_dem st').
Proof.
  intros Ha. unfold collect_one.
  intros ([x_c y_c] & _ & Hrest)%bind_Ok.
  apply bind_Ok in Hrest as (x0 & _ & (x1 & _ & (y0 & _ & (y1 & _ & Hrest)%bind_Ok)%bind_Ok)%bind_Ok).
  apply bind_Ok in Hrest as (dem & Hdem & (r & _ & Hset)%bind_Ok).
  apply (setattr_spec (λ _ _, True)) in Hset as [-> _]; [|done..].
  simpl. by eapply iadd_square.
Qed.

Lemma collect_terrain_data_square S cr tr st st' :
  Np.rect S S (high_res_dem st) →
  collect_terrain_data cr tr st = Ok st' →
  Np.rect S S (high_res_dem st').
Proof.
  intros Ha. unfold collect_terrain_data.
  intros (off & _ & (st1 & Hc & Ht)%bind_Ok)%bind_Ok.
  assert (Np.rect S S (high_res_dem st1)) as Ha1.
  { revert Hc. apply (for_each_inv (λ stx, Np.rect S S (high_res_dem stx))); [done|].
    intros [coords data] stx sty _ Hx. by apply collect_one_square. }
  revert Ht. apply (for_each_inv (λ stx, Np.rect S S (high_res_dem stx))); [done|].
  intros [coords data] stx sty _ Hx. by apply collect_one_square.
Qed.

(** The raster buffer of a reachable generator is square, of side
    [S = int((2 * num_blocks + 3) * block_size / resolution)]. *)
Lemma reachable_raster_square dem cfg st :
  reachable dem cfg st →
  ∃ side,
    true_div (inject_Z ((num_blocks cfg * 2 + 3) * block_size cfg))
      (resolution cfg) = Ok side ∧
    settings st = cfg ∧
    Np.rect (py_int side) (py_int side) (high_res_dem st).
Proof.
  induction 1 as [db st Hinit|o st st' _ (side & Hside & Hs & Ha) Hrun].
  - unfold init in Hinit.
    apply bind_Ok in Hinit as (st1 & H1 & (st2 & H2 & H3)%bind_Ok).
    assert (settings st1 = cfg) as Hs1.
    { revert H1. unfold build_block_grid. rewrite for_each_nested.
      apply (for_each_inv (λ stx, settings stx = cfg)); [done|].
      intros [x y] stx sty _ Hx. unfold build_block_cell. simpl.
      intros (r & _ & (stz & Hset & [= <-])%bind_Ok)%bind_Ok.
      apply (setattr_spec (λ _ _, True)) in Hset as [-> _]; done. }
    unfold instantiate_high_res_dem in H2.
    apply bind_Ok in H2 as (side & Hside & (d & Hd & [= <-])%bind_Ok).
    unfold get_low_res_dem_offset in H3.
    apply bind_Ok in H3 as (ratio & _ & (b & _ & [= <-])%bind_Ok).
    rewrite Hs1 in Hside. exists side. simpl. do 2 (split; [done|]).
    unfold Np.zeros in Hd.
    destruct (Z.ltb_spec (py_int side) 0); simpl in Hd; [done|].
    injection Hd as <-. by apply rect_tabulate.
  - exists side. split; [done|].
    destruct o as [coordinates taken| |cr tr]; simpl in Hrun.
    + apply shift_unfold in Hrun
        as (nb & ps & st1 & st2 & st3 & _ & H1 & H2 & H3 & H4).
      assert (settings st1 = settings st ∧ high_res_dem st1 = high_res_dem st)
        as [Es1 Ed1].
      { revert H1. unfold shift_block_grid.
        intros ([[sta nt] nm] & Hloop & [= <-])%bind_Ok. simpl.
        revert Hloop. rewrite for_each_nested.
        apply (for_each_inv
                 (λ acc : shift_acc,
                    settings acc.1.1 = settings st ∧
                    high_res_dem acc.1.1 = high_res_dem st)); [done|].
        intros [x y] [[stx ntx] nmx] [[sty nty] nmy] _ [Hx1 Hx2].
        unfold shift_block_cell. simpl.
        intros ([stz ntz] & Hz & (r & _ & (stw & Hset & [= <- _ _])%bind_Ok)%bind_Ok)%bind_Ok.
        apply (setattr_spec (λ _ _, True)) in Hset as [-> _]; [|done..].
        simpl. destruct (negb _).
        - injection Hz as <- _. done.
        - apply bind_Ok in Hz as (l2 & _ & (r2 & _ & [= <- _])%bind_Ok).
          done. }
      rewrite <- Ed1 in Ha.
      destruct ps as [px py].
      destruct (shift_dem_spec _ st1 px py Ha) as (dem' & H2' & Ha2 & _).
      rewrite H2 in H2'. injection H2' as ->.
      apply generate_terrain_blocks_frame in H4.
      apply (generate_craters_metadata_spec (λ _ _, True)) in H3 as [H3 _];
        [|done..].
      rewrite H4, H3. simpl. split; [congruence|done].
    + apply (generate_craters_metadata_spec (λ _ _, True)) in Hrun as [-> _];
        [|done..].
      by simpl.
    + split.
      * apply collect_terrain_data_spec in Hrun as [-> _]. by simpl.
      * by eapply collect_terrain_data_square.
Qed.
End raster_shape.

(** * Further properties *)

(** ** [ScopedTimer] *)

Lemma land_ones_8 a : Z.land a 0xFF = a mod 2 ^ 8.
Proof. change 0xFF with (Z.ones 8). by rewrite Z.land_ones. Qed.

(** X1. For a 32-bit ARGB value [argb_to_rgb] returns [(0, alpha, red)]:
    the first component is 0, the second the alpha byte and the third
    the red byte; the green and blue bytes of the argument do not
    reach the result. *)
Theorem X1_argb_to_rgb_drops_green_and_blue (argb : Z) :
  0 ≤ argb < 2 ^ 32 →
  ScopedTimer.argb_to_rgb argb
  = (0, argb `div` 2 ^ 24, (argb `div` 2 ^ 16) `mod` 2 ^ 8).
Proof.
  intros Hr. unfold ScopedTimer.argb_to_rgb.
  change 0xFFFFFF with (Z.ones 24). rewrite !land_ones_8, Z.land_ones by lia.
  rewrite !Z.shiftr_div_pow2 by lia.
  assert (0 ≤ argb `div` 2 ^ 16 < 2 ^ 16) as H16.
  { split; [apply Z.div_pos; lia|]. apply Z.div_lt_upper_bound; lia. }
  rewrite (Z.mod_small (argb `div` 2 ^ 16) (2 ^ 24)) by lia.
  assert ((argb `div` 2 ^ 16) `div` 2 ^ 16 = 0) as ->.
  { apply Z.div_small. lia. }
  assert (((argb `div` 2 ^ 16) `div` 2 ^ 8) `mod` 2 ^ 8 = argb `div` 2 ^ 24)
    as ->; [|done].
  rewrite Z.div_div by lia. change (2 ^ 16 * 2 ^ 8) with (2 ^ 24).
  apply Z.mod_small.
  split; [apply Z.div_pos; lia|]. apply Z.div_lt_upper_bound; lia.
Qed.

Section timer.
Import ScopedTimer.

Lemma block_induction (P : block → Prop) :
  (∀ name active argb t0 t1 body,
     Forall P body → P (With name active argb t0 t1 body)) →
  ∀ b, P b.
Proof.
  intros HP. fix IH 1. intros [name active argb t0 t1 body].
  apply HP. induction body as [|b bs IHbs]; constructor.
  - apply IH.
  - apply IHbs.
Qed.

(** Inside a running timer a block only pushes its lines. *)
Lemma run_nested b :
  ∀ level msgs out, 1 ≤ level →
    run b (World (Local (Some level) (Some msgs)) out)
    = Some (World (Local (Some level) (Some (report level b ++ msgs))) out).
Proof.
  induction b as [name act argb t0 t1 body IH] using block_induction.
  assert (∀ level msgs out, 1 ≤ level →
            run_seq run body (World (Local (Some level) (Some msgs)) out)
            = Some (World (Local (Some level)
                             (Some (concat (rev (map (report level) body)) ++ msgs)))
                      out)) as Hbody.
  { induction IH as [|b bs Hb _ IHbs]; intros level msgs out Hl; [done|].
    simpl. rewrite Hb by done. simpl. rewrite IHbs by done.
    rewrite concat_app. simpl. by rewrite app_nil_r, <- app_assoc. }
  intros level msgs out Hl. simpl. unfold enter, init. simpl.
  destruct act; simpl.
  - rewrite Hbody by lia. simpl. unfold exit. simpl.
    replace (level + 1 - 1) with level by lia.
    destruct (Z.eqb_spec level 0) as [->|_]; [lia|].
    rewrite (Z.max_r 0 level) by lia. change (Z.max 0 2) with 2. done.
  - rewrite Hbody by lia. done.
Qed.
End timer.

Section timer_props.
Import ScopedTimer.

(** X2. An outermost active [ScopedTimer] block, run on a thread where
    no timer is running, prints exactly its own line followed by the
    lines of the blocks nested in it, the block that exited last
    first ([report]), and leaves the nesting level at 0 and the
    message list empty. *)
Theorem X2_outermost_timer_prints_mirrored name argb t0 t1 body tl out :
  idle tl →
  run (With name true argb t0 t1 body) (World tl out)
  = Some (World (Local (Some 0) (Some []))
            (out ++ report 0 (With name true argb t0 t1 body))).
Proof.
  intros [Hl Hm].
  assert (default 0 (nesting_level tl) = 0) as Hl0.
  { by destruct Hl as [-> | ->]. }
  assert (default [] (messages tl) = []) as Hm0.
  { by destruct Hm as [-> | ->]. }
  assert (∀ level msgs out, 1 ≤ level →
            run_seq run body (World (Local (Some level) (Some msgs)) out)
            = Some (World (Local (Some level)
                             (Some (concat (rev (map (report level) body)) ++ msgs)))
                      out)) as Hbody.
  { clear. induction body as [|b bs IHbs]; intros level msgs out Hl; [done|].
    simpl. rewrite run_nested by done. simpl. rewrite IHbs by done.
    rewrite concat_app. simpl. by rewrite app_nil_r, <- app_assoc. }
  simpl. unfold enter, init. simpl. rewrite Hl0, Hm0. simpl.
  rewrite Hbody by lia. simpl. unfold exit. simpl.
  by rewrite app_nil_r.
Qed.
End timer_props.

(** ** InterpolatorCfg *)

Lemma Qeq_bool_false (a b : Q) : Qeq_bool a b = false ↔ ¬ (a == b)%Q.
Proof.
  split.
  - intros Hf He. apply Qeq_bool_iff in He. congruence.
  - intros Hn. destruct (Qeq_bool a b) eqn:E; [|done].
    by apply Qeq_bool_iff in E.
Qed.

Lemma recognized_cases (m : string) :
  InterpolatorCfg.recognized m ↔
  String.eqb (str_lower m) "bicubic" || String.eqb (str_lower m) "nearest"
  || String.eqb (str_lower m) "linear" || String.eqb (str_lower m) "area" = true.
Proof.
  unfold InterpolatorCfg.recognized. simpl.
  rewrite !orb_true_iff, !String.eqb_eq. tauto.
Qed.

(** X3. [InterpolatorCfg.__post_init__] raises [ZeroDivisionError]
    exactly when [target_resolution] is 0, whatever the method; it
    raises [ValueError] exactly when [target_resolution] is not 0 and
    the lower-cased method is none of bicubic, nearest, linear and
    area; and it returns exactly in the remaining case. *)
Theorem X3_post_init_outcome (sr tr : Q) (sp : Z) (m : string) :
  (InterpolatorCfg.post_init sr tr sp m = Raise ZeroDivisionError
   ↔ (tr == 0)%Q) ∧
  (InterpolatorCfg.post_init sr tr sp m = Raise ValueError
   ↔ ¬ (tr == 0)%Q ∧ ¬ InterpolatorCfg.recognized m) ∧
  ((∃ cfg w, InterpolatorCfg.post_init sr tr sp m = Ok (cfg, w))
   ↔ ¬ (tr == 0)%Q ∧ InterpolatorCfg.recognized m).
Proof.
  rewrite recognized_cases.
  unfold InterpolatorCfg.post_init, true_div.
  destruct (Qeq_bool tr 0) eqn:Hz; simpl.
  - apply Qeq_bool_iff in Hz.
    split; [done|]. split; [split; [done|tauto]|].
    split; [by intros (? & ? & ?)|tauto].
  - apply Qeq_bool_false in Hz.
    destruct (sp <? 2);
      destruct (String.eqb (str_lower m) "bicubic");
      destruct (String.eqb (str_lower m) "nearest");
      destruct (String.eqb (str_lower m) "linear");
      destruct (String.eqb (str_lower m) "area"); simpl;
      (split; [split; [done|tauto]|]);
      (split; [split; [intros [=]; by split|intros [_ Hn]; done || by destruct Hn]|]);
      (split; [intros (? & ? & [=]); by split|(intros _; by eexists _, _) || intros [_ [=]]]).
Qed.

Lemma Qltb_lt (a b : Q) : Qltb a b = true ↔ (a < b)%Q.
Proof.
  unfold Qltb. rewrite negb_true_iff. split.
  - intros Hf. apply Qnot_le_lt. intros Hle%Qle_bool_iff. congruence.
  - intros Hlt. destruct (Qle_bool b a) eqn:E; [|done].
    apply Qle_bool_iff in E. by apply Qlt_not_le in Hlt.
Qed.

(** X4. With a recognized method, a non-zero target resolution and
    [source_padding >= 2], [__post_init__] keeps the padding, sets
    [fx = fy = source_resolution / target_resolution], stores as
    [target_padding] the number of pixels [CPUInterpolator.interpolate]
    trims at the leading edge, whose negation is the trailing slice
    bound, and prints no padding warning. *)
Theorem X4_post_init_keeps_large_padding (sr tr : Q) (sp : Z) (m : string) :
  InterpolatorCfg.recognized m → 2 ≤ sp → ¬ (tr == 0)%Q →
  ∃ cfg w,
    InterpolatorCfg.post_init sr tr sp m = Ok (cfg, w) ∧
    InterpolatorCfg.source_padding cfg = sp ∧
    InterpolatorCfg.fx cfg = (sr / tr)%Q ∧
    InterpolatorCfg.fy cfg = (sr / tr)%Q ∧
    InterpolatorCfg.target_padding cfg = CPUInterpolator.trim_lo cfg ∧
    CPUInterpolator.trim_hi cfg = - InterpolatorCfg.target_padding cfg ∧
    PaddingTooSmall ∉ w.
Proof.
  intros Hm%recognized_cases Hsp Htr.
  unfold InterpolatorCfg.post_init. rewrite (true_div_Ok _ _ Htr). simpl.
  rewrite (proj2 (Z.ltb_ge sp 2)) by lia.
  destruct (String.eqb (str_lower m) "bicubic");
    [|destruct (String.eqb (str_lower m) "nearest");
      [|destruct (String.eqb (str_lower m) "linear");
        [|destruct (String.eqb (str_lower m) "area"); [|done]]]];
    eexists _, _; (split; [reflexivity|]); simpl;
    do 5 (split; [done|]);
    try destruct (Qltb _ _); intros Hin;
    repeat (apply elem_of_cons in Hin as [Hin|Hin]; [discriminate|]);
    by apply elem_of_nil in Hin.
Qed.

(** X5. What [__post_init__] prints and stores when it returns: the
    padding warning iff [source_padding < 2]; the bicubic warning iff
    the method is bicubic and [fx < 1]; the area warning iff the method
    is area and [fx > 1]; and the [cv2] flag of the lower-cased method
    name. *)
Theorem X5_post_init_warnings (sr tr : Q) (sp : Z) (m : string) cfg w :
  InterpolatorCfg.post_init sr tr sp m = Ok (cfg, w) →
  (PaddingTooSmall ∈ w ↔ sp < 2) ∧
  (BicubicDownscaling ∈ w
   ↔ str_lower m = "bicubic"%string ∧ (InterpolatorCfg.fx cfg < 1)%Q) ∧
  (AreaUpscaling ∈ w
   ↔ str_lower m = "area"%string ∧ (1 < InterpolatorCfg.fx cfg)%Q) ∧
  InterpolatorCfg.method cfg
  = (if String.eqb (str_lower m) "bicubic" then INTER_CUBIC
     else if String.eqb (str_lower m) "nearest" then INTER_NEAREST
     else if String.eqb (str_lower m) "linear" then INTER_LINEAR
     else INTER_AREA).
Proof.
  unfold InterpolatorCfg.post_init.
  intros (fx & Hfx & (fy & Hfy & Hrest)%bind_Ok)%bind_Ok.
  apply true_div_inv in Hfx as [_ ->]. apply true_div_inv in Hfy as [_ ->].
  set (q := (sr / tr)%Q) in *. clearbody q.
  pose proof (Qltb_lt q 1) as Hq1. pose proof (Qltb_lt 1 q) as Hq2.
  assert (∀ x : warning, x ∈ [] ↔ False) as Hnil.
  { intros x. by rewrite elem_of_nil. }
  destruct (Z.ltb_spec sp 2) as [Hsp|Hsp];
    destruct (String.eqb_spec (str_lower m) "bicubic") as [Eb|Eb];
    try rewrite Eb in *; simpl in Hrest;
    try (destruct (String.eqb_spec (str_lower m) "nearest") as [En|En];
         try rewrite En in *; simpl in Hrest;
         try (destruct (String.eqb_spec (str_lower m) "linear") as [El|El];
              try rewrite El in *; simpl in Hrest;
              try (destruct (String.eqb_spec (str_lower m) "area") as [Ea|Ea];
                   try rewrite Ea in *; simpl in Hrest; [|done])));
    destruct (Qltb q 1); destruct (Qltb 1 q);
    injection Hrest as <- <-; simpl;
    rewrite ?elem_of_cons, ?Hnil;
    (split; [|split; [|split; [|done]]]);
    intuition (try discriminate; try lia; try done).
Qed.

(** ** CPUInterpolator *)

Section interp_props.
Context `{Cv2}.

(** X6. When [int(source_padding * fy)] is 0 the trailing slice bound
    [-0] is 0: whenever [cv2.resize] returns, whatever array it returns,
    [CPUInterpolator.interpolate] returns an empty array; when
    [cv2.resize] raises, [interpolate] raises the same. *)
Theorem X6_interpolate_zero_trim_is_empty (settings : InterpolatorCfg.t)
    (data : Np.ndarray) :
  CPUInterpolator.trim_hi settings = 0 →
  CPUInterpolator.interpolate settings data
  = cv2_resize data (InterpolatorCfg.fx settings)
      (InterpolatorCfg.fy settings) (InterpolatorCfg.method settings)
    ≫= λ _, Ok [].
Proof.
  intros Hhi. unfold CPUInterpolator.interpolate. rewrite Hhi.
  destruct (cv2_resize _ _ _ _) as [r|e]; [|done]. simpl. f_equal.
  pose proof (shape0_nonneg r) as Hr0.
  unfold Np.crop, Np.tabulate.
  assert (Np.span_len
            (Np.slice (Np.shape0 r) (Some (CPUInterpolator.trim_lo settings))
               (Some 0)) = 0) as ->; [|done].
  unfold Np.span_len, Np.slice, Np.slice_bound. simpl.
  destruct (CPUInterpolator.trim_lo settings <? 0); lia.
Qed.

(** X7. When [cv2.resize] returns an [R x C] array and the trim
    [p = int(source_padding * fx) = int(source_padding * fy)] is
    positive with [2 * p <= R] and [2 * p <= C], [interpolate] returns
    the [(R - 2 * p) x (C - 2 * p)] array whose element [(i, j)] is
    element [(i + p, j + p)] of the resized array. *)
Theorem X7_interpolate_trims_each_edge (settings : InterpolatorCfg.t)
    (data r : Np.ndarray) (R C p : Z) :
  cv2_resize data (InterpolatorCfg.fx settings)
    (InterpolatorCfg.fy settings) (InterpolatorCfg.method settings) = Ok r →
  Np.rect R C r →
  CPUInterpolator.trim_lo settings = p →
  CPUInterpolator.trim_hi settings = - p →
  0 < p → 2 * p ≤ R → 2 * p ≤ C →
  ∃ out,
    CPUInterpolator.interpolate settings data = Ok out ∧
    Np.rect (R - 2 * p) (C - 2 * p) out ∧
    ∀ i j, 0 ≤ i < R - 2 * p → 0 ≤ j < C - 2 * p →
      Np.get out i j = Np.get r (i + p) (j + p).
Proof.
  intros Hr Hrect Hlo Hhi Hp HR HC.
  assert (Np.shape0 r = R) as E0 by apply Hrect.
  assert (Np.shape1 r = C) as E1 by (apply (rect_shape1 R); [done|lia]).
  exists (trim_edges p r). split.
  - apply interpolate_trim_edges; try done; lia.
  - unfold trim_edges. rewrite E0, E1. split.
    + apply rect_tabulate; lia.
    + intros i j Hi Hj. by rewrite get_tabulate.
Qed.
End interp_props.

(** ** The dispatcher and the workers *)

Section pool_props.
Context {P : Type}.
Import BaseWorkerManager.

Lemma load_lookup (m : t P) i w :
  workers m !! i = Some w → load m i = BaseWorker.get_input_queue_length w.
Proof. unfold load. by intros ->. Qed.

(** X8. When the workers have a common queue bound, the dispatcher
    blocks in [put] only if every worker's queue is full: the queue it
    picked is a shortest one. *)
Theorem X8_dispatch_blocks_only_when_all_full (m : t P) (i : nat) (q : Z) :
  CraterBuilderManager.dispatch_jobs m = Ok (AwaitRoom i) →
  (∀ w, w ∈ workers m → BaseWorker.queue_size w = q) →
  ∀ w, w ∈ workers m → BaseWorker.is_input_queue_full w = true.
Proof.
  unfold CraterBuilderManager.dispatch_jobs.
  destruct (input_queue m) as [|[coords [d|]] rest]; [done| |done].
  intros (i0 & Hi & Hrest)%bind_Ok Hq w Hw.
  apply get_shortest_queue_index_spec in Hi as (_ & Hmin & _).
  destruct (workers m !! i0) as [w0|] eqn:Hw0; [|done].
  destruct (BaseWorker.is_input_queue_full w0) eqn:Hfull; [|done].
  apply list_elem_of_lookup in Hw as [j Hj].
  specialize (Hmin j (lookup_lt_Some _ _ _ Hj)).
  rewrite (load_lookup _ _ _ Hw0), (load_lookup _ _ _ Hj) in Hmin.
  unfold BaseWorker.is_input_queue_full in *.
  rewrite (Hq w0 (list_elem_of_lookup_2 _ _ _ Hw0)) in Hfull.
  rewrite (Hq w (list_elem_of_lookup_2 _ _ _ Hj)).
  apply andb_true_iff in Hfull as [H1 H2]. apply andb_true_iff. lia.
Qed.

(** X9. One turn of [dispatch_jobs] raises only [ValueError], and does
    so exactly when a job is waiting in the intake and the manager has
    no workers ([min] of an empty range); indexing the worker list
    never fails. *)
Theorem X9_dispatch_raises_only_without_workers (m : t P) (e : exn) :
  CraterBuilderManager.dispatch_jobs m = Raise e ↔
  e = ValueError ∧ workers m = [] ∧
  ∃ coords data rest, input_queue m = (coords, Some data) :: rest.
Proof.
  unfold CraterBuilderManager.dispatch_jobs. split.
  - destruct (input_queue m) as [|[coords [d|]] rest]; [done| |done].
    destruct (decide (workers m = [])) as [Hws|Hws].
    + unfold get_shortest_queue_index. rewrite Hws. simpl.
      intros [= <-]. eauto 10.
    + destruct (get_shortest_queue_index_total m Hws) as [i Hi].
      rewrite Hi. simpl.
      apply get_shortest_queue_index_spec in Hi as (Hlt & _).
      destruct (lookup_lt_is_Some_2 (workers m) i Hlt) as [w Hw].
      rewrite Hw. by destruct (BaseWorker.is_input_queue_full w).
  - intros (-> & Hws & coords & data & rest & ->).
    unfold get_shortest_queue_index. by rewrite Hws.
Qed.
End pool_props.

Section worker_props.
Context {P R : Type}.

Lemma queue_full_false {A} (size : Z) (q : list A) :
  size ≤ 0 ∨ Z.of_nat (length q) < size → queue_full size q = false.
Proof. unfold queue_full. intros. apply andb_false_iff. lia. Qed.

Lemma worker_run_app (kernel : coord → P → result R) (f : coord → P → R)
    size jobs rest out :
  (∀ j, j ∈ jobs → kernel j.1 j.2 = Ok (f j.1 j.2)) →
  size ≤ 0 ∨ Z.of_nat (length out + length jobs) ≤ size →
  worker_run kernel size (submit jobs ++ rest) out
  = worker_run kernel size rest
      (out ++ ((λ j, (j.1, f j.1 j.2)) <$> jobs)).
Proof.
  revert out. induction jobs as [|[c d] jobs IH]; intros out Hk Hsize; simpl.
  - by rewrite app_nil_r.
  - pose proof (Hk (c, d) ltac:(by left)) as Hcd. simpl in Hcd.
    rewrite Hcd.
    rewrite queue_full_false by (simpl in Hsize; lia).
    rewrite IH, <- app_assoc; [done| |].
    + intros j Hj. apply Hk. by right.
    + rewrite length_app. simpl in *. lia.
Qed.

(** X10. A worker's [run] loop handles its queue first-in first-out:
    when the kernel returns on every job and the output queue has
    room, the results are appended to it in job order, each under the
    coordinates of its job; after the last job the loop waits for
    input, at a shutdown signal it stops, leaving what follows the
    signal in the queue, and at a job on which the kernel raises it
    ends with the results of the earlier jobs delivered. *)
Theorem X10_worker_run_is_fifo (kernel : coord → P → result R)
    (f : coord → P → R) (size : Z)
    (jobs : list (coord * P)) (out : list (coord * R)) :
  (∀ j, j ∈ jobs → kernel j.1 j.2 = Ok (f j.1 j.2)) →
  size ≤ 0 ∨ Z.of_nat (length out + length jobs) ≤ size →
  let results := (λ j, (j.1, f j.1 j.2)) <$> jobs in
  worker_run kernel size (submit jobs) out = (AwaitsInput, [], out ++ results) ∧
  (∀ coords rest,
     worker_run kernel size (submit jobs ++ (coords, None) :: rest) out
     = (SawSentinel, rest, out ++ results)) ∧
  (∀ coords data e rest,
     kernel coords data = Raise e →
     worker_run kernel size (submit jobs ++ (coords, Some data) :: rest) out
     = (KernelRaised e, rest, out ++ results)).
Proof.
  intros Hk Hsize results. split; [|split].
  - rewrite <- (app_nil_r (submit jobs)). by rewrite (worker_run_app _ f).
  - intros coords rest. by rewrite (worker_run_app _ f).
  - intros coords data e rest He. rewrite (worker_run_app _ f) by done.
    simpl. by rewrite He.
Qed.
End worker_props.

Section run_props.
Context {P : Type}.
Import BaseWorkerManager.

Lemma dispatch_routed_inv (m m' : t P) i :
  CraterBuilderManager.dispatch_jobs m = Ok (Routed i m') →
  ∃ coords data rest w,
    input_queue m = (coords, Some data) :: rest ∧
    workers m !! i = Some w ∧
    BaseWorker.is_input_queue_full w = false ∧
    m' = Build rest (input_queue_size m)
           (<[i := BaseWorker.put (coords, Some data) w]> (workers m)) ∧
    first_argmin (load m) (length (workers m)) i.
Proof.
  unfold CraterBuilderManager.dispatch_jobs.
  destruct (input_queue m) as [|[coords [d|]] rest]; [done| |done].
  intros (i0 & Hi & Hrest)%bind_Ok.
  destruct (workers m !! i0) as [w|] eqn:Hw; [|done].
  destruct (BaseWorker.is_input_queue_full w) eqn:Hfull; [done|].
  injection Hrest as <- <-.
  apply get_shortest_queue_index_spec in Hi. eauto 10.
Qed.

Lemma concat_insert_app {A} (l : list (list A)) i x y :
  l !! i = Some x → concat (<[i := x ++ y]> l) ≡ₚ concat l ++ y.
Proof.
  revert i. induction l as [|z l IH]; intros [|i] Hl; simplify_eq/=.
  - rewrite <- !app_assoc. f_equiv. apply Permutation_app_comm.
  - rewrite IH by done. by rewrite app_assoc.
Qed.

Lemma queues_grow_refl (ws : list (BaseWorker.t P)) : queues_grow ws ws.
Proof. split; [done|]. intros i w Hw. exists w. eauto. Qed.

Lemma queues_grow_trans (ws1 ws2 ws3 : list (BaseWorker.t P)) :
  queues_grow ws1 ws2 → queues_grow ws2 ws3 → queues_grow ws1 ws3.
Proof.
  intros [L12 H12] [L23 H23]. split; [congruence|].
  intros i w1 Hw1. destruct (H12 i w1 Hw1) as (w2 & Hw2 & Hq2 & Hp2).
  destruct (H23 i w2 Hw2) as (w3 & Hw3 & Hq3 & Hp3).
  exists w3. split; [done|]. split; [congruence|]. by etrans.
Qed.

Lemma queues_grow_put (ws : list (BaseWorker.t P)) i w j :
  ws !! i = Some w → queues_grow ws (<[i := BaseWorker.put j w]> ws).
Proof.
  intros Hw. split; [by rewrite length_insert|].
  intros i' w' Hw'. destruct (decide (i' = i)) as [->|Hne].
  - rewrite list_lookup_insert_eq by (by eapply lookup_lt_Some).
    simplify_eq. eexists. split; [done|]. split; [done|].
    simpl. by apply prefix_app_r.
  - rewrite list_lookup_insert_ne by done. exists w'. eauto.
Qed.

(** X11. A run of the dispatcher loop neither loses nor duplicates a
    job: what it took from the intake is a prefix of real jobs, followed
    by the shutdown signal exactly when the loop stopped at it; the
    jobs queued at the workers afterwards are those queued before
    together with the routed ones; and every worker keeps its queue
    bound and its old queue as a prefix of its new one. *)
Theorem X11_dispatch_run_conserves_jobs (turns : nat) (m : t P)
    (e : dispatch_end (t P)) :
  dispatch_run turns m = Ok e →
  ∃ routed gone,
    input_queue m = routed ++ gone ++ input_queue (final_manager e) ∧
    ((gone = [] ∧ ∀ m', e ≠ Stops m') ∨
     (∃ coords, gone = [(coords, None)]) ∧ e = Stops (final_manager e)) ∧
    Forall (λ j, is_Some j.2) routed ∧
    queued (final_manager e) ≡ₚ queued m ++ routed ∧
    queues_grow (workers m) (workers (final_manager e)).
Proof.
  revert m. induction turns as [|turns IH]; intros m; simpl.
  { intros [= <-]. exists [], []. simpl.
    split; [done|]. split; [by left|]. split; [constructor|].
    split; [by rewrite app_nil_r|apply queues_grow_refl]. }
  intros (turn & Hturn & Hrest)%bind_Ok.
  destruct turn as [|m'|i m'|i].
  - injection Hrest as <-. exists [], []. simpl.
    split; [done|]. split; [by left|]. split; [constructor|].
    split; [by rewrite app_nil_r|apply queues_grow_refl].
  - injection Hrest as <-. simpl.
    unfold CraterBuilderManager.dispatch_jobs in Hturn.
    destruct (input_queue m) as [|[coords [d|]] rest] eqn:Hq; [done| |].
    { apply bind_Ok in Hturn as (i & _ & Hturn).
      destruct (workers m !! i); [|done].
      by destruct (BaseWorker.is_input_queue_full _). }
    injection Hturn as <-. exists [], [(coords, None)]. simpl.
    split; [done|]. split; [right; eauto|]. split; [constructor|].
    split; [by rewrite app_nil_r|apply queues_grow_refl].
  - apply dispatch_routed_inv in Hturn
      as (coords & data & rest & w & Hq & Hw & _ & -> & _).
    destruct (IH _ Hrest) as (routed & gone & Hin & Hgone & Hall & Hperm & Hgrow).
    simpl in *. exists ((coords, Some data) :: routed), gone.
    split; [by rewrite Hq, Hin|]. split; [done|].
    split; [constructor; [by eexists|done]|]. split.
    + rewrite Hperm. unfold queued. simpl.
      rewrite list_fmap_insert. unfold BaseWorker.put at 1. simpl.
      rewrite concat_insert_app by (by rewrite list_lookup_fmap, Hw).
      rewrite <- app_assoc. done.
    + eapply queues_grow_trans; [|done]. by apply queues_grow_put.
  - injection Hrest as <-. exists [], []. simpl.
    split; [done|]. split; [by left|]. split; [constructor|].
    split; [by rewrite app_nil_r|apply queues_grow_refl].
Qed.
End run_props.

Section round_robin.
Context {P : Type}.
Import BaseWorkerManager.

(** The length of a worker's queue after [K] jobs were dealt one by
    one to [N] workers in turn. *)
Lemma dealt_spec (N K I : Z) :
  0 < N → 0 ≤ K → 0 ≤ I < N →
  (K + N - 1 - I) `div` N = K `div` N + (if I <? K `mod` N then 1 else 0).
Proof.
  intros HN HK HI.
  pose proof (Z.div_mod K N ltac:(lia)) as Hdm.
  pose proof (Z.mod_pos_bound K N HN) as Hb.
  destruct (Z.ltb_spec I (K `mod` N)).
  - symmetry. apply (Z.div_unique _ _ _ (K `mod` N - 1 - I)); lia.
  - symmetry. apply (Z.div_unique _ _ _ (K `mod` N + N - 1 - I)); lia.
Qed.

Lemma dealt_step (N q size : Z) jobs done j rest ws :
  0 < N → (q ≤ 0 ∨ Z.of_nat (length jobs) ≤ N * q) →
  jobs = done ++ j :: rest →
  dealt (P:=P) N q jobs (length done) ws →
  ∃ i ws',
    CraterBuilderManager.dispatch_jobs (Build (submit (j :: rest)) size ws)
    = Ok (Routed i (Build (submit rest) size ws')) ∧
    dealt (P:=P) N q jobs (length (done ++ [j])) ws'.
Proof.
  intros HN Hcap Hjobs (Hlen & Hq & Hplaced).
  set (K := Z.of_nat (length done)) in *.
  pose proof (Z.mod_pos_bound K N HN) as Hb.
  assert (0 ≤ K) as HK by lia.
  set (b := Z.to_nat (K `mod` N)).
  assert (b < length ws)%nat as Hblt by lia.
  destruct (lookup_lt_is_Some_2 ws b Hblt) as [w Hw].
  destruct (Hq b w Hw) as [Hqw Hlw].
  rewrite dealt_spec in Hlw by lia.
  replace (Z.of_nat b) with (K `mod` N) in Hlw by lia.
  rewrite Z.ltb_irrefl, Z.add_0_r in Hlw.
  set (m := Build (submit (j :: rest)) size ws).
  assert (∀ i, (i < length ws)%nat →
            load m i = K `div` N + (if Z.of_nat i <? K `mod` N then 1 else 0))
    as Hload.
  { intros i Hi. destruct (lookup_lt_is_Some_2 ws i Hi) as [wi Hwi].
    rewrite (load_lookup m i wi Hwi).
    unfold BaseWorker.get_input_queue_length.
    destruct (Hq i wi Hwi) as [_ ->]. apply dealt_spec; lia. }
  destruct (get_shortest_queue_index_total m) as [i Hi].
  { simpl. intros ->. simpl in Hblt. lia. }
  pose proof (get_shortest_queue_index_spec m i Hi) as (Hilt & Hmin & Hfirst).
  simpl in Hilt.
  assert (i = b) as ->.
  { destruct (Nat.lt_trichotomy i b) as [Hlt|[->|Hgt]]; [|done|].
    - specialize (Hmin b Hblt). rewrite !Hload in Hmin by done.
      destruct (Z.ltb_spec (Z.of_nat i) (K `mod` N)); [|lia].
      destruct (Z.ltb_spec (Z.of_nat b) (K `mod` N)); lia.
    - specialize (Hfirst b Hgt). rewrite !Hload in Hfirst by done.
      destruct (Z.ltb_spec (Z.of_nat i) (K `mod` N)); [lia|].
      destruct (Z.ltb_spec (Z.of_nat b) (K `mod` N)); lia. }
  assert (BaseWorker.is_input_queue_full w = false) as Hfull.
  { unfold BaseWorker.is_input_queue_full, BaseWorker.get_input_queue_length.
    rewrite Hqw, Hlw. apply andb_false_iff.
    destruct Hcap as [Hcap|Hcap]; [left; lia|]. right.
    apply Z.leb_gt. apply Z.div_lt_upper_bound; [lia|].
    rewrite Hjobs, length_app in Hcap. simpl in Hcap. lia. }
  exists b, (<[b := BaseWorker.put (j.1, Some j.2) w]> ws).
  split.
  { unfold CraterBuilderManager.dispatch_jobs. simpl. fold m.
    rewrite Hi. simpl. by rewrite Hw, Hfull. }
  rewrite length_app. simpl.
  split; [by rewrite length_insert|]. split.
  - intros i wi Hwi. destruct (decide (i = b)) as [->|Hne].
    + rewrite list_lookup_insert_eq in Hwi by done. injection Hwi as <-.
      simpl. split; [done|]. rewrite length_app. simpl.
      rewrite Nat2Z.inj_add, Hlw.
      replace (Z.of_nat (length done + 1)) with (K + 1) by lia.
      replace (Z.of_nat b) with (K `mod` N) by lia.
      pose proof (Z.div_mod K N ltac:(lia)) as Hdm.
      apply (Z.div_unique _ _ _ 0); lia.
    + rewrite list_lookup_insert_ne in Hwi by done.
      destruct (Hq i wi Hwi) as [-> Hl]. split; [done|].
      replace (Z.of_nat (length done + 1)) with (K + 1) by lia.
      assert (i < length ws)%nat as Hi' by (by eapply lookup_lt_Some).
      pose proof (Z.div_mod K N ltac:(lia)) as Hdm.
      rewrite Hl, dealt_spec by lia.
      destruct (Z.ltb_spec (Z.of_nat i) (K `mod` N)).
      * apply (Z.div_unique _ _ _ (K `mod` N - Z.of_nat i)); lia.
      * apply (Z.div_unique _ _ _ (K `mod` N + N - Z.of_nat i)); lia.
  - intros k' j' Hk' Hj'.
    destruct (decide (k' = length done)) as [->|Hne].
    + rewrite Hjobs, lookup_app_r, Nat.sub_diag in Hj' by lia.
      injection Hj' as <-. fold K. fold b.
      rewrite list_lookup_insert_eq by done. eexists. split; [done|].
      simpl. apply list_lookup_middle. by rewrite <- Hlw, Nat2Z.id.
    + destruct (Hplaced k' j') as (w' & Hw' & Hj''); [lia|done|].
      destruct (decide (Z.to_nat (Z.of_nat k' `mod` N) = b)) as [Heq|Hne'].
      * rewrite Heq in *. rewrite list_lookup_insert_eq by done.
        simplify_eq. eexists. split; [done|]. simpl.
        by apply lookup_app_l_Some.
      * rewrite list_lookup_insert_ne by done. eauto.
Qed.

Lemma dealt_run (N q size : Z) jobs :
  0 < N → (q ≤ 0 ∨ Z.of_nat (length jobs) ≤ N * q) →
  ∀ rest done ws,
    jobs = done ++ rest →
    dealt (P:=P) N q jobs (length done) ws →
    ∃ ws', dispatch_run (S (length rest)) (Build (submit rest) size ws)
           = Ok (Waits (Build [] size ws')) ∧
           dealt (P:=P) N q jobs (length jobs) ws'.
Proof.
  intros HN Hcap rest. induction rest as [|j rest IH]; intros done ws Hj Hd.
  - exists ws. split; [done|]. rewrite app_nil_r in Hj. by subst.
  - destruct (dealt_step N q size jobs done j rest ws HN Hcap Hj Hd)
      as (i & ws' & Hturn & Hd').
    destruct (IH (done ++ [j]) ws') as (ws'' & Hrun & Hd'').
    { by rewrite <- app_assoc. }
    { done. }
    exists ws''. split; [|done].
    change (dispatch_run (S (length (j :: rest))) ?m)
      with (CraterBuilderManager.dispatch_jobs m ≫= λ turn,
              match turn with
              | AwaitJob => Ok (Waits m)
              | Break m' => Ok (Stops m')
              | Routed _ m' => dispatch_run (S (length rest)) m'
              | AwaitRoom i => Ok (Blocks i m)
              end).
    rewrite Hturn. simpl. exact Hrun.
Qed.

(** X12. From idle workers ([instantiate_workers] with [N > 0]
    workers) whose queues are unbounded or can hold the jobs, and with
    no worker consuming meanwhile, the dispatcher deals the submitted
    jobs round-robin, whatever the bound of the intake: job number [k]
    (from 0) ends at position [k / N] of the queue of worker [k mod N],
    and the loop then waits on the empty intake. *)
Theorem X12_dispatch_deals_round_robin (N q size : Z)
    (jobs : list (coord * P)) :
  0 < N → q ≤ 0 ∨ Z.of_nat (length jobs) ≤ N * q →
  ∃ m',
    dispatch_run (S (length jobs))
      (Build (submit jobs) size (instantiate_workers N q)) = Ok (Waits m') ∧
    input_queue m' = [] ∧
    length (workers m') = Z.to_nat N ∧
    ∀ k j, jobs !! k = Some j →
      ∃ w, workers m' !! Z.to_nat (Z.of_nat k `mod` N) = Some w ∧
           BaseWorker.input_queue w !! Z.to_nat (Z.of_nat k `div` N)
           = Some (j.1, Some j.2).
Proof.
  intros HN Hcap.
  destruct (dealt_run N q size jobs HN Hcap jobs [] (instantiate_workers N q))
    as (ws' & Hrun & Hlen & _ & Hplaced).
  { done. }
  { unfold instantiate_workers, py_range. split.
    - rewrite length_fmap, length_seqZ. lia.
    - split; [|intros k' j Hk'; simpl in Hk'; lia].
      intros i w Hw. rewrite list_lookup_fmap in Hw.
      destruct (seqZ 0 (N - 0) !! i) as [z|] eqn:Hz; [|done].
      injection Hw as <-. simpl. split; [done|].
      apply lookup_lt_Some in Hz. rewrite length_seqZ in Hz.
      symmetry. apply Z.div_small. lia. }
  exists (Build [] size ws'). split; [done|]. split; [done|]. split; [done|].
  intros k j Hj. apply Hplaced; [|done]. by eapply lookup_lt_Some.
Qed.
End round_robin.

(** ** More on truncation *)

Lemma inject_Z_nonzero (z : Z) : z ≠ 0 → ¬ (inject_Z z == 0)%Q.
Proof. unfold Qeq, inject_Z. simpl. lia. Qed.

Section raster_more.
Context `{CraterGen}.
Import HighResDEMGenCfg HighResDEMGen.

Lemma shifted_in_spec n D i : shifted_in n D i = true ↔ 0 ≤ i - D < n.
Proof. unfold shifted_in. rewrite andb_true_iff, Z.leb_le, Z.ltb_lt. done. Qed.

Lemma shift_dem_zero n (st : t) :
  Np.rect n n (high_res_dem st) → shift_dem (0, 0) st = Ok st.
Proof.
  intros Hr. destruct (shift_dem_spec n st 0 0 Hr) as (dem' & -> & Hr' & Hget).
  f_equal. assert (dem' = high_res_dem st) as ->; [|by destruct st].
  apply (ndarray_ext n n); [done..|]. intros i j Hi Hj.
  rewrite Hget by done.
  rewrite !(proj2 (shifted_in_spec _ _ _)) by lia. simpl.
  by rewrite !Z.sub_0_r.
Qed.

(** X13. On a square raster, two translations that go the same way
    along each axis compose: [shift_dem (Dx1, Dy1)] followed by
    [shift_dem (Dx2, Dy2)] gives the generator that
    [shift_dem (Dx1 + Dx2, Dy1 + Dy2)] gives. *)
Theorem X13_shift_dem_composes (S : Z) (st : t) (Dx1 Dy1 Dx2 Dy2 : Z) :
  Np.rect S S (high_res_dem st) →
  (0 ≤ Dx1 ∧ 0 ≤ Dx2) ∨ (Dx1 ≤ 0 ∧ Dx2 ≤ 0) →
  (0 ≤ Dy1 ∧ 0 ≤ Dy2) ∨ (Dy1 ≤ 0 ∧ Dy2 ≤ 0) →
  shift_dem (Dx1, Dy1) st ≫= shift_dem (Dx2, Dy2)
  = shift_dem (Dx1 + Dx2, Dy1 + Dy2) st.
Proof.
  intros Hr Hx Hy.
  destruct (shift_dem_spec S st Dx1 Dy1 Hr) as (d1 & -> & Hr1 & H1).
  change (shift_dem (Dx2, Dy2) (with_dem st d1)
          = shift_dem (Dx1 + Dx2, Dy1 + Dy2) st).
  destruct (shift_dem_spec S (with_dem st d1) Dx2 Dy2 Hr1)
    as (d2 & -> & Hr2 & H2).
  destruct (shift_dem_spec S st (Dx1 + Dx2) (Dy1 + Dy2) Hr)
    as (d3 & -> & Hr3 & H3).
  simpl in H2. f_equal.
  assert (d2 = d3) as ->; [|by destruct st].
  apply (ndarray_ext S S); [done..|]. intros i j Hi Hj.
  rewrite H2, H3 by done.
  destruct (shifted_in S Dx2 i) eqn:Ex2; simpl.
  - destruct (shifted_in S Dy2 j) eqn:Ey2; simpl.
    + apply shifted_in_spec in Ex2, Ey2. rewrite H1 by done.
      replace (shifted_in S (Dx1 + Dx2) i) with (shifted_in S Dx1 (i - Dx2)).
      2:{ apply eq_true_iff_eq. rewrite !shifted_in_spec. lia. }
      replace (shifted_in S (Dy1 + Dy2) j) with (shifted_in S Dy1 (j - Dy2)).
      2:{ apply eq_true_iff_eq. rewrite !shifted_in_spec. lia. }
      destruct (_ && _); [|done]. f_equal; lia.
    + replace (shifted_in S (Dy1 + Dy2) j) with false.
      2:{ symmetry. apply not_true_iff_false. rewrite shifted_in_spec.
          apply not_true_iff_false in Ey2. rewrite shifted_in_spec in Ey2. lia. }
      by rewrite andb_false_r.
  - replace (shifted_in S (Dx1 + Dx2) i) with false; [done|].
    symmetry. apply not_true_iff_false. rewrite shifted_in_spec.
    apply not_true_iff_false in Ex2. rewrite shifted_in_spec in Ex2. lia.
Qed.

(** X14. Translating a square raster by [(Dx, Dy)] and then by
    [(-Dx, -Dy)] returns normally but does not restore it: pixel
    [(i, j)] has its old value exactly when [(i + Dx, j + Dy)] is
    inside the buffer and is zero otherwise. *)
Theorem X14_shift_dem_round_trip_loses_the_rim (S : Z) (st : t) (Dx Dy : Z) :
  Np.rect S S (high_res_dem st) →
  ∃ st', shift_dem (Dx, Dy) st ≫= shift_dem (- Dx, - Dy) = Ok st' ∧
    st' = with_dem st (high_res_dem st') ∧
    Np.rect S S (high_res_dem st') ∧
    ∀ i j, 0 ≤ i < S → 0 ≤ j < S →
      Np.get (high_res_dem st') i j
      = if (0 <=? i + Dx) && (i + Dx <? S) && (0 <=? j + Dy) && (j + Dy <? S)
        then Np.get (high_res_dem st) i j else ezero.
Proof.
  intros Hr.
  destruct (shift_dem_spec S st Dx Dy Hr) as (d1 & -> & Hr1 & H1).
  change (Ok (with_dem st d1) ≫= shift_dem (- Dx, - Dy))
    with (shift_dem (- Dx, - Dy) (with_dem st d1)).
  destruct (shift_dem_spec S (with_dem st d1) (- Dx) (- Dy) Hr1)
    as (d2 & -> & Hr2 & H2).
  simpl in H2. eexists. split; [reflexivity|]. simpl.
  split; [by destruct st|]. split; [done|].
  intros i j Hi Hj. rewrite H2 by done. unfold shifted_in.
  replace (i - - Dx) with (i + Dx) by lia.
  replace (j - - Dy) with (j + Dy) by lia.
  destruct (Z.leb_spec 0 (i + Dx)), (Z.ltb_spec (i + Dx) S),
    (Z.leb_spec 0 (j + Dy)), (Z.ltb_spec (j + Dy) S); simpl; try done.
  rewrite H1 by lia.
  rewrite !(proj2 (shifted_in_spec _ _ _)) by lia. simpl.
  f_equal; lia.
Qed.
End raster_more.

Section numeric_more.
Context `{CraterGen}.
Import HighResDEMGenCfg HighResDEMGen.

Lemma floor_div_Ok (a b : Q) :
  ¬ (b == 0)%Q → floor_div a b = Ok (inject_Z (Qfloor (a / b))).
Proof.
  intros Hb. unfold floor_div.
  by rewrite (proj2 (Qeq_bool_false b 0) Hb).
Qed.

Lemma cast_Ok (st : t) (x y : Q) :
  block_size (settings st) ≠ 0 →
  cast_coordinates_to_block_space (x, y) st
  = Ok (Qfloor (x / inject_Z (block_size (settings st)))
          * block_size (settings st),
        Qfloor (y / inject_Z (block_size (settings st)))
          * block_size (settings st)).
Proof.
  intros Hbs. unfold cast_coordinates_to_block_space.
  rewrite !floor_div_Ok by (by apply inject_Z_nonzero). simpl.
  by rewrite !py_int_inject_Z.
Qed.

Lemma floor_block_bounds (x : Q) (bs : Z) :
  0 < bs →
  (inject_Z (Qfloor (x / inject_Z bs) * bs) <= x)%Q ∧
  (x < inject_Z (Qfloor (x / inject_Z bs) * bs + bs))%Q.
Proof.
  intros Hbs.
  assert (0 < inject_Z bs)%Q as Hpos.
  { unfold Qlt, inject_Z. simpl. lia. }
  assert (¬ (inject_Z bs == 0)%Q) as Hnz by (apply inject_Z_nonzero; lia).
  assert (x == x / inject_Z bs * inject_Z bs)%Q as Hx by (by field).
  split.
  - rewrite inject_Z_mult. rewrite Hx at 2.
    apply Qmult_le_compat_r; [apply Qfloor_le|by apply Qlt_le_weak].
  - replace (Qfloor (x / inject_Z bs) * bs + bs)
      with ((Qfloor (x / inject_Z bs) + 1) * bs) by lia.
    rewrite inject_Z_mult. rewrite Hx at 1.
    apply Qmult_lt_compat_r; [done|apply Qlt_floor].
Qed.

(** X15. [cast_coordinates_to_block_space] floors toward minus
    infinity: for [block_size > 0] it returns
    [(kx * block_size, ky * block_size)] with
    [kx * block_size <= x < kx * block_size + block_size], and likewise
    for [y], for negative coordinates too. *)
Theorem X15_cast_floors_to_block_anchor (st : t) (x y : Q) :
  0 < block_size (settings st) →
  ∃ kx ky,
    cast_coordinates_to_block_space (x, y) st
    = Ok (kx * block_size (settings st), ky * block_size (settings st)) ∧
    (inject_Z (kx * block_size (settings st)) <= x)%Q ∧
    (x < inject_Z (kx * block_size (settings st) + block_size (settings st)))%Q ∧
    (inject_Z (ky * block_size (settings st)) <= y)%Q ∧
    (y < inject_Z (ky * block_size (settings st) + block_size (settings st)))%Q.
Proof.
  intros Hbs. eexists _, _. split; [apply cast_Ok; lia|].
  destruct (floor_block_bounds x _ Hbs), (floor_block_bounds y _ Hbs).
  done.
Qed.
End numeric_more.

(** ** Unshared dictionaries and the padding flag *)

Section grid2.
Context `{CraterGen}.
Import HighResDEMGenCfg HighResDEMGen.

Lemma tracker_inj_set (tracker : PyDict.t coord ref) l r :
  tracker_inj tracker →
  (∀ l', l' ≠ l → PyDict.get l' tracker ≠ Some r) →
  tracker_inj (PyDict.set l r tracker).
Proof.
  intros Hinj Hnew l1 l2 r0.
  destruct (decide (l = l1)) as [<-|H1], (decide (l = l2)) as [<-|H2];
    rewrite ?get_set_eq, ?get_set_ne by done; [done|..].
  - intros [= <-] H'. by destruct (Hnew l2).
  - intros H' [= <-]. by destruct (Hnew l1).
  - apply Hinj.
Qed.

Lemma build_block_cell_step2 st done cell rest st1 :
  block_size (settings st) ≠ 0 →
  window_cells (num_blocks (settings st)) = done ++ cell :: rest →
  build_inv2 st done st1 →
  ∃ st2, build_block_cell cell.1 cell.2 st1 = Ok st2 ∧
         build_inv2 st (done ++ [cell]) st2.
Proof.
  intros Hbs Hwin (HJ & Hinj & Hstates).
  destruct (build_block_cell_step st done cell rest st1 Hbs Hwin HJ)
    as (st2 & Hbody & HJ2).
  exists st2. split; [done|]. split; [done|].
  destruct HJ as (Hfr & Hbound & Hkeys & Hmap & Hlive).
  set (n := num_blocks (settings st)) in *.
  set (bs := block_size (settings st)) in *.
  assert (cell ∉ done) as Hfresh.
  { pose proof (NoDup_window n) as Hnd. rewrite Hwin in Hnd.
    apply NoDup_app in Hnd as (_ & Hnd & _). intros Hin.
    apply (Hnd cell Hin). by left. }
  assert (∀ l r, PyDict.get l (block_grid_tracker st1) = Some r →
                 r ≠ next_ref st1) as Hold.
  { intros l r Hr%Hlive%Hbound. lia. }
  destruct cell as [x y]. unfold build_block_cell in Hbody. simpl in Hbody.
  rewrite Hfr in Hbody. simpl in Hbody. fold n bs in Hbody.
  change (x * bs, y * bs) with (local_key bs (x, y)) in *.
  unfold PyDict.getitem in Hbody. rewrite get_set_eq in Hbody.
  simpl in Hbody. unfold setattr, deref in Hbody. simpl in Hbody.
  rewrite lookup_insert_eq in Hbody. simpl in Hbody.
  injection Hbody as <-. simpl. split.
  - apply tracker_inj_set; [done|]. intros l' _ Hl'. by eapply Hold.
  - intros cell0 [Hin| ->%list_elem_of_singleton]%elem_of_app.
    + specialize (Hstates cell0 Hin). unfold state_at in *. simpl.
      rewrite get_set_ne.
      2:{ intros Heq. apply local_key_inj in Heq; [|done]. by subst. }
      destruct (PyDict.get (local_key bs cell0) (block_grid_tracker st1))
        as [r|] eqn:Hr; [|done]. simpl in *.
      rewrite !lookup_insert_ne by (apply not_eq_sym; by eapply Hold). done.
    + unfold state_at. simpl. rewrite get_set_eq. simpl.
      by rewrite lookup_insert_eq.
Qed.

Lemma build_block_grid_spec2 st :
  block_size (settings st) ≠ 0 →
  (∀ r, is_Some (store st !! r) → (r < next_ref st)%positive) →
  ∃ st', build_block_grid st = Ok st' ∧
    tracker_inj (block_grid_tracker st') ∧
    ∀ cell, cell ∈ window_cells (num_blocks (settings st)) →
      state_at (local_key (block_size (settings st)) cell) st'
      = Some (built_state (num_blocks (settings st)) cell).
Proof.
  intros Hbs Hbound. unfold build_block_grid.
  rewrite for_each_nested.
  destruct (for_each_ind (build_inv2 st)
              (λ c, build_block_cell c.1 c.2)
              (window_cells (num_blocks (settings st)))
              (with_grid st PyDict.empty PyDict.empty))
    as (st1 & Hrun & _ & Hinj & Hstates).
  { split; [|split].
    - unfold build_inv. simpl. by rewrite with_store_id.
    - by intros l1 l2 r.
    - intros cell Hc. by apply elem_of_nil in Hc. }
  { intros done cell rest acc Hwin HJ.
    by eapply build_block_cell_step2. }
  fold (offsets (num_blocks (settings st))).
  fold (window_cells (num_blocks (settings st))).
  eauto.
Qed.

(** The world-to-local map of a well-formed grid sends no two anchors
    to the same local key. *)
Lemma grid_ok_map_inj c st w1 w2 l :
  block_size (settings st) ≠ 0 → grid_ok c st →
  PyDict.get w1 (map_grid_block2coords st) = Some l →
  PyDict.get w2 (map_grid_block2coords st) = Some l → w1 = w2.
Proof.
  intros Hbs (_ & Hm & _). rewrite Hm.
  intros (a1 & _ & -> & ->)%get_fmap_entries_inv
         (a2 & _ & -> & Heq)%get_fmap_entries_inv.
  apply local_key_inj in Heq; [|done]. by subst.
Qed.

Lemma shift_block_cell_step2 st c0 coordinates done cell rest acc :
  block_size (settings st) ≠ 0 →
  grid_ok c0 st →
  tracker_inj (block_grid_tracker st) →
  window_cells (num_blocks (settings st)) = done ++ cell :: rest →
  shift_inv2 st coordinates done acc →
  ∃ acc', shift_block_cell coordinates cell.1 cell.2 acc = Ok acc' ∧
          shift_inv2 st coordinates (done ++ [cell]) acc'.
Proof.
  intros Hbs Hok Hinj0 Hwin (HJ & Hinj & Hpad & Hnew).
  destruct (shift_block_cell_step st c0 coordinates done cell rest acc
              Hbs Hok Hwin HJ) as (acc' & Hbody & HJ').
  exists acc'. split; [done|]. split; [done|].
  destruct acc as [[st1 nt] nm]. simpl in Hinj, Hpad, Hnew.
  pose proof HJ as (Hfr & Hnext & Hsto & Hbound & Hnt & Hnm & Hcells).
  pose proof Hok as (Hk0 & Hm0 & Hlive0 & Hbound0).
  set (n := num_blocks (settings st)) in *.
  set (bs := block_size (settings st)) in *.
  assert (cell ∈ window_cells n) as Hcell.
  { rewrite Hwin. apply elem_of_app. right. by left. }
  assert (cell ∉ done) as Hfresh.
  { pose proof (NoDup_window n) as Hnd. rewrite Hwin in Hnd.
    apply NoDup_app in Hnd as (_ & Hnd & _). intros Hin.
    apply (Hnd cell Hin). by left. }
  destruct (grid_ok_tracker_get c0 st cell Hbs Hok Hcell)
    as (r' & Hr' & [s0 Hs0] & Hr'lt).
  fold bs in Hr'.
  destruct (Hsto r' s0 Hs0) as (s1 & Hs1 & Hfl1).
  (* the references of the old tracker are below [next_ref st] *)
  assert (∀ l r, PyDict.get l (block_grid_tracker st) = Some r →
                 (r < next_ref st)%positive) as Hlt0.
  { intros l r Hr. eauto. }
  (* the old reference of another cell differs from [r'] *)
  assert (∀ cell0 r0, cell0 ∈ done →
            PyDict.get (local_key bs cell0) (block_grid_tracker st) = Some r0 →
            r0 ≠ r') as Hother.
  { intros cell0 r0 Hin Hr0 ->.
    pose proof (Hinj0 _ _ _ Hr0 Hr') as Heq.
    apply local_key_inj in Heq; [|done]. by subst. }
  (* the tiles already in the new tracker *)
  assert (∀ l r0, PyDict.get l nt = Some r0 →
            ∃ cell0, cell0 ∈ done ∧ l = local_key bs cell0 ∧
                     is_Some (store st1 !! r0) ∧
                     tile_from st coordinates (store st1) cell0 r0) as Hnt_in.
  { intros l r0 Hl. pose proof (get_Some_keys _ _ _ Hl) as Hk.
    rewrite Hnt in Hk. apply list_elem_of_fmap in Hk as (cell0 & -> & Hc0).
    destruct (Hcells cell0 Hc0) as (r1 & Hr1 & Hlive1 & Ht1).
    fold bs in Hr1. rewrite Hl in Hr1. injection Hr1 as <-. eauto. }
  destruct cell as [x y]. unfold shift_block_cell in Hbody. simpl in Hbody.
  rewrite Hfr in Hbody. simpl in Hbody. fold n bs in Hbody.
  change (x * bs, y * bs) with (local_key bs (x, y)) in *.
  change (x * bs + coordinates.1, y * bs + coordinates.2)
    with (world_key bs coordinates (x, y)) in *.
  unfold PyDict.mem in Hbody.
  destruct (PyDict.get (world_key bs coordinates (x, y))
              (map_grid_block2coords st)) as [l2|] eqn:Hmem; simpl in Hbody.
  - (* carried over *)
    rewrite (proj2 (getitem_Ok _ _ _) Hmem) in Hbody. simpl in Hbody.
    assert (∃ r, PyDict.get l2 (block_grid_tracker st) = Some r)
      as (r & Hr).
    { rewrite Hm0 in Hmem.
      apply get_fmap_entries_inv in Hmem as (c2 & Hc2 & _ & ->).
      destruct (grid_ok_tracker_get c0 st c2 Hbs Hok Hc2) as (r & ? & _).
      eauto. }
    rewrite (proj2 (getitem_Ok _ _ _) Hr) in Hbody. simpl in Hbody.
    rewrite (proj2 (getitem_Ok _ _ _) Hr') in Hbody. simpl in Hbody.
    unfold setattr, deref in Hbody. simpl in Hbody.
    rewrite Hs1 in Hbody. simpl in Hbody. injection Hbody as <-. simpl.
    split; [|split].
    + apply tracker_inj_set; [done|]. intros l' Hne Hl'.
      destruct (Hnt_in l' r Hl') as (cell0 & Hc0 & -> & _ & Ht0).
      unfold tile_from in Ht0. fold bs in Ht0.
      destruct (PyDict.get (world_key bs coordinates cell0)
                  (map_grid_block2coords st)) as [l2'|] eqn:Hmem0.
      * pose proof (Hinj0 _ _ _ Ht0 Hr) as ->.
        pose proof (grid_ok_map_inj c0 st _ _ _ Hbs Hok Hmem0 Hmem) as Heq.
        apply world_key_inj in Heq; [|done]. by subst.
      * destruct Ht0 as [Hge _]. apply Hlt0 in Hr. lia.
    + intros cell0 r0 [Hin| ->%list_elem_of_singleton]%elem_of_app Hr0.
      * destruct (Hpad cell0 r0 Hin Hr0) as (s & Hs & Hp).
        exists s. split; [|done].
        rewrite lookup_insert_ne; [done|].
        apply not_eq_sym. by eapply Hother.
      * rewrite Hr' in Hr0. injection Hr0 as <-.
        rewrite lookup_insert_eq. eexists. split; [done|]. done.
    + intros r0 s Hge Hs. rewrite lookup_insert_ne in Hs; [by eapply Hnew|].
      intros ->. lia.
  - (* a new block *)
    assert (r' ≠ next_ref st1) as Hne by lia.
    rewrite (proj2 (getitem_Ok _ _ _) Hr') in Hbody. simpl in Hbody.
    unfold setattr, deref in Hbody. simpl in Hbody.
    rewrite lookup_insert_ne, Hs1 in Hbody by done. simpl in Hbody.
    injection Hbody as <-. simpl.
    split; [|split].
    + apply tracker_inj_set; [done|]. intros l' _ Hl'.
      destruct (Hnt_in l' _ Hl') as (cell0 & _ & _ & Hlive1 & _).
      apply Hbound in Hlive1. lia.
    + intros cell0 r0 [Hin| ->%list_elem_of_singleton]%elem_of_app Hr0.
      * destruct (Hpad cell0 r0 Hin Hr0) as (s & Hs & Hp).
        exists s. split; [|done].
        rewrite !lookup_insert_ne; [done| |].
        -- apply Hlt0 in Hr0. lia.
        -- apply not_eq_sym. by eapply Hother.
      * rewrite Hr' in Hr0. injection Hr0 as <-.
        rewrite lookup_insert_eq. eexists. split; [done|]. done.
    + intros r0 s Hge Hs. rewrite lookup_insert_ne in Hs by (intros ->; lia).
      destruct (decide (r0 = next_ref st1)) as [->|Hne'].
      * rewrite lookup_insert_eq in Hs. by injection Hs as <-.
      * rewrite lookup_insert_ne in Hs by done. by eapply Hnew.
Qed.

(** What [shift_block_grid] does beyond [shift_block_grid_spec], from
    a grid whose tracker shares no dictionary: the new tracker shares
    none, the dictionary the old tracker held for each cell has
    [is_padding] as that cell requires, and new dictionaries are
    untouched. *)
Lemma shift_block_grid_spec2 st c0 coordinates :
  block_size (settings st) ≠ 0 →
  grid_ok c0 st →
  tracker_inj (block_grid_tracker st) →
  ∃ st', shift_block_grid coordinates st = Ok st' ∧
    tracker_inj (block_grid_tracker st') ∧
    (∀ cell r, cell ∈ window_cells (num_blocks (settings st)) →
       PyDict.get (local_key (block_size (settings st)) cell)
         (block_grid_tracker st) = Some r →
       ∃ s, store st' !! r = Some s ∧
            is_padding s = padding_of (num_blocks (settings st)) cell.1 cell.2) ∧
    (∀ r s, (next_ref st ≤ r)%positive →
            store st' !! r = Some s → s = empty_state).
Proof.
  intros Hbs Hok Hinj0. unfold shift_block_grid.
  rewrite for_each_nested.
  destruct (for_each_ind (shift_inv2 st coordinates)
              (λ c, shift_block_cell coordinates c.1 c.2)
              (window_cells (num_blocks (settings st)))
              (st, PyDict.empty, PyDict.empty))
    as ([[st1 nt] nm] & Hrun & HJ & Hinj & Hpad & Hnew).
  { split; [|split; [|split]].
    - unfold shift_inv. rewrite with_store_id.
      split; [done|]. split; [lia|].
      split; [intros r s Hs; by exists s|].
      split; [apply Hok|]. split; [done|]. split; [done|].
      intros cell Hc. by apply elem_of_nil in Hc.
    - by intros l1 l2 r.
    - intros cell r Hc. by apply elem_of_nil in Hc.
    - simpl. intros r s Hge Hs.
      destruct Hok as (_ & _ & _ & Hb). 
      assert (r < next_ref st)%positive by (apply Hb; eauto). lia. }
  { intros done cell rest acc Hwin HJ.
    by eapply shift_block_cell_step2. }
  fold (offsets (num_blocks (settings st))).
  fold (window_cells (num_blocks (settings st))).
  rewrite Hrun. simpl. eexists. split; [reflexivity|]. simpl in *.
  eauto.
Qed.
End grid2.

Section grid_properties2.
Context `{CraterGen}.
Import HighResDEMGenCfg HighResDEMGen.

Lemma padding_of_margin n dx dy :
  0 ≤ n → - (n + 1) ≤ dx ≤ n + 1 → - (n + 1) ≤ dy ≤ n + 1 →
  padding_of n dx dy = bool_decide (Z.abs dx `max` Z.abs dy = n + 1).
Proof.
  intros Hn Hx Hy. unfold padding_of.
  destruct (Z.eqb_spec dx (- n - 1)), (Z.eqb_spec dx (n + 1)),
    (Z.eqb_spec dy (- n - 1)), (Z.eqb_spec dy (n + 1)); simpl;
    symmetry; (apply bool_decide_eq_true_2 || apply bool_decide_eq_false_2);
    lia.
Qed.

Lemma init_tracker_facts dem cfg db st :
  block_size cfg ≠ 0 →
  init dem cfg db = Ok st →
  tracker_inj (block_grid_tracker st) ∧
  ∀ cell, cell ∈ window_cells (num_blocks cfg) →
    state_at (local_key (block_size cfg) cell) st
    = Some (built_state (num_blocks cfg) cell).
Proof.
  intros Hbs. unfold init.
  intros (st1 & H1 & (st2 & H2 & H3)%bind_Ok)%bind_Ok.
  match type of H1 with build_block_grid ?s0 = _ => set (st0 := s0) in * end.
  destruct (build_block_grid_spec2 st0) as (st1' & H1' & Hinj & Hstates).
  { done. }
  { intros r [s Hs]. unfold st0 in Hs. simpl in Hs.
    by rewrite lookup_empty in Hs. }
  rewrite H1 in H1'. injection H1' as <-.
  unfold instantiate_high_res_dem in H2.
  apply bind_Ok in H2 as (side & _ & (d & _ & [= <-])%bind_Ok).
  unfold get_low_res_dem_offset in H3.
  apply bind_Ok in H3 as (ratio & _ & (b & Hb & [= <-])%bind_Ok).
  done.
Qed.

Lemma reachable_tracker_inj dem cfg st :
  block_size cfg ≠ 0 → reachable dem cfg st →
  tracker_inj (block_grid_tracker st).
Proof.
  intros Hbs. induction 1 as [db st Hinit|o st st' Hreach IH Hrun].
  - by eapply init_tracker_facts.
  - pose proof (reachable_inv dem cfg st Hbs Hreach) as (Hs & _ & Hwf & _).
    assert (block_size (settings st) ≠ 0) as Hbs' by (by rewrite Hs).
    destruct o as [coordinates taken| |cr tr]; simpl in Hrun.
    + apply shift_unfold in Hrun
        as (nb & ps & st1 & st2 & st3 & _ & H1 & H2 & H3 & H4).
      destruct (shift_block_grid_spec2 st _ nb Hbs' Hwf IH)
        as (st1' & H1' & Hinj1 & _).
      rewrite H1 in H1'. injection H1' as <-.
      destruct (shift_after_grid (λ _ _, True) nb ps taken st1 st2 st3 st')
        as (_ & _ & _ & _ & _ & -> & _); done.
    + apply (generate_craters_metadata_spec (λ _ _, True)) in Hrun
        as [-> _]; done.
    + apply collect_terrain_data_spec in Hrun as [-> _]. done.
Qed.

(** X16. After construction the window is centred at [(0, 0)], no job
    has been submitted, and the tile at every offset [(dx, dy)] of the
    window has its three [has_*] flags false and [is_padding] true iff
    [max(|dx|, |dy|) = num_blocks + 1]. *)
Theorem X16_init_builds_fresh_window dem cfg db st :
  block_size cfg ≠ 0 → 0 ≤ num_blocks cfg →
  init dem cfg db = Ok st →
  current_block_coord st = (0, 0) ∧
  crater_jobs st = [] ∧ terrain_jobs st = [] ∧
  ∀ dx dy,
    - (num_blocks cfg + 1) ≤ dx ≤ num_blocks cfg + 1 →
    - (num_blocks cfg + 1) ≤ dy ≤ num_blocks cfg + 1 →
    state_of_anchor (dx * block_size cfg, dy * block_size cfg) st
    = Some {| has_crater_metadata := false; has_crater_data := false;
              has_terrain_data := false;
              is_padding :=
                bool_decide (Z.abs dx `max` Z.abs dy = num_blocks cfg + 1) |}.
Proof.
  intros Hbs Hn Hinit.
  destruct (init_tracker_facts dem cfg db st Hbs Hinit) as [_ Hstates].
  pose proof (init_reach_inv dem cfg db st Hbs Hinit)
    as (Hs & _ & (_ & Hm & _) & _).
  assert (current_block_coord st = (0, 0) ∧ crater_jobs st = [] ∧
          terrain_jobs st = []) as (Hc & Hcj & Htj).
  { revert Hinit. unfold init.
    intros (st1 & H1 & (st2 & H2 & H3)%bind_Ok)%bind_Ok.
    match type of H1 with build_block_grid ?s0 = _ => set (st0 := s0) in * end.
    destruct (build_block_grid_spec st0) as (st1' & H1' & Hfr1 & _).
    { done. }
    { intros r [s Hs']. unfold st0 in Hs'. simpl in Hs'.
      by rewrite lookup_empty in Hs'. }
    rewrite H1 in H1'. injection H1' as <-.
    unfold instantiate_high_res_dem in H2.
    apply bind_Ok in H2 as (side & _ & (d & _ & [= <-])%bind_Ok).
    unfold get_low_res_dem_offset in H3.
    apply bind_Ok in H3 as (ratio & _ & (b & Hb & [= <-])%bind_Ok).
    simpl. by rewrite Hfr1. }
  do 3 (split; [done|]).
  intros dx dy Hx Hy.
  assert ((dx, dy) ∈ window_cells (num_blocks cfg)) as Hcell.
  { apply elem_of_window. simpl. lia. }
  unfold state_of_anchor. rewrite Hm, Hs, Hc.
  replace (dx * block_size cfg, dy * block_size cfg)
    with (world_key (block_size cfg) (0, 0) (dx, dy))
    by (unfold world_key; simpl; f_equal; lia).
  rewrite (get_fmap_entries (world_key (block_size cfg) (0, 0))
             (local_key (block_size cfg))).
  2:{ intros a1 a2 _ _ Heq. by eapply world_key_inj. }
  2:{ done. }
  simpl. rewrite (Hstates _ Hcell). unfold built_state. simpl.
  by rewrite padding_of_margin.
Qed.

(** X17. In every reachable generator the keys of
    [map_grid_block2coords] are exactly the anchors
    [current_block_coord + (dx, dy) * block_size] of the window, and
    each is mapped to [(dx * block_size, dy * block_size)]. *)
Theorem X17_world_map_is_the_window dem cfg st (w l : coord) :
  block_size cfg ≠ 0 → reachable dem cfg st →
  PyDict.get w (map_grid_block2coords st) = Some l ↔
  ∃ dx dy,
    - (num_blocks cfg + 1) ≤ dx ≤ num_blocks cfg + 1 ∧
    - (num_blocks cfg + 1) ≤ dy ≤ num_blocks cfg + 1 ∧
    w = ((current_block_coord st).1 + dx * block_size cfg,
         (current_block_coord st).2 + dy * block_size cfg) ∧
    l = (dx * block_size cfg, dy * block_size cfg).
Proof.
  intros Hbs Hreach.
  pose proof (reachable_inv dem cfg st Hbs Hreach)
    as (Hs & _ & (_ & Hm & _) & _).
  rewrite Hm, Hs. split.
  - intros ([dx dy] & Hc%elem_of_window & -> & ->)%get_fmap_entries_inv.
    exists dx, dy. unfold world_key, local_key. simpl in *.
    do 2 (split; [lia|]). split; [f_equal; lia|done].
  - intros (dx & dy & Hx & Hy & -> & ->).
    replace ((current_block_coord st).1 + dx * block_size cfg,
             (current_block_coord st).2 + dy * block_size cfg)
      with (world_key (block_size cfg) (current_block_coord st) (dx, dy))
      by (unfold world_key; simpl; f_equal; lia).
    rewrite (get_fmap_entries
               (world_key (block_size cfg) (current_block_coord st))
               (local_key (block_size cfg))); [done| |].
    + intros a1 a2 _ _ Heq. by eapply world_key_inj.
    + apply elem_of_window. simpl. lia.
Qed.

(** X18. In every reachable generator no two keys of
    [block_grid_tracker] hold the same state dictionary, so that a write
    to the dictionary of one tile leaves the state of every other tile
    as it was. *)
Theorem X18_tiles_never_share_a_state dem cfg st :
  block_size cfg ≠ 0 → reachable dem cfg st →
  (∀ l1 l2 r,
     PyDict.get l1 (block_grid_tracker st) = Some r →
     PyDict.get l2 (block_grid_tracker st) = Some r → l1 = l2) ∧
  (∀ l1 l2 r upd st',
     PyDict.get l1 (block_grid_tracker st) = Some r →
     setattr r upd st = Ok st' → l2 ≠ l1 →
     state_at l2 st' = state_at l2 st).
Proof.
  intros Hbs Hreach.
  pose proof (reachable_tracker_inj dem cfg st Hbs Hreach) as Hinj.
  split; [exact Hinj|].
  intros l1 l2 r upd st' Hr Hset Hne.
  unfold setattr, deref in Hset.
  destruct (store st !! r) as [s|]; [|done]. injection Hset as <-.
  unfold state_at. simpl.
  destruct (PyDict.get l2 (block_grid_tracker st)) as [r2|] eqn:Hr2; [|done].
  simpl. rewrite lookup_insert_ne; [done|].
  intros ->. by pose proof (Hinj _ _ _ Hr Hr2).
Qed.

(** X19. [shift_block_grid] returns on every reachable generator, and
    in the new tracker a tile that was carried over has the
    [is_padding] of the local offset it had before the shift, while a
    tile that is new holds the literal state, its four fields false. *)
Theorem X19_shift_block_grid_padding_is_stale dem cfg st coordinates :
  block_size cfg ≠ 0 → reachable dem cfg st →
  ∃ st', shift_block_grid coordinates st = Ok st' ∧
    ∀ dx dy,
      - (num_blocks cfg + 1) ≤ dx ≤ num_blocks cfg + 1 →
      - (num_blocks cfg + 1) ≤ dy ≤ num_blocks cfg + 1 →
      ∃ s', state_at (dx * block_size cfg, dy * block_size cfg) st' = Some s' ∧
        match PyDict.get (coordinates.1 + dx * block_size cfg,
                          coordinates.2 + dy * block_size cfg)
                (map_grid_block2coords st) with
        | Some (lx, ly) =>
            is_padding s'
            = padding_of (num_blocks cfg) (lx `div` block_size cfg)
                (ly `div` block_size cfg)
        | None => s' = empty_state
        end.
Proof.
  intros Hbs Hreach.
  pose proof (reachable_inv dem cfg st Hbs Hreach) as (Hs & _ & Hwf & _).
  pose proof (reachable_tracker_inj dem cfg st Hbs Hreach) as Hinj.
  assert (block_size (settings st) ≠ 0) as Hbs' by (by rewrite Hs).
  destruct (shift_block_grid_spec st _ coordinates Hbs' Hwf)
    as (st' & Hrun & Hfr & Hok' & Hsto & Htiles).
  destruct (shift_block_grid_spec2 st _ coordinates Hbs' Hwf Hinj)
    as (st'' & Hrun' & _ & Hpad & Hnew).
  rewrite Hrun in Hrun'. injection Hrun' as <-.
  exists st'. split; [done|]. rewrite Hs in *.
  intros dx dy Hx Hy.
  assert ((dx, dy) ∈ window_cells (num_blocks cfg)) as Hcell.
  { apply elem_of_window. simpl. lia. }
  destruct (Htiles _ Hcell) as (r & Hr & Ht).
  destruct Hok' as (_ & _ & Hlive' & _).
  destruct (Hlive' _ _ Hr) as [s' Hs'].
  exists s'. split.
  { unfold state_at. unfold local_key in Hr. simpl in Hr.
    rewrite Hr. simpl. done. }
  unfold tile_from, world_key in Ht. rewrite Hs in Ht. simpl in Ht.
  replace (dx * block_size cfg + coordinates.1,
           dy * block_size cfg + coordinates.2)
    with (coordinates.1 + dx * block_size cfg,
          coordinates.2 + dy * block_size cfg) in Ht by (f_equal; lia).
  destruct (PyDict.get _ (map_grid_block2coords st)) as [[lx ly]|] eqn:Hmem.
  - pose proof Hwf as (_ & Hm & _). rewrite Hm, Hs in Hmem.
    apply get_fmap_entries_inv in Hmem as ([ox oy] & Hc0 & _ & Hl).
    unfold local_key in Hl. simpl in Hl. injection Hl as -> ->.
    rewrite !Z.div_mul by done.
    destruct (Hpad (ox, oy) r Hc0 Ht) as (s & Hs2 & Hp).
    rewrite Hs' in Hs2. by injection Hs2 as <-.
  - destruct Ht as (Hge & _). by eapply Hnew.
Qed.
End grid_properties2.

(** ** The operations on reachable generators *)

Section pool_more.
Context {P : Type}.
Import BaseWorkerManager.

Lemma process_data_Ok coords (data : P) (m : t P) :
  is_input_queue_full m = false →
  process_data coords data m
  = Ok (Build (input_queue m ++ [(coords, Some data)])
          (input_queue_size m) (workers m)).
Proof. unfold process_data. by intros ->. Qed.

Lemma process_data_Raise coords (data : P) (m : t P) e :
  process_data coords data m = Raise e → e = Blocked.
Proof.
  unfold process_data. destruct (is_input_queue_full m); [|done].
  by intros [= <-].
Qed.

Lemma drop_put {A} (l : list A) (x : A) (k a : nat) :
  drop a (drop k l) ++ [x] = drop (Nat.min (k + a) (length l)) (l ++ [x]).
Proof.
  rewrite drop_drop.
  destruct (decide (k + a ≤ length l)%nat) as [Hle|Hgt].
  - rewrite Nat.min_l by done. by rewrite drop_app_le.
  - rewrite Nat.min_r by lia. rewrite drop_ge by lia.
    by rewrite drop_app_length.
Qed.

(** A put on a manager that was fed, after the dispatcher took [a] more
    jobs. *)
Lemma fed_put (jobs : list (coord * P)) coords (data : P) (k a : nat)
    (m : t P) :
  has_room (Z.of_nat (length jobs) + 1) m →
  ∃ k',
    process_data coords data (dispatched a (fed jobs k m))
    = Ok (fed (jobs ++ [(coords, data)]) k' m) ∧
    ((k + a = 0)%nat → k' = 0%nat).
Proof.
  intros Hroom.
  exists (Nat.min (k + a) (length (input_queue m ++ submit jobs))).
  split; [|lia].
  rewrite process_data_Ok.
  - unfold fed, dispatched. simpl. unfold submit. rewrite fmap_app. simpl.
    by rewrite app_assoc, drop_put.
  - unfold is_input_queue_full, dispatched, fed. simpl.
    apply andb_false_iff. unfold has_room in Hroom.
    destruct Hroom as [Hroom|Hroom]; [left; lia|]. right.
    apply Z.leb_gt. rewrite !length_drop, length_app.
    unfold submit. rewrite length_fmap. lia.
Qed.

Lemma has_room_le (n n' : Z) (m : t P) :
  n' ≤ n → has_room n m → has_room n' m.
Proof. unfold has_room. lia. Qed.

Lemma fed_nil (m : t P) : fed [] 0 m = m.
Proof. unfold fed. simpl. rewrite app_nil_r. by destruct m. Qed.
End pool_more.

Section dict_more.
Context {K V : Type} `{EqDecision K}.

Lemma dict_ext (d1 d2 : PyDict.t K V) :
  PyDict.keys d1 = PyDict.keys d2 → NoDup (PyDict.keys d1) →
  (∀ k, k ∈ PyDict.keys d1 → PyDict.get k d1 = PyDict.get k d2) →
  d1 = d2.
Proof.
  revert d2. induction d1 as [|[k v] d1 IH]; intros [|[k' v'] d2] Hk Hnd Hget;
    try done.
  unfold PyDict.keys in *. simpl in *. injection Hk as <- Hk.
  apply NoDup_cons in Hnd as [Hnin Hnd].
  pose proof (Hget k ltac:(left)) as Hv. simpl in Hv.
  rewrite !decide_True in Hv by done. injection Hv as <-.
  f_equal. apply IH; [done..|].
  intros k0 Hk0. specialize (Hget k0 ltac:(by right)). simpl in Hget.
  rewrite !decide_False in Hget by (intros ->; done). done.
Qed.
End dict_more.

Section ops.
Context `{CraterGen}.
Import HighResDEMGenCfg HighResDEMGen.

Lemma grid_ok_anchor c st w :
  block_size (settings st) ≠ 0 → grid_ok c st →
  w ∈ PyDict.keys (map_grid_block2coords st) →
  ∃ l r s, PyDict.get w (map_grid_block2coords st) = Some l ∧
           PyDict.get l (block_grid_tracker st) = Some r ∧
           store st !! r = Some s.
Proof.
  intros Hbs Hok Hw. destruct (keys_get _ _ Hw) as [l Hl].
  pose proof Hok as (_ & Hm & _). pose proof Hl as Hl'. rewrite Hm in Hl'.
  apply get_fmap_entries_inv in Hl' as (a & Ha & _ & ->).
  destruct (grid_ok_tracker_get c st a Hbs Hok Ha) as (r & Hr & [s Hs] & _).
  eauto 10.
Qed.

Lemma grid_ok_NoDup_keys c st :
  block_size (settings st) ≠ 0 → grid_ok c st →
  NoDup (PyDict.keys (map_grid_block2coords st)).
Proof.
  intros Hbs (_ & -> & _). rewrite keys_fmap_entries.
  apply NoDup_fmap_2; [|apply NoDup_window].
  intros a1 a2 Heq. by eapply world_key_inj.
Qed.

(** Two anchors of a well-formed grid with unshared dictionaries that
    hold the same dictionary are the same anchor. *)
Lemma anchor_ref_inj c st w1 w2 l1 l2 r :
  block_size (settings st) ≠ 0 → grid_ok c st →
  tracker_inj (block_grid_tracker st) →
  PyDict.get w1 (map_grid_block2coords st) = Some l1 →
  PyDict.get l1 (block_grid_tracker st) = Some r →
  PyDict.get w2 (map_grid_block2coords st) = Some l2 →
  PyDict.get l2 (block_grid_tracker st) = Some r →
  w1 = w2.
Proof.
  intros Hbs Hok Hinj H1 Hr1 H2 Hr2.
  pose proof (Hinj _ _ _ Hr1 Hr2) as ->.
  by eapply grid_ok_map_inj.
Qed.

(** [generate_craters_metadata] returns and writes the sampler's
    answer for each anchor into that anchor's dictionary only. *)
Lemma generate_craters_metadata_effect c st :
  block_size (settings st) ≠ 0 → grid_ok c st →
  tracker_inj (block_grid_tracker st) →
  let db' := sample_craters_by_region (metadata_region st) (crater_db st) in
  ∃ st', generate_craters_metadata st = Ok st' ∧
    st' = with_store (with_db st db') (store st') (next_ref st) ∧
    ∀ w, state_of_anchor w st'
         = set_has_crater_metadata (check_block_exists w db')
             <$> state_of_anchor w st.
Proof.
  intros Hbs Hok Hinj db'. unfold generate_craters_metadata.
  fold (metadata_region st). fold db'.
  pose proof (grid_ok_NoDup_keys c st Hbs Hok) as Hnd.
  destruct (for_each_ind
    (λ done st1,
       st1 = with_store (with_db st db') (store st1) (next_ref st) ∧
       ∀ w, state_of_anchor w st1
            = (if decide (w ∈ done)
               then set_has_crater_metadata (check_block_exists w db')
               else id) <$> state_of_anchor w st)
    (λ coords st,
       let exists_ := check_block_exists coords (crater_db st) in
       local_coords ← PyDict.getitem coords (map_grid_block2coords st);
       r ← PyDict.getitem local_coords (block_grid_tracker st);
       if exists_ then setattr r (set_has_crater_metadata true) st
       else setattr r (set_has_crater_metadata false) st)
    (PyDict.keys (map_grid_block2coords (with_db st db')))
    (with_db st db')) as (st' & Hrun & Hfr & Hstates).
  { split; [by destruct st|]. intros w.
    rewrite decide_False by (by intros ?%elem_of_nil).
    rewrite option_fmap_id. done. }
  { intros done x rest st1 Hkeys [Hfr Hst]. simpl in Hkeys.
    assert (x ∈ PyDict.keys (map_grid_block2coords st)) as Hx.
    { rewrite Hkeys. apply elem_of_app. right. by left. }
    assert (x ∉ done) as Hxd.
    { rewrite Hkeys in Hnd. apply NoDup_app in Hnd as (_ & Hnd & _).
      intros Hin. apply (Hnd x Hin). by left. }
    destruct (grid_ok_anchor c st x Hbs Hok Hx) as (l & r & s & Hl & Hr & Hs).
    pose proof (Hst x) as Hstx. rewrite decide_False in Hstx by done.
    unfold state_of_anchor, state_at in Hstx. rewrite Hfr in Hstx.
    simpl in Hstx. rewrite Hl in Hstx. simpl in Hstx.
    rewrite Hr in Hstx. simpl in Hstx. rewrite Hs in Hstx. simpl in Hstx.
    rewrite Hfr. simpl.
    rewrite (proj2 (getitem_Ok _ _ _) Hl). simpl.
    rewrite (proj2 (getitem_Ok _ _ _) Hr). simpl.
    assert (∀ b, setattr r (set_has_crater_metadata b)
                   (with_store (with_db st db') (store st1) (next_ref st))
                 = Ok (with_store (with_db st db')
                         (<[r := set_has_crater_metadata b s]> (store st1))
                         (next_ref st))) as Hset.
    { intros b. unfold setattr, deref. simpl. by rewrite Hstx. }
    exists (with_store (with_db st db')
              (<[r := set_has_crater_metadata (check_block_exists x db') s]>
                 (store st1)) (next_ref st)).
    split; [destruct (check_block_exists x db'); apply Hset|].
    split; [done|]. intros w.
    destruct (decide (w = x)) as [->|Hne].
    - rewrite decide_True by (apply elem_of_app; right; by left).
      unfold state_of_anchor, state_at. simpl.
      rewrite Hl. simpl. rewrite Hr. simpl. rewrite Hs. simpl.
      by rewrite lookup_insert_eq.
    - specialize (Hst w).
      assert ((if decide (w ∈ done ++ [x])
               then set_has_crater_metadata (check_block_exists w db')
               else id)
              = (if decide (w ∈ done)
                 then set_has_crater_metadata (check_block_exists w db')
                 else id)) as ->.
      { destruct (decide (w ∈ done)) as [Hin|Hnin].
        - rewrite decide_True; [done|]. apply elem_of_app. by left.
        - rewrite decide_False; [done|].
          intros [?|?%list_elem_of_singleton]%elem_of_app; done. }
      rewrite <- Hst. unfold state_of_anchor, state_at. rewrite Hfr. simpl.
      destruct (PyDict.get w (map_grid_block2coords st)) as [lw|] eqn:Hlw;
        [|done]. simpl.
      destruct (PyDict.get lw (block_grid_tracker st)) as [rw|] eqn:Hrw;
        [|done]. simpl.
      rewrite lookup_insert_ne; [done|]. intros ->.
      apply Hne. by eapply (anchor_ref_inj c st w x). }
  exists st'. split; [done|]. split; [done|].
  intros w. rewrite Hstates. simpl.
  destruct (decide (w ∈ PyDict.keys (map_grid_block2coords st)))
    as [Hin|Hnin]; [done|].
  apply get_None in Hnin. unfold state_of_anchor. by rewrite Hnin.
Qed.

Lemma querry_Ok (st : t) (w : coord) :
  ¬ (source_resolution (settings st) == 0)%Q →
  querry_low_res_dem w st = Ok (patch_of st w).
Proof.
  intros Hsr. unfold patch_of, querry_low_res_dem.
  by rewrite !(true_div_Ok _ _ Hsr).
Qed.

Lemma lacks_Some flag (st : t) w s :
  state_of_anchor w st = Some s → lacks flag st w = negb (flag s).
Proof. unfold lacks. by intros ->. Qed.

Lemma fed_put_outcome {P} (jobs : list (coord * P)) coords (data : P)
    (k a : nat) (m : BaseWorkerManager.t P) :
  BaseWorkerManager.process_data coords data
    (BaseWorkerManager.dispatched a (fed jobs k m)) = Raise Blocked ∨
  ∃ k',
    BaseWorkerManager.process_data coords data
      (BaseWorkerManager.dispatched a (fed jobs k m))
    = Ok (fed (jobs ++ [(coords, data)]) k' m) ∧
    ((k + a = 0)%nat → k' = 0%nat).
Proof.
  unfold BaseWorkerManager.process_data.
  destruct (BaseWorkerManager.is_input_queue_full _); [by left|]. right.
  exists (Nat.min (k + a)
            (length (BaseWorkerManager.input_queue m ++ submit jobs))).
  split; [|lia].
  unfold fed, BaseWorkerManager.dispatched. simpl.
  unfold submit. rewrite fmap_app. simpl.
  by rewrite app_assoc, drop_put.
Qed.

(** [generate_terrain_blocks] ends in no other way than by returning or
    by waiting in a [put]; when it returns it has put the jobs that are
    due, in the order of the keys, and changed nothing else. *)
Lemma generate_terrain_blocks_general c taken st :
  block_size (settings st) ≠ 0 → grid_ok c st →
  ¬ (source_resolution (settings st) == 0)%Q →
  (∃ kc kt,
     generate_terrain_blocks taken st
     = Ok (with_managers st
             (fed (crater_jobs_due st) kc (crater_builder_manager st))
             (fed (terrain_jobs_due st) kt (interpolator_manager st))) ∧
     ((∀ w, taken w = (0%nat, 0%nat)) → kc = 0%nat ∧ kt = 0%nat)) ∨
  generate_terrain_blocks taken st = Raise Blocked.
Proof.
  intros Hbs Hok Hsr. unfold generate_terrain_blocks.
  set (cj (done : list coord) := (λ w, (w, get_block_data w (crater_db st)))
                    <$> filter (λ w, lacks has_crater_data st w = true) done).
  set (tj (done : list coord) := (λ w, (w, patch_of st w))
                    <$> filter (λ w, lacks has_terrain_data st w = true) done).
  match goal with |- context [for_each ?xs ?body st] =>
    destruct (for_each_ind_or
      (λ done st1, ∃ kc kt,
         st1 = with_managers st (fed (cj done) kc (crater_builder_manager st))
                 (fed (tj done) kt (interpolator_manager st)) ∧
         ((∀ w, taken w = (0%nat, 0%nat)) → kc = 0%nat ∧ kt = 0%nat))
      (λ e, e = Blocked)
      body xs st) as [(st' & Hrun & kc & kt & Hfr & Hk)|(e & Hrun & ->)]
  end.
  { exists 0%nat, 0%nat. split; [|done]. unfold cj, tj. simpl.
    rewrite !fed_nil. by destruct st. }
  { intros done x rest st1 Hkeys (kc & kt & -> & Hk).
    assert (x ∈ PyDict.keys (map_grid_block2coords st)) as Hx.
    { rewrite Hkeys. apply elem_of_app. right. by left. }
    destruct (grid_ok_anchor c st x Hbs Hok Hx) as (l & r & s & Hl & Hr & Hs).
    assert (state_of_anchor x st = Some s) as Hst.
    { unfold state_of_anchor, state_at. rewrite Hl. simpl. rewrite Hr. done. }
    assert (∀ st1 : t, store st1 = store st → deref r st1 = Ok s) as Hd.
    { intros st1 E. unfold deref. by rewrite E, Hs. }
    assert (cj (done ++ [x])
            = cj done ++ (if negb (has_crater_data s)
                          then [(x, get_block_data x (crater_db st))] else []))
      as Ecj.
    { unfold cj. rewrite filter_app, fmap_app, filter_cons, filter_nil.
      rewrite (lacks_Some _ st x s Hst).
      by destruct (negb (has_crater_data s)). }
    assert (tj (done ++ [x])
            = tj done ++ (if negb (has_terrain_data s)
                          then [(x, patch_of st x)] else [])) as Etj.
    { unfold tj. rewrite filter_app, fmap_app, filter_cons, filter_nil.
      rewrite (lacks_Some _ st x s Hst).
      by destruct (negb (has_terrain_data s)). }
    rewrite Ecj, Etj.
    destruct x as [x1 x2]. cbv beta zeta. cbn [fst snd].
    cbn [map_grid_block2coords block_grid_tracker with_managers].
    rewrite (proj2 (getitem_Ok _ _ _) Hl), Ok_bind.
    rewrite (proj2 (getitem_Ok _ _ _) Hr), Ok_bind.
    rewrite Hd, Ok_bind by done.
    cbn [crater_builder_manager interpolator_manager crater_db with_managers].
    destruct (negb (has_crater_data s)) eqn:Ec.
    - destruct (fed_put_outcome (cj done) (x1, x2)
                  (get_block_data (x1, x2) (crater_db st)) kc
                  (taken (x1, x2)).1 (crater_builder_manager st))
        as [Hput|(kc' & Hput & Hkc')]; rewrite Hput; [right; eauto|].
      rewrite !Ok_bind.
      cbn [block_grid_tracker with_managers].
      rewrite (proj2 (getitem_Ok _ _ _) Hr), Ok_bind.
      rewrite Hd, Ok_bind by done.
      destruct (negb (has_terrain_data s)) eqn:Et.
      + match goal with |- context [querry_low_res_dem ?w ?s0] =>
          change (querry_low_res_dem w s0) with (querry_low_res_dem w st) end.
        rewrite querry_Ok, Ok_bind by done.
        cbn [crater_builder_manager interpolator_manager with_managers].
        destruct (fed_put_outcome (tj done) (x1, x2) (patch_of st (x1, x2)) kt
                    (taken (x1, x2)).2 (interpolator_manager st))
          as [Hput'|(kt' & Hput' & Hkt')]; rewrite Hput'; [right; eauto|].
        rewrite Ok_bind. left. eexists. split; [reflexivity|].
        exists kc', kt'. split; [done|].
        intros Hst0. destruct (Hk Hst0) as [-> ->].
        rewrite (Hst0 (x1, x2)) in Hkc', Hkt'. simpl in *. split; auto.
      + left. eexists. split; [reflexivity|].
        exists kc', kt. rewrite app_nil_r. split; [done|].
        intros Hst0. destruct (Hk Hst0) as [-> ->].
        rewrite (Hst0 (x1, x2)) in Hkc'. simpl in *. split; auto.
    - rewrite !Ok_bind, app_nil_r.
      cbn [block_grid_tracker with_managers].
      rewrite (proj2 (getitem_Ok _ _ _) Hr), Ok_bind.
      rewrite Hd, Ok_bind by done.
      destruct (negb (has_terrain_data s)) eqn:Et.
      + match goal with |- context [querry_low_res_dem ?w ?s0] =>
          change (querry_low_res_dem w s0) with (querry_low_res_dem w st) end.
        rewrite querry_Ok, Ok_bind by done.
        cbn [crater_builder_manager interpolator_manager with_managers].
        destruct (fed_put_outcome (tj done) (x1, x2) (patch_of st (x1, x2)) kt
                    (taken (x1, x2)).2 (interpolator_manager st))
          as [Hput'|(kt' & Hput' & Hkt')]; rewrite Hput'; [right; eauto|].
        rewrite Ok_bind. left. eexists. split; [reflexivity|].
        exists kc, kt'. split; [done|].
        intros Hst0. destruct (Hk Hst0) as [-> ->].
        rewrite (Hst0 (x1, x2)) in Hkt'. simpl in *. split; auto.
      + left. eexists. split; [reflexivity|].
        exists kc, kt. rewrite app_nil_r. by split. }
  - left. exists kc, kt. split; [|done]. etrans; [exact Hrun|]. by rewrite Hfr.
  - by right.
Qed.

Lemma length_due {A} (f : coord → A) (p : coord → bool)
    (done rest : list coord) (x : coord) :
  let due l := f <$> filter (λ w, p w = true) l in
  (length (due done) + (if p x then 1 else 0) ≤ length (due (done ++ x :: rest)))%nat.
Proof.
  intros due. unfold due.
  rewrite filter_app, filter_cons, !length_fmap, length_app.
  destruct (decide (p x = true)) as [->|Hp]; simpl; [lia|].
  destruct (p x); [done|lia].
Qed.

(** When the intakes have room for the jobs that are due,
    [generate_terrain_blocks] returns whatever the dispatchers take
    meanwhile, having put these jobs in the order of the keys and
    changed nothing else. *)
Lemma generate_terrain_blocks_effect c taken st :
  block_size (settings st) ≠ 0 → grid_ok c st →
  ¬ (source_resolution (settings st) == 0)%Q →
  has_room (Z.of_nat (length (crater_jobs_due st))) (crater_builder_manager st) →
  has_room (Z.of_nat (length (terrain_jobs_due st))) (interpolator_manager st) →
  ∃ kc kt,
    generate_terrain_blocks taken st
    = Ok (with_managers st
            (fed (crater_jobs_due st) kc (crater_builder_manager st))
            (fed (terrain_jobs_due st) kt (interpolator_manager st))) ∧
    ((∀ w, taken w = (0%nat, 0%nat)) → kc = 0%nat ∧ kt = 0%nat).
Proof.
  intros Hbs Hok Hsr Hrc Hrt. unfold generate_terrain_blocks.
  set (cj (done : list coord) := (λ w, (w, get_block_data w (crater_db st)))
                    <$> filter (λ w, lacks has_crater_data st w = true) done).
  set (tj (done : list coord) := (λ w, (w, patch_of st w))
                    <$> filter (λ w, lacks has_terrain_data st w = true) done).
  match goal with |- context [for_each ?xs ?body st] =>
    destruct (for_each_ind
      (λ done st1, ∃ kc kt,
         st1 = with_managers st (fed (cj done) kc (crater_builder_manager st))
                 (fed (tj done) kt (interpolator_manager st)) ∧
         ((∀ w, taken w = (0%nat, 0%nat)) → kc = 0%nat ∧ kt = 0%nat))
      body xs st) as (st' & Hrun & kc & kt & Hfr & Hk)
  end.
  { exists 0%nat, 0%nat. split; [|done]. unfold cj, tj. simpl.
    rewrite !fed_nil. by destruct st. }
  { intros done x rest st1 Hkeys (kc & kt & -> & Hk).
    assert (x ∈ PyDict.keys (map_grid_block2coords st)) as Hx.
    { rewrite Hkeys. apply elem_of_app. right. by left. }
    destruct (grid_ok_anchor c st x Hbs Hok Hx) as (l & r & s & Hl & Hr & Hs).
    assert (state_of_anchor x st = Some s) as Hst.
    { unfold state_of_anchor, state_at. rewrite Hl. simpl. rewrite Hr. done. }
    assert (∀ st1 : t, store st1 = store st → deref r st1 = Ok s) as Hd.
    { intros st1 E. unfold deref. by rewrite E, Hs. }
    pose proof (length_due (λ w, (w, get_block_data w (crater_db st)))
                  (lacks has_crater_data st) done rest x) as Hlc.
    pose proof (length_due (λ w, (w, patch_of st w))
                  (lacks has_terrain_data st) done rest x) as Hlt.
    cbv zeta in Hlc, Hlt. fold (cj done) (cj (done ++ x :: rest)) in Hlc.
    fold (tj done) (tj (done ++ x :: rest)) in Hlt.
    rewrite <- Hkeys in Hlc, Hlt.
    fold (crater_jobs_due st) in Hlc. fold (terrain_jobs_due st) in Hlt.
    rewrite (lacks_Some has_crater_data st x s Hst) in Hlc.
    rewrite (lacks_Some has_terrain_data st x s Hst) in Hlt.
    assert (cj (done ++ [x])
            = cj done ++ (if negb (has_crater_data s)
                          then [(x, get_block_data x (crater_db st))] else []))
      as Ecj.
    { unfold cj. rewrite filter_app, fmap_app, filter_cons, filter_nil.
      rewrite (lacks_Some _ st x s Hst).
      by destruct (negb (has_crater_data s)). }
    assert (tj (done ++ [x])
            = tj done ++ (if negb (has_terrain_data s)
                          then [(x, patch_of st x)] else [])) as Etj.
    { unfold tj. rewrite filter_app, fmap_app, filter_cons, filter_nil.
      rewrite (lacks_Some _ st x s Hst).
      by destruct (negb (has_terrain_data s)). }
    rewrite Ecj, Etj.
    destruct x as [x1 x2]. cbv beta zeta. cbn [fst snd].
    cbn [map_grid_block2coords block_grid_tracker with_managers].
    rewrite (proj2 (getitem_Ok _ _ _) Hl), Ok_bind.
    rewrite (proj2 (getitem_Ok _ _ _) Hr), Ok_bind.
    rewrite Hd, Ok_bind by done.
    cbn [crater_builder_manager interpolator_manager crater_db with_managers].
    destruct (negb (has_crater_data s)) eqn:Ec.
    - destruct (fed_put (cj done) (x1, x2)
                  (get_block_data (x1, x2) (crater_db st)) kc
                  (taken (x1, x2)).1 (crater_builder_manager st))
        as (kc' & Hput & Hkc').
      { eapply has_room_le; [|exact Hrc]. unfold cj. lia. }
      rewrite Hput, !Ok_bind.
      cbn [block_grid_tracker with_managers].
      rewrite (proj2 (getitem_Ok _ _ _) Hr), Ok_bind.
      rewrite Hd, Ok_bind by done.
      destruct (negb (has_terrain_data s)) eqn:Et.
      + match goal with |- context [querry_low_res_dem ?w ?s0] =>
          change (querry_low_res_dem w s0) with (querry_low_res_dem w st) end.
        rewrite querry_Ok, Ok_bind by done.
        cbn [crater_builder_manager interpolator_manager with_managers].
        destruct (fed_put (tj done) (x1, x2) (patch_of st (x1, x2)) kt
                    (taken (x1, x2)).2 (interpolator_manager st))
          as (kt' & Hput' & Hkt').
        { eapply has_room_le; [|exact Hrt]. unfold tj. lia. }
        rewrite Hput', Ok_bind. eexists. split; [reflexivity|].
        exists kc', kt'. split; [done|].
        intros Hst0. destruct (Hk Hst0) as [-> ->].
        rewrite (Hst0 (x1, x2)) in Hkc', Hkt'. simpl in *. split; auto.
      + eexists. split; [reflexivity|].
        exists kc', kt. rewrite app_nil_r. split; [done|].
        intros Hst0. destruct (Hk Hst0) as [-> ->].
        rewrite (Hst0 (x1, x2)) in Hkc'. simpl in *. split; auto.
    - rewrite !Ok_bind, app_nil_r.
      cbn [block_grid_tracker with_managers].
      rewrite (proj2 (getitem_Ok _ _ _) Hr), Ok_bind.
      rewrite Hd, Ok_bind by done.
      destruct (negb (has_terrain_data s)) eqn:Et.
      + match goal with |- context [querry_low_res_dem ?w ?s0] =>
          change (querry_low_res_dem w s0) with (querry_low_res_dem w st) end.
        rewrite querry_Ok, Ok_bind by done.
        cbn [crater_builder_manager interpolator_manager with_managers].
        destruct (fed_put (tj done) (x1, x2) (patch_of st (x1, x2)) kt
                    (taken (x1, x2)).2 (interpolator_manager st))
          as (kt' & Hput' & Hkt').
        { eapply has_room_le; [|exact Hrt]. unfold tj. lia. }
        rewrite Hput', Ok_bind. eexists. split; [reflexivity|].
        exists kc, kt'. split; [done|].
        intros Hst0. destruct (Hk Hst0) as [-> ->].
        rewrite (Hst0 (x1, x2)) in Hkt'. simpl in *. split; auto.
      + eexists. split; [reflexivity|].
        exists kc, kt. rewrite app_nil_r. by split. }
  exists kc, kt. split; [|done]. etrans; [exact Hrun|]. by rewrite Hfr.
Qed.
End ops.

Section ops_properties.
Context `{CraterGen}.
Import HighResDEMGenCfg HighResDEMGen.

Lemma reachable_resolutions dem cfg st :
  block_size cfg ≠ 0 → reachable dem cfg st →
  ¬ (resolution cfg == 0)%Q ∧ ¬ (source_resolution cfg == 0)%Q.
Proof.
  intros Hbs Hreach. split.
  - destruct (reachable_raster_square dem cfg st Hreach) as (side & Hside & _).
    by apply true_div_inv in Hside as [? _].
  - destruct (reachable_inv dem cfg st Hbs Hreach)
      as (_ & _ & _ & _ & b & Hb & _).
    by apply true_div_inv in Hb as [? _].
Qed.

Lemma py_int_zero_div (q : Q) : py_int (inject_Z 0 / q) = 0.
Proof.
  unfold py_int, Qdiv, Qmult, inject_Z. simpl. apply Z.quot_0_l. lia.
Qed.

(** The steps of [shift] on a reachable generator: all but the last
    return, and leave the managers as they are. *)
Lemma shift_steps dem cfg st coordinates taken :
  block_size cfg ≠ 0 → reachable dem cfg st →
  let nb := block_of (block_size cfg) coordinates in
  ∃ st1 dem' st3,
    shift_block_grid nb st = Ok st1 ∧
    shift_dem (pixel_shift_to st nb) st1 = Ok (with_dem st1 dem') ∧
    generate_craters_metadata (with_current (with_dem st1 dem') nb) = Ok st3 ∧
    grid_ok nb st3 ∧ tracker_inj (block_grid_tracker st3) ∧
    settings st3 = cfg ∧
    crater_builder_manager st3 = crater_builder_manager st ∧
    interpolator_manager st3 = interpolator_manager st ∧
    (∀ w s, state_of_anchor w st3 = Some s →
       has_crater_metadata s = check_block_exists w (crater_db st3)) ∧
    shift coordinates taken st = generate_terrain_blocks taken st3.
Proof.
  intros Hbs Hreach nb.
  pose proof (reachable_inv dem cfg st Hbs Hreach) as (Hs & _ & Hwf & _).
  pose proof (reachable_tracker_inj dem cfg st Hbs Hreach) as Hinj.
  destruct (reachable_resolutions dem cfg st Hbs Hreach) as [Hres Hsr].
  destruct (reachable_raster_square dem cfg st Hreach) as (side & _ & _ & Hrect).
  assert (block_size (settings st) ≠ 0) as Hbs' by (by rewrite Hs).
  destruct (shift_block_grid_spec st _ nb Hbs' Hwf)
    as (st1 & H1 & Hfr1 & Hok1 & _).
  destruct (shift_block_grid_spec2 st _ nb Hbs' Hwf Hinj)
    as (st1' & H1' & Hinj1 & _).
  rewrite H1 in H1'. injection H1' as <-.
  assert (settings st1 = settings st) as Hs1 by (by rewrite Hfr1).
  assert (high_res_dem st1 = high_res_dem st) as Hd1 by (by rewrite Hfr1).
  rewrite <- Hd1 in Hrect.
  destruct (shift_dem_spec _ st1
              (- py_int (inject_Z (nb.1 - (current_block_coord st).1)
                         / resolution (settings st)))
              (- py_int (inject_Z (nb.2 - (current_block_coord st).2)
                         / resolution (settings st))) Hrect)
    as (dem' & H2 & _).
  set (st2 := with_current (with_dem st1 dem') nb).
  assert (grid_ok nb st2) as Hok2 by exact Hok1.
  assert (block_size (settings st2) ≠ 0) as Hbs2.
  { unfold st2. simpl. by rewrite Hs1. }
  destruct (generate_craters_metadata_effect nb st2 Hbs2 Hok2 Hinj1)
    as (st3 & H3 & Hfr3 & Hmeta).
  assert (grid_ok nb st3) as Hok3.
  { pose proof H3 as H3'.
    apply (generate_craters_metadata_spec (λ _ _, True)) in H3'
      as [_ Hrel]; [|done..].
    eapply (grid_ok_store_rel _ nb st2 st3); try done; by rewrite Hfr3. }
  assert (settings st3 = cfg) as Hs3.
  { rewrite Hfr3. simpl. by rewrite Hs1. }
  exists st1, dem', st3.
  split; [done|]. split; [exact H2|]. split; [done|]. split; [done|].
  split; [by rewrite Hfr3|]. split; [done|].
  split; [rewrite Hfr3; simpl; by rewrite Hfr1|].
  split; [rewrite Hfr3; simpl; by rewrite Hfr1|].
  split.
  { intros w s Hw. rewrite Hmeta in Hw.
    destruct (state_of_anchor w st2) as [s2|]; [|done].
    injection Hw as <-. by rewrite Hfr3. }
  unfold shift. destruct coordinates as [x y].
  rewrite (cast_Ok st x y Hbs'), Ok_bind. rewrite Hs.
  change (Qfloor (x / inject_Z (block_size cfg)) * block_size cfg,
          Qfloor (y / inject_Z (block_size cfg)) * block_size cfg) with nb.
  cbv zeta. rewrite !(true_div_Ok _ _ Hres), !Ok_bind.
  rewrite H1, Ok_bind.
  rewrite Hs in H2. cbn [fst snd]. rewrite H2, Ok_bind. fold st2.
  by rewrite H3, Ok_bind.
Qed.

Lemma length_keys_window c (st : t) :
  grid_ok c st →
  length (PyDict.keys (map_grid_block2coords st))
  = length (window_cells (num_blocks (settings st))).
Proof. intros (_ & -> & _). by rewrite keys_fmap_entries, length_fmap. Qed.

Lemma length_crater_jobs_due (st : t) :
  (length (crater_jobs_due st)
   ≤ length (PyDict.keys (map_grid_block2coords st)))%nat.
Proof. unfold crater_jobs_due. rewrite length_fmap. apply length_filter. Qed.

Lemma length_terrain_jobs_due (st : t) :
  (length (terrain_jobs_due st)
   ≤ length (PyDict.keys (map_grid_block2coords st)))%nat.
Proof. unfold terrain_jobs_due. rewrite length_fmap. apply length_filter. Qed.

(** [shift] returns when each intake is unbounded or has room for one
    job per tile. *)
Lemma shift_room dem cfg st coordinates taken :
  block_size cfg ≠ 0 → reachable dem cfg st →
  let tiles := Z.of_nat (PyDict.len (map_grid_block2coords st)) in
  has_room tiles (crater_builder_manager st) →
  has_room tiles (interpolator_manager st) →
  ∃ st', shift coordinates taken st = Ok st'.
Proof.
  intros Hbs Hreach tiles Hrc Hrt.
  destruct (shift_steps dem cfg st coordinates taken Hbs Hreach)
    as (st1 & dem' & st3 & H1 & H2 & H3 & Hok3 & _ & Hs3 & Ecm & Eim & _ & Hshift).
  pose proof (reachable_inv dem cfg st Hbs Hreach) as (Hs & _ & Hwf & _).
  destruct (reachable_resolutions dem cfg st Hbs Hreach) as [_ Hsr].
  assert (block_size (settings st3) ≠ 0) as Hbs3 by (by rewrite Hs3).
  assert (¬ (source_resolution (settings st3) == 0)%Q) as Hsr3
    by (by rewrite Hs3).
  assert (length (PyDict.keys (map_grid_block2coords st3))
          = PyDict.len (map_grid_block2coords st)) as Hlen.
  { rewrite (length_keys_window _ st3 Hok3), Hs3, <- Hs.
    rewrite <- (length_keys_window _ st Hwf).
    unfold PyDict.keys, PyDict.len. by rewrite length_fmap. }
  rewrite Hshift.
  destruct (generate_terrain_blocks_effect _ taken st3 Hbs3 Hok3 Hsr3)
    as (kc & kt & Hrun & _).
  - rewrite Ecm. eapply has_room_le; [|exact Hrc].
    pose proof (length_crater_jobs_due st3). unfold tiles. lia.
  - rewrite Eim. eapply has_room_le; [|exact Hrt].
    pose proof (length_terrain_jobs_due st3). unfold tiles. lia.
  - eauto.
Qed.

(** X20. On a reachable generator [shift] raises no exception,
    whatever the dispatchers do: it returns or it waits in
    [process_data] on a full intake.  When it returns,
    [current_block_coord] is the block of the coordinates and the raster
    is translated by minus the displacement of the block in pixels,
    zero where nothing was moved in.  It returns whenever each intake is
    unbounded or has room for one job per tile of the window. *)
Theorem X20_shift_returns_or_waits dem cfg st (coordinates : Q * Q)
    (taken : schedule) :
  block_size cfg ≠ 0 → reachable dem cfg st →
  let nb := block_of (block_size cfg) coordinates in
  let D := pixel_shift_to st nb in
  let S := Np.shape0 (high_res_dem st) in
  let tiles := Z.of_nat (PyDict.len (map_grid_block2coords st)) in
  (∀ e, shift coordinates taken st = Raise e → e = Blocked) ∧
  (∀ st', shift coordinates taken st = Ok st' →
     current_block_coord st' = nb ∧
     ∀ i j, 0 ≤ i < S → 0 ≤ j < S →
       Np.get (high_res_dem st') i j
       = if shifted_in S D.1 i && shifted_in S D.2 j
         then Np.get (high_res_dem st) (i - D.1) (j - D.2) else ezero) ∧
  (has_room tiles (crater_builder_manager st) →
   has_room tiles (interpolator_manager st) →
   ∃ st', shift coordinates taken st = Ok st').
Proof.
  intros Hbs Hreach nb D S tiles.
  destruct (shift_steps dem cfg st coordinates taken Hbs Hreach)
    as (st1 & dem' & st3 & H1 & H2 & H3 & Hok3 & _ & Hs3 & Ecm & Eim & _ & Hshift).
  fold nb in H1, H2, H3, Hok3.
  pose proof (reachable_inv dem cfg st Hbs Hreach) as (Hs & _ & Hwf & _).
  destruct (reachable_resolutions dem cfg st Hbs Hreach) as [_ Hsr].
  assert (block_size (settings st3) ≠ 0) as Hbs3 by (by rewrite Hs3).
  assert (¬ (source_resolution (settings st3) == 0)%Q) as Hsr3
    by (by rewrite Hs3).
  rewrite Hshift. split; [|split].
  - intros e He.
    destruct (generate_terrain_blocks_general nb taken st3 Hbs3 Hok3 Hsr3)
      as [(kc & kt & Hrun & _)|Hrun]; congruence.
  - intros st' Hrun. apply generate_terrain_blocks_frame in Hrun.
    rewrite Hrun. cbn [current_block_coord high_res_dem with_managers].
    assert (block_size (settings st) ≠ 0) as Hbs' by (by rewrite Hs).
    destruct (shift_block_grid_spec st _ nb Hbs' Hwf)
      as (st1' & H1' & Hfr1 & _).
    rewrite H1 in H1'. injection H1' as <-.
    apply (generate_craters_metadata_spec (λ _ _, True)) in H3 as [-> _];
      [|done..].
    simpl. split; [done|].
    destruct (reachable_raster_square dem cfg st Hreach)
      as (side & _ & _ & Hrect).
    assert (S = py_int side) as HS by apply Hrect.
    rewrite <- HS in Hrect.
    assert (high_res_dem st1 = high_res_dem st) as Hd1 by (by rewrite Hfr1).
    rewrite <- Hd1 in Hrect.
    destruct (shift_dem_spec _ st1 D.1 D.2 Hrect) as (dem'' & H2' & _ & Hget).
    unfold D in H2'. rewrite <- surjective_pairing in H2'.
    rewrite H2 in H2'. injection H2' as <-.
    intros i j Hi Hj. rewrite Hget by done. by rewrite Hd1.
  - intros Hrc Hrt. rewrite <- Hshift.
    exact (shift_room dem cfg st coordinates taken Hbs Hreach Hrc Hrt).
Qed.
End ops_properties.

Section ops_properties2.
Context `{CraterGen}.
Import HighResDEMGenCfg HighResDEMGen.

Lemma state_of_window_anchor c st cell :
  block_size (settings st) ≠ 0 → grid_ok c st →
  cell ∈ window_cells (num_blocks (settings st)) →
  state_of_anchor (world_key (block_size (settings st)) c cell) st
  = state_at (local_key (block_size (settings st)) cell) st.
Proof.
  intros Hbs (_ & Hm & _) Hc. unfold state_of_anchor. rewrite Hm.
  rewrite (get_fmap_entries (world_key (block_size (settings st)) c)
             (local_key (block_size (settings st)))); [done| |done].
  intros a1 a2 _ _ Heq. by eapply world_key_inj.
Qed.

(** X21. On a reachable generator [generate_terrain_blocks] raises no
    exception, whatever the dispatchers do: it returns or it waits in
    [process_data] on a full intake.  When it returns it has changed
    the two intakes only: behind the jobs that were waiting it has put a
    crater job, with the metadata of the block, for exactly the anchors
    whose tile lacks [has_crater_data], and a terrain job, with the
    patch [querry_low_res_dem] returns, for exactly the anchors whose
    tile lacks [has_terrain_data], in the order of the keys of the world
    map, and the dispatchers have taken jobs from the front.  It returns
    whenever each intake is unbounded or has room for its new jobs. *)
Theorem X21_generate_terrain_blocks_submits_what_is_missing dem cfg st
    (taken : schedule) :
  block_size cfg ≠ 0 → reachable dem cfg st →
  ∃ new_c new_t,
    new_c.*1 = filter (λ w, lacks has_crater_data st w = true)
                 (PyDict.keys (map_grid_block2coords st)) ∧
    new_t.*1 = filter (λ w, lacks has_terrain_data st w = true)
                 (PyDict.keys (map_grid_block2coords st)) ∧
    (∀ w d, (w, d) ∈ new_c → d = get_block_data w (crater_db st)) ∧
    (∀ w p, (w, p) ∈ new_t → querry_low_res_dem w st = Ok p) ∧
    (∀ e, generate_terrain_blocks taken st = Raise e → e = Blocked) ∧
    (∀ st', generate_terrain_blocks taken st = Ok st' →
       ∃ kc kt,
         st' = with_managers st (fed new_c kc (crater_builder_manager st))
                 (fed new_t kt (interpolator_manager st)) ∧
         ((∀ w, taken w = (0%nat, 0%nat)) → kc = 0%nat ∧ kt = 0%nat)) ∧
    (has_room (Z.of_nat (length new_c)) (crater_builder_manager st) →
     has_room (Z.of_nat (length new_t)) (interpolator_manager st) →
     ∃ st', generate_terrain_blocks taken st = Ok st').
Proof.
  intros Hbs Hreach.
  pose proof (reachable_inv dem cfg st Hbs Hreach) as (Hs & _ & Hwf & _).
  destruct (reachable_resolutions dem cfg st Hbs Hreach) as [_ Hsr].
  rewrite <- Hs in Hbs, Hsr.
  exists (crater_jobs_due st), (terrain_jobs_due st).
  unfold crater_jobs_due at 1, terrain_jobs_due at 1.
  split; [by rewrite <- list_fmap_compose, list_fmap_id|].
  split; [by rewrite <- list_fmap_compose, list_fmap_id|].
  split.
  { unfold crater_jobs_due.
    intros w d (w' & [= -> ->] & _)%list_elem_of_fmap. done. }
  split.
  { unfold terrain_jobs_due.
    intros w p (w' & [= -> ->] & _)%list_elem_of_fmap. by apply querry_Ok. }
  pose proof (generate_terrain_blocks_general _ taken st Hbs Hwf Hsr) as Hgen.
  split; [|split].
  - intros e He. destruct Hgen as [(kc & kt & Hrun & _)|Hrun]; congruence.
  - intros st' Hrun. destruct Hgen as [(kc & kt & Hrun' & Hk)|Hrun'];
      [|congruence].
    rewrite Hrun in Hrun'. injection Hrun' as ->. eauto.
  - intros Hrc Hrt.
    destruct (generate_terrain_blocks_effect _ taken st Hbs Hwf Hsr Hrc Hrt)
      as (kc & kt & Hrun & _).
    eauto.
Qed.

(** X22. [generate_craters_metadata] returns on every reachable
    generator, replaces the database by the sampled one, and sets
    [has_crater_metadata] of the tile of every anchor to
    [check_block_exists] of that anchor, leaving the other fields, the
    two dictionaries and the raster as they were. *)
Theorem X22_generate_craters_metadata_marks_every_tile dem cfg st :
  block_size cfg ≠ 0 → reachable dem cfg st →
  let db' := sample_craters_by_region (metadata_region st) (crater_db st) in
  ∃ st', generate_craters_metadata st = Ok st' ∧
    crater_db st' = db' ∧
    block_grid_tracker st' = block_grid_tracker st ∧
    map_grid_block2coords st' = map_grid_block2coords st ∧
    high_res_dem st' = high_res_dem st ∧
    ∀ w, state_of_anchor w st'
         = set_has_crater_metadata (check_block_exists w db')
             <$> state_of_anchor w st.
Proof.
  intros Hbs Hreach db'.
  pose proof (reachable_inv dem cfg st Hbs Hreach) as (Hs & _ & Hwf & _).
  pose proof (reachable_tracker_inj dem cfg st Hbs Hreach) as Hinj.
  rewrite <- Hs in Hbs.
  destruct (generate_craters_metadata_effect _ st Hbs Hwf Hinj)
    as (st' & Hrun & Hfr & Hst).
  exists st'. split; [done|]. rewrite Hfr. simpl.
  do 4 (split; [done|]). intros w. rewrite <- Hfr. apply Hst.
Qed.

(** X23. In every reachable generator [collect_terrain_data] raises
    [KeyError] when the first crater result, or with no crater result
    the first terrain result, is keyed by an anchor that is not in the
    world map, whatever follows it. *)
Theorem X23_collect_raises_for_an_absent_anchor dem cfg st (w : coord)
    (craters : crater_raster) (terrain : Np.ndarray) cr tr :
  reachable dem cfg st →
  PyDict.get w (map_grid_block2coords st) = None →
  collect_terrain_data ((w, craters) :: cr) tr st = Raise KeyError ∧
  collect_terrain_data [] ((w, terrain) :: tr) st = Raise KeyError.
Proof.
  intros Hreach Hw.
  destruct (reachable_raster_square dem cfg st Hreach) as (side & Hside & Hs & _).
  apply true_div_inv in Hside as [Hres _]. rewrite <- Hs in Hres.
  unfold collect_terrain_data. rewrite (true_div_Ok _ _ Hres), Ok_bind.
  split; simpl; unfold collect_one, PyDict.getitem; by rewrite Hw.
Qed.

(** X24. When the padded patch lies inside the coarse DEM,
    [querry_low_res_dem] returns the [(T + 2 * P) x (T + 2 * P)] array
    whose element [(i, j)] is the coarse pixel
    [(p0 - P + i, p1 - P + j)], with [T] the block size in coarse
    pixels, [P] the interpolation padding and [(p0, p1)] the pixel of
    the anchor. *)
Theorem X24_querry_reads_the_padded_patch dem cfg st (X Y : Z) (R C : Z) :
  block_size cfg ≠ 0 → reachable dem cfg st →
  Np.rect R C dem →
  let pad := interpolation_padding cfg in
  let T := lr_dem_block_size st in
  let p0 := py_int (inject_Z X / source_resolution cfg
                    + inject_Z (R `div` 2))%Q in
  let p1 := py_int (inject_Z Y / source_resolution cfg
                    + inject_Z (C `div` 2))%Q in
  0 ≤ p0 - pad → p0 + T + pad ≤ R →
  0 ≤ p1 - pad → p1 + T + pad ≤ C →
  0 < T + 2 * pad →
  ∃ patch, querry_low_res_dem (X, Y) st = Ok patch ∧
    Np.rect (T + 2 * pad) (T + 2 * pad) patch ∧
    ∀ i j, 0 ≤ i < T + 2 * pad → 0 ≤ j < T + 2 * pad →
      Np.get patch i j = Np.get dem (p0 - pad + i) (p1 - pad + j).
Proof.
  intros Hbs Hreach Hrect pad T p0 p1 Ha Ha' Hb Hb' HT.
  pose proof (reachable_inv dem cfg st Hbs Hreach)
    as (Hs & Hd & _ & Hoff & _).
  destruct (reachable_resolutions dem cfg st Hbs Hreach) as [_ Hsr].
  assert (Np.shape0 dem = R) as HR by apply Hrect.
  assert (Np.shape1 dem = C) as HC by (apply (rect_shape1 R); [done|lia]).
  unfold querry_low_res_dem. rewrite Hs, Hd, Hoff, HR, HC.
  rewrite !(true_div_Ok _ _ Hsr), !Ok_bind. cbv zeta. cbn [fst snd].
  fold pad T p0 p1. eexists. split; [reflexivity|].
  assert (∀ n p, 0 ≤ p - pad → p + T + pad ≤ n →
            Np.slice n (Some (p - pad)) (Some (p + T + pad))
            = Np.Span (p - pad) (p + T + pad)) as Hsl.
  { intros n p Hp Hp'. unfold Np.slice, Np.slice_bound.
    rewrite !(proj2 (Z.ltb_ge _ 0)) by lia. f_equal; lia. }
  rewrite !Hsl by done. unfold Np.crop, Np.span_len. simpl.
  replace (Z.max 0 (p0 + T + pad - (p0 - pad))) with (T + 2 * pad) by lia.
  replace (Z.max 0 (p1 + T + pad - (p1 - pad))) with (T + 2 * pad) by lia.
  split; [apply rect_tabulate; lia|].
  intros i j Hi Hj. by rewrite get_tabulate.
Qed.

(** X25. For a non-zero block size, construction returns exactly when
    [resolution] and [source_resolution] are non-zero and the raster
    side [int((2 * num_blocks + 3) * block_size / resolution)] is not
    negative. *)
Theorem X25_init_succeeds_iff dem cfg db :
  block_size cfg ≠ 0 →
  (∃ st, init dem cfg db = Ok st) ↔
  ¬ (resolution cfg == 0)%Q ∧ ¬ (source_resolution cfg == 0)%Q ∧
  0 ≤ py_int (inject_Z ((num_blocks cfg * 2 + 3) * block_size cfg)
              / resolution cfg).
Proof.
  intros Hbs. unfold init.
  match goal with |- context [build_block_grid ?s0] => set (st0 := s0) end.
  destruct (build_block_grid_spec st0) as (st1 & H1 & Hfr1 & _).
  { done. }
  { intros r [s Hs]. unfold st0 in Hs. simpl in Hs.
    by rewrite lookup_empty in Hs. }
  rewrite H1, Ok_bind.
  assert (settings st1 = cfg) as Hs1 by (by rewrite Hfr1).
  unfold instantiate_high_res_dem, get_low_res_dem_offset. rewrite Hs1.
  split.
  - intros (st & (st2 & (side & Hside & (d & Hd & [= <-])%bind_Ok)%bind_Ok
                  & (ratio & Hratio & (b & Hb & _)%bind_Ok)%bind_Ok)%bind_Ok).
    simpl in Hratio, Hb. rewrite Hs1 in Hratio, Hb.
    apply true_div_inv in Hside as [Hres ->].
    apply true_div_inv in Hb as [Hsr _].
    do 2 (split; [done|]).
    unfold Np.zeros in Hd.
    destruct (Z.ltb_spec (py_int (inject_Z ((num_blocks cfg * 2 + 3)
                                            * block_size cfg)
                                  / resolution cfg)) 0); [done|lia].
  - intros (Hres & Hsr & Hside).
    rewrite (true_div_Ok _ _ Hres), Ok_bind. unfold Np.zeros.
    rewrite (proj2 (Z.ltb_ge _ 0) Hside). simpl. rewrite Hs1.
    rewrite (true_div_Ok _ _ Hres), Ok_bind, (true_div_Ok _ _ Hsr), Ok_bind.
    eauto.
Qed.
End ops_properties2.

Section ops_properties3.
Context `{CraterGen}.
Import HighResDEMGenCfg HighResDEMGen.

(** X26. A [shift] to coordinates inside the current block returns
    whenever each intake is unbounded or has room for one job per tile,
    and whenever it returns it leaves the centre, the tracker, the world
    map and the raster as they are, keeps [has_crater_data] and
    [has_terrain_data] of every tile, and leaves [is_padding] of the
    tile at [(dx, dy)] true iff [max(|dx|, |dy|) = num_blocks + 1]. *)
Theorem X26_shift_within_block_keeps_the_window dem cfg st coordinates
    (taken : schedule) :
  block_size cfg ≠ 0 → 0 ≤ num_blocks cfg → reachable dem cfg st →
  cast_coordinates_to_block_space coordinates st
  = Ok (current_block_coord st) →
  let tiles := Z.of_nat (PyDict.len (map_grid_block2coords st)) in
  (has_room tiles (crater_builder_manager st) →
   has_room tiles (interpolator_manager st) →
   ∃ st', shift coordinates taken st = Ok st') ∧
  ∀ st', shift coordinates taken st = Ok st' →
    current_block_coord st' = current_block_coord st ∧
    block_grid_tracker st' = block_grid_tracker st ∧
    map_grid_block2coords st' = map_grid_block2coords st ∧
    high_res_dem st' = high_res_dem st ∧
    ∀ dx dy,
      - (num_blocks cfg + 1) ≤ dx ≤ num_blocks cfg + 1 →
      - (num_blocks cfg + 1) ≤ dy ≤ num_blocks cfg + 1 →
      ∃ s s',
        state_at (dx * block_size cfg, dy * block_size cfg) st = Some s ∧
        state_at (dx * block_size cfg, dy * block_size cfg) st' = Some s' ∧
        has_crater_data s' = has_crater_data s ∧
        has_terrain_data s' = has_terrain_data s ∧
        is_padding s'
        = bool_decide (Z.abs dx `max` Z.abs dy = num_blocks cfg + 1).
Proof.
  intros Hbs Hn Hreach Hcast tiles.
  split;
    [intros Hrc Hrt;
     exact (shift_room dem cfg st coordinates taken Hbs Hreach Hrc Hrt)|].
  intros st' Hrun.
  pose proof (reachable_inv dem cfg st Hbs Hreach) as (Hs & _ & Hwf & _).
  pose proof (reachable_tracker_inj dem cfg st Hbs Hreach) as Hinj.
  assert (block_size (settings st) ≠ 0) as Hbs' by (by rewrite Hs).
  destruct (shift_steps dem cfg st coordinates taken Hbs Hreach)
    as (st1 & dem' & st3 & H1 & H2 & H3 & Hok3 & _ & _ & _ & _ & _ & Hshift).
  rewrite Hshift in Hrun. apply generate_terrain_blocks_frame in Hrun.
  assert (block_of (block_size cfg) coordinates = current_block_coord st)
    as Hnb.
  { destruct coordinates as [x y]. rewrite (cast_Ok st x y Hbs'), Hs in Hcast.
    by injection Hcast. }
  rewrite Hnb in H1, H2, H3, Hok3.
  (* the grid *)
  destruct (shift_block_grid_spec st _ (current_block_coord st) Hbs' Hwf)
    as (st1' & H1' & Hfr1 & Hok1 & Hsto & Htiles).
  rewrite H1 in H1'. injection H1' as <-.
  destruct (shift_block_grid_spec2 st _ (current_block_coord st) Hbs' Hwf Hinj)
    as (st1' & H1' & _ & Hpad & _).
  rewrite H1 in H1'. injection H1' as <-.
  assert (map_grid_block2coords st1 = map_grid_block2coords st) as Hmap.
  { destruct Hok1 as (_ & -> & _). destruct Hwf as (_ & -> & _).
    by rewrite Hfr1. }
  assert (block_grid_tracker st1 = block_grid_tracker st) as Htr.
  { apply dict_ext.
    - destruct Hok1 as (-> & _). destruct Hwf as (-> & _). by rewrite Hfr1.
    - destruct Hok1 as (-> & _). apply NoDup_fmap_2; [|apply NoDup_window].
      intros a1 a2 Heq. apply local_key_inj in Heq; [done|]. by rewrite Hfr1.
    - intros k Hk. destruct Hok1 as (Hk1 & _). rewrite Hk1 in Hk.
      assert (settings st1 = settings st) as Hs1 by (by rewrite Hfr1).
      rewrite Hs1 in Hk.
      apply list_elem_of_fmap in Hk as (cell & -> & Hc).
      destruct (Htiles cell Hc) as (r & -> & Ht).
      unfold tile_from in Ht.
      pose proof Hwf as (_ & Hm & _). rewrite Hm in Ht.
      rewrite (get_fmap_entries
                 (world_key (block_size (settings st)) (current_block_coord st))
                 (local_key (block_size (settings st)))) in Ht; [done| |done].
      intros a1 a2 _ _ Heq. by eapply world_key_inj. }
  (* the raster *)
  assert (pixel_shift_to st (current_block_coord st) = (0, 0)) as Hps.
  { unfold pixel_shift_to. by rewrite !Z.sub_diag, !py_int_zero_div. }
  rewrite Hps in H2.
  destruct (reachable_raster_square dem cfg st Hreach) as (side & _ & _ & Hrect).
  assert (high_res_dem st1 = high_res_dem st) as Hd1 by (by rewrite Hfr1).
  rewrite <- Hd1 in Hrect.
  rewrite (shift_dem_zero _ st1 Hrect) in H2. injection H2 as H2.
  rewrite <- H2 in H3.
  (* the metadata pass *)
  pose proof H3 as H3'.
  apply (generate_craters_metadata_spec
           (λ s s', has_crater_data s' = has_crater_data s ∧
                    has_terrain_data s' = has_terrain_data s ∧
                    is_padding s' = is_padding s)) in H3'
    as [Hfr3 [Hrel3 _]].
  2:{ done. }
  2:{ intros s1 s2 s3 (? & ? & ?) (? & ? & ?). repeat split; congruence. }
  2:{ done. }
  rewrite Hrun, Hfr3. simpl.
  split; [done|]. split; [done|]. split; [done|]. split; [done|].
  intros dx dy Hx Hy.
  assert ((dx, dy) ∈ window_cells (num_blocks (settings st))) as Hcell.
  { rewrite Hs. apply elem_of_window. simpl. lia. }
  destruct (grid_ok_tracker_get _ st (dx, dy) Hbs' Hwf Hcell)
    as (r & Hr & [s Hsr] & _).
  rewrite Hs in Hr. unfold local_key in Hr. simpl in Hr.
  destruct (Hpad (dx, dy) r Hcell) as (s1 & Hs1 & Hp1).
  { by rewrite Hs. }
  destruct (Hsto r s Hsr) as (s1' & Hs1' & Hfl).
  rewrite Hs1 in Hs1'. injection Hs1' as <-.
  destruct (Hrel3 r s1 Hs1) as (s3 & Hs3 & Hcd & Htd & Hpd).
  exists s, s3. unfold state_at. simpl. rewrite Htr, Hr. simpl.
  split; [done|]. split; [done|].
  destruct Hfl as (_ & Hfl2 & Hfl3).
  split; [congruence|]. split; [congruence|].
  rewrite Hpd, Hp1, Hs. by apply padding_of_margin.
Qed.
End ops_properties3.

(** ** Collecting a result *)

Section collect_props.
Context `{CraterGen}.
Import HighResDEMGenCfg HighResDEMGen.

Lemma slice_inside (n a0 a1 : Z) :
  0 ≤ a0 → a0 < a1 → a1 ≤ n →
  Np.slice n (Some a0) (Some a1) = Np.Span a0 a1.
Proof.
  intros Hx Hy Hz. unfold Np.slice, Np.slice_bound.
  rewrite !(proj2 (Z.ltb_ge _ 0)) by lia. f_equal; lia.
Qed.

(** X27. [collect_terrain_data] with one terrain result for a tile of
    the window, of the shape of the tile's pixel range, returns when
    that range lies inside the raster: the data is added into it and
    every other pixel is left as it was, and [has_terrain_data] is set
    on that tile and on no other. *)
Theorem X27_collect_adds_a_result_into_its_tile dem cfg st (dx dy : Z)
    (data : Np.ndarray) :
  let n := num_blocks cfg in
  let bs := block_size cfg in
  let res := resolution cfg in
  let off := py_int (inject_Z ((n + 1) * bs) / res) in
  let a0 := py_int (inject_Z (dx * bs) / res) + off in
  let a1 := py_int (inject_Z (dx * bs + bs) / res) + off in
  let b0 := py_int (inject_Z (dy * bs) / res) + off in
  let b1 := py_int (inject_Z (dy * bs + bs) / res) + off in
  let w := ((current_block_coord st).1 + dx * bs,
            (current_block_coord st).2 + dy * bs) in
  let S := Np.shape0 (high_res_dem st) in
  bs ≠ 0 → reachable dem cfg st →
  - (n + 1) ≤ dx ≤ n + 1 → - (n + 1) ≤ dy ≤ n + 1 →
  0 ≤ a0 → a1 ≤ S → 0 ≤ b0 → b1 ≤ S →
  Np.rect (a1 - a0) (b1 - b0) data → 0 < a1 - a0 → 0 < b1 - b0 →
  ∃ st', collect_terrain_data [] [(w, data)] st = Ok st' ∧
    (∀ i j, 0 ≤ i < S → 0 ≤ j < S →
       Np.get (high_res_dem st') i j
       = if (a0 <=? i) && (i <? a1) && ((b0 <=? j) && (j <? b1))
         then eadd (Np.get (high_res_dem st) i j)
                (Np.get data (i - a0) (j - b0))
         else Np.get (high_res_dem st) i j) ∧
    (∀ w', state_of_anchor w' st'
           = (if decide (w' = w) then set_has_terrain_data true else id)
               <$> state_of_anchor w' st).
Proof.
  intros n bs res off a0 a1 b0 b1 w S Hbs0 Hreach Hdx Hdy
    Ha0 Ha1 Hb0 Hb1 Hdata Ha Hb.
  pose proof (reachable_inv dem cfg st Hbs0 Hreach) as (Hs & _ & Hwf & _).
  pose proof (reachable_tracker_inj dem cfg st Hbs0 Hreach) as Hinj.
  destruct (reachable_resolutions dem cfg st Hbs0 Hreach) as [Hnz _].
  fold res in Hnz.
  destruct (reachable_raster_square dem cfg st Hreach)
    as (side & Hside & _ & Hrect).
  apply true_div_inv in Hside as [_ ->]. fold n bs res in Hrect.
  assert (S = py_int (inject_Z ((n * 2 + 3) * bs) / res)) as HS by apply Hrect.
  rewrite <- HS in Hrect.
  assert (block_size (settings st) ≠ 0) as Hbs' by (by rewrite Hs).
  assert ((dx, dy) ∈ window_cells (num_blocks (settings st))) as Hcell.
  { rewrite Hs. apply elem_of_window. simpl. lia. }
  assert (PyDict.get w (map_grid_block2coords st) = Some (dx * bs, dy * bs))
    as Hw.
  { pose proof Hwf as (_ & Hm & _). rewrite Hm, Hs.
    replace w with (world_key bs (current_block_coord st) (dx, dy))
      by (unfold w, world_key; simpl; f_equal; lia).
    rewrite (get_fmap_entries (world_key bs (current_block_coord st))
               (local_key bs)).
    - done.
    - intros c1 c2 _ _ Heq. exact (world_key_inj bs _ _ _ Hbs0 Heq).
    - rewrite Hs in Hcell. exact Hcell. }
  destruct (grid_ok_tracker_get _ st (dx, dy) Hbs' Hwf Hcell)
    as (r & Hr & [s Hsr] & _).
  rewrite Hs in Hr. unfold local_key in Hr. simpl in Hr. fold bs in Hr.
  assert (Np.shape1 data = b1 - b0) as Hcols.
  { by apply (rect_shape1 (a1 - a0)). }
  assert (Np.shape0 data = a1 - a0) as Hrows by apply Hdata.
  (* the run *)
  unfold collect_terrain_data. rewrite Hs. fold n bs res.
  rewrite (true_div_Ok _ _ Hnz), Ok_bind. fold off.
  cbn [for_each]. rewrite Ok_bind.
  unfold collect_one. rewrite Hs. fold bs res.
  rewrite (proj2 (getitem_Ok _ _ _) Hw), Ok_bind.
  rewrite !(true_div_Ok _ _ Hnz), !Ok_bind. cbv zeta.
  fold a0 a1 b0 b1. fold S.
  rewrite (rect_square_shape1 S _ Hrect).
  rewrite !slice_inside by lia.
  assert (Np.broadcasts (Np.rows (Np.as_block data))
            (Np.span_len (Np.Span a0 a1))
          && Np.broadcasts (Np.cols (Np.as_block data))
               (Np.span_len (Np.Span b0 b1)) = true) as Hbro.
  { unfold Np.broadcasts, Np.as_block, Np.span_len. cbn [Np.rows Np.cols Np.lo Np.hi].
    rewrite Hrows, Hcols. apply andb_true_iff.
    split; apply orb_true_iff; left; apply Z.eqb_eq; lia. }
  unfold Np.iadd. rewrite Hbro, Ok_bind.
  cbv zeta. cbn [block_grid_tracker with_dem].
  rewrite (proj2 (getitem_Ok _ _ _) Hr), Ok_bind.
  unfold setattr, deref. cbn [store with_dem]. rewrite Hsr, Ok_bind.
  eexists. split; [reflexivity|]. cbn [high_res_dem with_store with_dem].
  split.
  - fold S. rewrite (rect_square_shape1 S _ Hrect).
    intros i j Hi Hj. rewrite get_tabulate by done.
    unfold Np.in_span, Np.as_block. cbn [Np.rows Np.cols Np.lo Np.hi Np.at_].
    rewrite Hrows, Hcols.
    destruct (Z.leb_spec a0 i), (Z.ltb_spec i a1), (Z.leb_spec b0 j),
      (Z.ltb_spec j b1); simpl; try done.
    unfold Np.bidx. f_equal. f_equal.
    + destruct (Z.eqb_spec (a1 - a0) 1); lia.
    + destruct (Z.eqb_spec (b1 - b0) 1); lia.
  - intros w'. unfold state_of_anchor, state_at. simpl.
    destruct (decide (w' = w)) as [->|Hne].
    + rewrite Hw. simpl. rewrite Hr. simpl.
      by rewrite lookup_insert_eq, Hsr.
    + rewrite option_fmap_id.
      destruct (PyDict.get w' (map_grid_block2coords st)) as [l'|] eqn:Hl';
        [|done]. simpl.
      destruct (PyDict.get l' (block_grid_tracker st)) as [r'|] eqn:Hr';
        [|done]. simpl.
      rewrite lookup_insert_ne; [done|]. intros ->.
      apply Hne. by eapply (anchor_ref_inj _ st w' w).
Qed.
End collect_props.

(** ** Flags along a run (C6) *)

Section monotone_flags.
Context `{CraterGen}.
Import HighResDEMGenCfg HighResDEMGen.








Lemma run_ops_reachable dem cfg ops :
  ∀ st0 trace st,
    reachable dem cfg st0 → run_ops ops st0 = Ok trace → st ∈ trace →
    reachable dem cfg st.
Proof.
  induction ops as [|o1 ops IH]; intros st0 trace st Hreach Hrun Hin.
  - injection Hrun as <-. by apply elem_of_nil in Hin.
  - simpl in Hrun.
    apply bind_Ok in Hrun as (st1 & Hop & (rest & Hrest & [= <-])%bind_Ok).
    assert (reachable dem cfg st1) as Hr1 by (by eapply reach_op).
    apply elem_of_cons in Hin as [->|Hin]; [done|]. by eapply IH.
Qed.



End monotone_flags.

(** ** The small generator *)

#[local] Existing Instance Small.elevation.
#[local] Existing Instance Small.craters.

Lemma small_gen0 : Small.gen0 = Ok Small.st0.
Proof. reflexivity. Qed.

Lemma small_reachable :
  HighResDEMGen.reachable Small.low_res_dem Small.settings Small.st0.
Proof.
  apply (@HighResDEMGen.reach_init Small.elevation Small.craters _ _ tt).
  exact small_gen0.
Qed.

Lemma small_placed : HighResDEMGen.run_op Small.place Small.st0 = Ok Small.placed.
Proof. reflexivity. Qed.

Lemma small_primed :
  HighResDEMGen.run_op Small.collect0 Small.placed = Ok Small.primed.
Proof. reflexivity. Qed.

Lemma small_primed_reachable :
  HighResDEMGen.reachable Small.low_res_dem Small.settings Small.primed.
Proof.
  apply (HighResDEMGen.reach_op _ _ Small.collect0 Small.placed);
    [|exact small_primed].
  apply (HighResDEMGen.reach_op _ _ Small.place Small.st0);
    [exact small_reachable|exact small_placed].
Qed.


Lemma small_coarse_gen0 : Small.coarse_gen0 = Ok Small.coarse_st0.
Proof. reflexivity. Qed.

Lemma small_coarse_reachable :
  HighResDEMGen.reachable Small.coarse_dem Small.coarse_settings
    Small.coarse_st0.
Proof.
  apply (@HighResDEMGen.reach_init Small.elevation Small.craters _ _ tt).
  exact small_coarse_gen0.
Qed.

Lemma small_primed_origin :
  HighResDEMGen.state_of_anchor (0, 0) Small.primed = Some Small.all_flags.
Proof. reflexivity. Qed.


(** ** Witnesses and evaluations on the small generator *)

Lemma C7_witness :
  tracker_complete Small.settings
    (HighResDEMGen.block_grid_tracker Small.st0) ∧
  ∃ st', HighResDEMGen.shift_block_grid (10, 0) Small.st0 = Ok st' ∧
         tracker_complete Small.settings (HighResDEMGen.block_grid_tracker st').
Proof.
  destruct (C7_window_has_all_tiles Small.low_res_dem Small.settings Small.st0)
    as (Hnow & Hshift & _).
  - simpl. lia.
  - simpl. lia.
  - exact small_reachable.
  - split; [exact Hnow|]. exact (Hshift (10, 0)).
Defined.

Lemma C2_witness :
  ∃ st' s',
    HighResDEMGen.shift_block_grid (10, 0) Small.primed = Ok st' ∧
    HighResDEMGen.state_at (-10, 0) st' = Some s' ∧
    has_crater_metadata s' = true ∧ has_crater_data s' = true ∧
    has_terrain_data s' = true.
Proof.
  destruct (C2_shift_carries_flags Small.low_res_dem Small.settings
              Small.primed (10, 0)) as (st' & Hrun & Hcarry).
  - simpl. lia.
  - exact small_primed_reachable.
  - destruct (Hcarry (0, 0) Small.all_flags (-1) 0)
      as (s' & Hat & _ & H1 & H2 & H3).
    + exact small_primed_origin.
    + simpl. lia.
    + simpl. lia.
    + reflexivity.
    + exists st', s'. split; [exact Hrun|]. split; [exact Hat|].
      split; [exact H1|]. split; [exact H2|exact H3].
Defined.



Lemma C8_witness :
  HighResDEMGen.querry_low_res_dem (-10, 20) Small.st0
  = Ok (Np.crop Small.low_res_dem
          (Np.slice 40 (Some 16) (Some 22)) (Np.slice 40 (Some 22) (Some 28))) ∧
  py_int (inject_Z (-10) / 5 + inject_Z 20)%Q
  = Qfloor (inject_Z (-10) / 5 + inject_Z 20)%Q.
Proof.
  destruct (C8_patch_centre_truncates Small.low_res_dem Small.settings
              Small.st0 (-10) 20) as (Hq & _ & Hfloor & _).
  - simpl. lia.
  - exact small_reachable.
  - split; [rewrite Hq; reflexivity|].
    apply Hfloor. by vm_compute.
Defined.

(** C8 as stated fails where the coarse pixel coordinate is negative
    and fractional.  With [source_resolution = 4] and a 4 x 4 coarse DEM
    ([cx = 2]), the window block anchored at [(-10, 0)] has
    [X / source_resolution + cx = -1/2]: the code takes centre row
    [int(-1/2) = 0] and returns rows 2 and 3, where
    [floor(-10 / 4) + 2 = -1] would give rows 1 and 2. *)
Lemma C8_counterexample :
  PyDict.get (-10, 0) (HighResDEMGen.map_grid_block2coords Small.coarse_st0)
  = Some (-10, 0) ∧
  py_int (inject_Z (-10) / 4 + inject_Z 2)%Q = 0 ∧
  Qfloor (inject_Z (-10) / 4)%Q + 2 = -1 ∧
  HighResDEMGen.querry_low_res_dem (-10, 0) Small.coarse_st0
  = Ok [[8; 9; 10; 11]; [12; 13; 14; 15]] ∧
  patch_by_floor (-10, 0) Small.coarse_st0 = [[4; 5; 6; 7]; [8; 9; 10; 11]].
Proof. do 4 (split; [by vm_compute|]). by vm_compute. Qed.

(** C1 fails on the code: [shift_block_grid] writes [is_padding] through
    [self.block_grid_tracker], the tracker it is about to replace.  After
    shifting the initial grid one block in [+x] ([num_blocks = 1],
    [block_size = 10]), the new tile at local offset [(2, 0)], on the
    margin, is not flagged as padding, and the tile at local offset
    [(1, 0)], in the interior, still is. *)
Theorem C1_shift_block_grid_leaves_padding_stale :
  Small.gen0 = Ok Small.st0 ∧
  HighResDEMGen.shift_block_grid (10, 0) Small.st0 = Ok Small.shifted ∧
  is_padding <$> HighResDEMGen.state_at (2 * 10, 0 * 10) Small.shifted
  = Some false ∧
  Z.abs 2 `max` Z.abs 0 = HighResDEMGenCfg.num_blocks Small.settings + 1 ∧
  is_padding <$> HighResDEMGen.state_at (1 * 10, 0 * 10) Small.shifted
  = Some true ∧
  Z.abs 1 `max` Z.abs 0 ≠ HighResDEMGenCfg.num_blocks Small.settings + 1.
Proof.
  split; [exact small_gen0|].
  do 4 (split; [by vm_compute|]). by vm_compute.
Qed.

(** C5 fails on the code: [collect_terrain_data] indexes
    [self.map_grid_block2coords] with the key of every drained result.
    After the initial placement has submitted the block anchored at
    [(0, 0)] and a shift to [(1000, 1000)] has moved the window away, a
    result for that anchor makes [collect_terrain_data] raise
    [KeyError], from the crater loop and from the terrain loop alike. *)
Theorem C5_collect_raises_for_departed_anchor :
  HighResDEMGen.run_op Small.place Small.st0 = Ok Small.placed ∧
  (0, 0) ∈ (HighResDEMGen.crater_jobs Small.placed).*1 ∧
  (0, 0) ∈ (HighResDEMGen.terrain_jobs Small.placed).*1 ∧
  HighResDEMGen.run_op Small.leave Small.placed = Ok Small.far ∧
  PyDict.get (0, 0) (HighResDEMGen.map_grid_block2coords Small.far) = None ∧
  HighResDEMGen.collect_terrain_data [((0, 0), [[1]])] [] Small.far
  = Raise KeyError ∧
  HighResDEMGen.collect_terrain_data [] [((0, 0), [[1]])] Small.far
  = Raise KeyError.
Proof.
  split; [exact small_placed|].
  split; [apply list_elem_of_In; vm_compute; tauto|].
  split; [apply list_elem_of_In; vm_compute; tauto|].
  do 3 (split; [by vm_compute|]). by vm_compute.
Qed.

(** ** Witnesses of the further properties *)

Lemma X1_witness :
  ScopedTimer.argb_to_rgb 0xFF102030 = (0, 0xFF, 0x10).
Proof.
  rewrite (X1_argb_to_rgb_drops_green_and_blue 0xFF102030); [reflexivity|lia].
Defined.

Lemma X2_witness :
  ScopedTimer.run Small.nested_timers
    (ScopedTimer.World (ScopedTimer.Local None None) [])
  = Some (ScopedTimer.World (ScopedTimer.Local (Some 0) (Some []))
            [ScopedTimer.Message "" 0 "a" (5 - 0);
             ScopedTimer.Message "" 2 "c" (4 - 3);
             ScopedTimer.Message "" 2 "b" (2 - 1)]).
Proof.
  unfold Small.nested_timers.
  rewrite X2_outermost_timer_prints_mirrored; [reflexivity|].
  split; by left.
Defined.

Lemma X4_witness :
  ∃ cfg w,
    InterpolatorCfg.post_init 5 (1 # 20) 2 "bicubic" = Ok (cfg, w) ∧
    InterpolatorCfg.source_padding cfg = 2 ∧
    InterpolatorCfg.target_padding cfg = 200 ∧
    CPUInterpolator.trim_hi cfg = -200.
Proof.
  destruct (X4_post_init_keeps_large_padding 5 (1 # 20) 2 "bicubic")
    as (cfg & w & Hc & Hp & _ & _ & Ht & Hh & _).
  - left. reflexivity.
  - lia.
  - intros Hq. vm_compute in Hq. discriminate.
  - exists cfg, w. rewrite Hh, Ht.
    vm_compute in Hc. injection Hc as <- <-.
    repeat split; reflexivity.
Defined.

Lemma X6_witness :
  InterpolatorCfg.post_init 1 4 2 "area" = Ok (Small.area_cfg, []) ∧
  @CPUInterpolator.interpolate _ Small.cv2 Small.area_cfg Small.low_res_dem
  = Ok [] ∧
  @CPUInterpolator.interpolate _ Small.cv2 Small.area_cfg []
  = Raise Cv2Error.
Proof.
  split; [reflexivity|].
  rewrite !(@X6_interpolate_zero_trim_is_empty _ Small.cv2) by reflexivity.
  split; reflexivity.
Defined.

Lemma X7_witness :
  InterpolatorCfg.post_init 1 2 2 "linear" = Ok (Small.linear_cfg, []) ∧
  ∃ out,
    @CPUInterpolator.interpolate _ Small.cv2 Small.linear_cfg Small.low_res_dem
    = Ok out ∧
    Np.rect 18 18 out ∧ Np.get out 0 0 = 82.
Proof.
  split; [reflexivity|].
  destruct (@X7_interpolate_trims_each_edge _ Small.cv2 Small.linear_cfg
              Small.low_res_dem
              (@Np.tabulate Small.elevation 20 20 (λ i j, 2 * i * 40 + 2 * j))
              20 20 1) as (out & Hrun & Hrect & Hget).
  - vm_compute. reflexivity.
  - apply rect_tabulate; lia.
  - reflexivity.
  - reflexivity.
  - lia.
  - lia.
  - lia.
  - exists out. split; [exact Hrun|]. split; [exact Hrect|].
    rewrite Hget by lia. reflexivity.
Defined.

Lemma X8_witness :
  CraterBuilderManager.dispatch_jobs Small.full_pool = Ok (AwaitRoom 0) ∧
  Forall (λ w, BaseWorker.is_input_queue_full w = true)
    (BaseWorkerManager.workers Small.full_pool).
Proof.
  split; [reflexivity|]. apply Forall_forall.
  apply (X8_dispatch_blocks_only_when_all_full Small.full_pool 0 1); [reflexivity|].
  intros w Hw. simpl in Hw.
  repeat (apply elem_of_cons in Hw as [->|Hw]; [reflexivity|]).
  by apply elem_of_nil in Hw.
Defined.

Lemma X10_witness :
  let kernel := λ (c : coord) (d : Z),
                  if d <? 0 then Raise ValueError else Ok (d * 2) in
  worker_run kernel 0
    (submit [((0, 0), 1); ((0, 1), 2)] ++ [((0, 0), None); ((5, 5), Some 3)]) []
  = (SawSentinel, [((5, 5), Some 3)], [((0, 0), 2); ((0, 1), 4)]) ∧
  worker_run kernel 0
    (submit [((0, 0), 1); ((0, 1), 2)]
       ++ [((1, 1), Some (-1)); ((5, 5), Some 3)]) []
  = (KernelRaised ValueError, [((5, 5), Some 3)], [((0, 0), 2); ((0, 1), 4)]).
Proof.
  intros kernel.
  destruct (X10_worker_run_is_fifo kernel (λ c (d : Z), d * 2) 0
              [((0, 0), 1); ((0, 1), 2)] []) as (_ & Hs & Hr).
  - intros j Hj.
    repeat (apply elem_of_cons in Hj as [->|Hj]; [reflexivity|]).
    by apply elem_of_nil in Hj.
  - left; lia.
  - split.
    + rewrite Hs. reflexivity.
    + rewrite (Hr (1, 1) (-1) ValueError) by reflexivity. reflexivity.
Defined.

Lemma X11_witness :
  dispatch_run 2 Small.pool = Ok (Waits Small.pool_after) ∧
  queued Small.pool_after ≡ₚ queued Small.pool ++ [((5, 5), Some tt)].
Proof.
  assert (dispatch_run 2 Small.pool = Ok (Waits Small.pool_after)) as Hrun
    by reflexivity.
  split; [done|].
  destruct (X11_dispatch_run_conserves_jobs 2 Small.pool _ Hrun)
    as (routed & gone & Hin & Hgone & _ & Hperm & _).
  simpl in Hin. destruct Hgone as [[-> _]|[_ [=]]].
  rewrite !app_nil_r in Hin. by rewrite Hin.
Defined.

Lemma X12_witness :
  ∃ m',
    dispatch_run 4
      (BaseWorkerManager.Build
         (submit [((0, 0), 10); ((0, 1), 11); ((0, 2), 12)]) 400
         (instantiate_workers 2 10)) = Ok (Waits m') ∧
    BaseWorker.input_queue <$> BaseWorkerManager.workers m'
    = [[((0, 0), Some 10); ((0, 2), Some 12)]; [((0, 1), Some 11)]].
Proof.
  destruct (X12_dispatch_deals_round_robin 2 10 400
              [((0, 0), 10); ((0, 1), 11); ((0, 2), 12)])
    as (m' & Hrun & _); [lia|right; simpl; lia|].
  exists m'. split; [exact Hrun|].
  vm_compute in Hrun. injection Hrun as <-. reflexivity.
Defined.

Lemma X15_witness :
  ∃ kx ky,
    HighResDEMGen.cast_coordinates_to_block_space ((-1) # 2, 25 # 1)%Q Small.st0
    = Ok (kx * 10, ky * 10) ∧
    (inject_Z (kx * 10) <= (-1) # 2)%Q ∧ ((-1) # 2 < inject_Z (kx * 10 + 10))%Q ∧
    (inject_Z (ky * 10) <= 25 # 1)%Q ∧ (25 # 1 < inject_Z (ky * 10 + 10))%Q.
Proof.
  apply (X15_cast_floors_to_block_anchor Small.st0 ((-1) # 2) (25 # 1)).
  simpl. lia.
Defined.

Lemma X5_witness :
  ∃ cfg w,
    InterpolatorCfg.post_init 4 1 1 "AREA" = Ok (cfg, w) ∧
    (PaddingTooSmall ∈ w ↔ 1 < 2) ∧
    (AreaUpscaling ∈ w
     ↔ str_lower "AREA" = "area"%string ∧ (1 < InterpolatorCfg.fx cfg)%Q).
Proof.
  eexists _, _. split; [reflexivity|].
  destruct (X5_post_init_warnings 4 1 1 "AREA" _ _ eq_refl)
    as (H1 & _ & H3 & _).
  split; [exact H1|exact H3].
Defined.

Lemma X13_witness :
  HighResDEMGen.shift_dem (1, 0) Small.with_raster3
    ≫= HighResDEMGen.shift_dem (1, -1)
  = HighResDEMGen.shift_dem (2, -1) Small.with_raster3.
Proof.
  apply (X13_shift_dem_composes 3 Small.with_raster3 1 0 1 (-1)).
  - exact raster3_rect.
  - left. lia.
  - right. lia.
Defined.

Lemma X14_witness :
  ∃ st',
    HighResDEMGen.shift_dem (1, 0) Small.with_raster3
      ≫= HighResDEMGen.shift_dem (-1, 0) = Ok st' ∧
    Np.get (HighResDEMGen.high_res_dem st') 0 0 = 1 ∧
    Np.get (HighResDEMGen.high_res_dem st') 2 0 = 0.
Proof.
  destruct (X14_shift_dem_round_trip_loses_the_rim 3 Small.with_raster3 1 0 raster3_rect)
    as (st' & Hrun & _ & _ & Hget).
  exists st'. split; [exact Hrun|].
  rewrite !Hget by lia. split; reflexivity.
Defined.

Lemma X16_witness :
  HighResDEMGen.state_of_anchor (2 * 10, 0 * 10) Small.st0
  = Some {| has_crater_metadata := false; has_crater_data := false;
            has_terrain_data := false; is_padding := true |}.
Proof.
  destruct (@X16_init_builds_fresh_window Small.elevation Small.craters
              Small.low_res_dem Small.settings tt Small.st0)
    as (_ & _ & _ & Hst).
  - simpl. lia.
  - simpl. lia.
  - exact small_gen0.
  - exact (Hst 2 0 ltac:(simpl; lia) ltac:(simpl; lia)).
Defined.

Lemma X17_witness :
  PyDict.get (10, 0) (HighResDEMGen.map_grid_block2coords Small.st0)
  = Some (10, 0).
Proof.
  apply (X17_world_map_is_the_window Small.low_res_dem Small.settings
           Small.st0 (10, 0) (10, 0)).
  - simpl. lia.
  - exact small_reachable.
  - exists 1, 0. simpl. repeat split; lia.
Defined.

Lemma X18_witness :
  ∃ r1 r2,
    PyDict.get (0, 0) (HighResDEMGen.block_grid_tracker Small.st0) = Some r1 ∧
    PyDict.get (10, 0) (HighResDEMGen.block_grid_tracker Small.st0) = Some r2 ∧
    r1 ≠ r2.
Proof.
  destruct (X18_tiles_never_share_a_state Small.low_res_dem Small.settings
              Small.st0) as [Hinj _].
  - simpl. lia.
  - exact small_reachable.
  - eexists _, _. split; [reflexivity|]. split; [reflexivity|].
    intros Heq.
    assert ((0, 0) = (10, 0)) as Habs; [|discriminate Habs].
    eapply Hinj; [reflexivity|]. rewrite Heq. reflexivity.
Defined.

Lemma X19_witness :
  ∃ st' s1 s2,
    HighResDEMGen.shift_block_grid (10, 0) Small.st0 = Ok st' ∧
    HighResDEMGen.state_at (1 * 10, 0 * 10) st' = Some s1 ∧
    is_padding s1 = true ∧
    HighResDEMGen.state_at (2 * 10, 0 * 10) st' = Some s2 ∧
    is_padding s2 = false.
Proof.
  destruct (X19_shift_block_grid_padding_is_stale Small.low_res_dem
              Small.settings Small.st0 (10, 0)) as (st' & Hrun & Hall).
  - simpl. lia.
  - exact small_reachable.
  - destruct (Hall 1 0) as (s1 & Hs1 & Hp1); [simpl; lia..|].
    destruct (Hall 2 0) as (s2 & Hs2 & Hp2); [simpl; lia..|].
    exists st', s1, s2. split; [exact Hrun|].
    split; [exact Hs1|]. split; [exact Hp1|]. split; [exact Hs2|].
    vm_compute in Hp2. by rewrite Hp2.
Defined.

Lemma X20_witness :
  ∃ st', HighResDEMGen.shift (25 # 2, (-1) # 2)%Q HighResDEMGen.stalled
           Small.st0 = Ok st' ∧
         HighResDEMGen.current_block_coord st' = (10, -10).
Proof.
  destruct (X20_shift_returns_or_waits Small.low_res_dem Small.settings
              Small.st0 (25 # 2, (-1) # 2)%Q HighResDEMGen.stalled)
    as (_ & Hok & Hret).
  - simpl. lia.
  - exact small_reachable.
  - destruct Hret as [st' Hrun].
    + right. by vm_compute.
    + right. by vm_compute.
    + exists st'. split; [exact Hrun|]. exact (proj1 (Hok st' Hrun)).
Defined.

Lemma X21_witness :
  ∃ new_c new_t,
    HighResDEMGen.generate_terrain_blocks HighResDEMGen.stalled Small.st0
    = Ok (HighResDEMGen.with_managers Small.st0
            (fed new_c 0 (HighResDEMGen.crater_builder_manager Small.st0))
            (fed new_t 0 (HighResDEMGen.interpolator_manager Small.st0))) ∧
    new_c.*1 = filter (λ w, lacks has_crater_data Small.st0 w = true)
                 (PyDict.keys (HighResDEMGen.map_grid_block2coords Small.st0)) ∧
    new_t.*1 = filter (λ w, lacks has_terrain_data Small.st0 w = true)
                 (PyDict.keys (HighResDEMGen.map_grid_block2coords Small.st0)).
Proof.
  destruct (X21_generate_terrain_blocks_submits_what_is_missing
              Small.low_res_dem Small.settings Small.st0 HighResDEMGen.stalled)
    as (new_c & new_t & Hc & Ht & _ & _ & _ & Hok & Hret).
  - simpl. lia.
  - exact small_reachable.
  - assert (length new_c = 25%nat) as Lc.
    { rewrite <- (length_fmap fst new_c), Hc. reflexivity. }
    assert (length new_t = 25%nat) as Lt.
    { rewrite <- (length_fmap fst new_t), Ht. reflexivity. }
    destruct Hret as [st' Hrun].
    + right. rewrite Lc. by vm_compute.
    + right. rewrite Lt. by vm_compute.
    + exists new_c, new_t. split; [|split; [exact Hc|exact Ht]].
      destruct (Hok st' Hrun) as (kc & kt & Hst & Hk).
      destruct Hk as [-> ->]; [reflexivity|].
      rewrite Hrun, Hst. reflexivity.
Defined.

Lemma X22_witness :
  ∃ st', HighResDEMGen.generate_craters_metadata Small.st0 = Ok st' ∧
    HighResDEMGen.state_of_anchor (10, 0) st'
    = Some {| has_crater_metadata := true; has_crater_data := false;
              has_terrain_data := false; is_padding := false |}.
Proof.
  destruct (X22_generate_craters_metadata_marks_every_tile Small.low_res_dem
              Small.settings Small.st0)
    as (st' & Hrun & _ & _ & _ & _ & Hst).
  - simpl. lia.
  - exact small_reachable.
  - exists st'. split; [exact Hrun|]. rewrite Hst. reflexivity.
Defined.

Lemma X23_witness :
  HighResDEMGen.collect_terrain_data [] [((1000, 1000), [[1]])] Small.st0
  = Raise KeyError.
Proof.
  apply (X23_collect_raises_for_an_absent_anchor Small.low_res_dem
           Small.settings Small.st0 (1000, 1000) [[1]] [[1]] [] []).
  - exact small_reachable.
  - reflexivity.
Defined.

Lemma low_res_dem_rect : Np.rect 40 40 Small.low_res_dem.
Proof. apply rect_tabulate; lia. Qed.

Lemma X24_witness :
  ∃ patch,
    HighResDEMGen.querry_low_res_dem (0, 0) Small.st0 = Ok patch ∧
    Np.rect 6 6 patch ∧
    Np.get patch 0 0 = Np.get Small.low_res_dem 18 18.
Proof.
  destruct (X24_querry_reads_the_padded_patch Small.low_res_dem Small.settings
              Small.st0 0 0 40 40) as (patch & Hrun & Hrect & Hget).
  - simpl. lia.
  - exact small_reachable.
  - exact low_res_dem_rect.
  - by vm_compute.
  - by vm_compute.
  - by vm_compute.
  - by vm_compute.
  - by vm_compute.
  - exists patch. split; [exact Hrun|]. split; [exact Hrect|].
    apply (Hget 0 0); by vm_compute.
Defined.

Lemma X25_witness :
  (∃ st, HighResDEMGen.init Small.low_res_dem Small.settings tt = Ok st) ↔
  ¬ (HighResDEMGenCfg.resolution Small.settings == 0)%Q ∧
  ¬ (HighResDEMGenCfg.source_resolution Small.settings == 0)%Q ∧
  0 ≤ py_int (inject_Z ((HighResDEMGenCfg.num_blocks Small.settings * 2 + 3)
                        * HighResDEMGenCfg.block_size Small.settings)
              / HighResDEMGenCfg.resolution Small.settings).
Proof.
  apply (@X25_init_succeeds_iff Small.elevation Small.craters). simpl. lia.
Defined.

Lemma X26_witness :
  ∃ st', HighResDEMGen.shift (3 # 1, 4 # 1)%Q HighResDEMGen.stalled Small.st0
         = Ok st' ∧
    HighResDEMGen.block_grid_tracker st'
    = HighResDEMGen.block_grid_tracker Small.st0 ∧
    HighResDEMGen.high_res_dem st' = HighResDEMGen.high_res_dem Small.st0.
Proof.
  destruct (X26_shift_within_block_keeps_the_window Small.low_res_dem
              Small.settings Small.st0 (3 # 1, 4 # 1)%Q HighResDEMGen.stalled)
    as (Hret & Hok).
  - simpl. lia.
  - simpl. lia.
  - exact small_reachable.
  - reflexivity.
  - destruct Hret as [st' Hrun].
    + right. by vm_compute.
    + right. by vm_compute.
    + destruct (Hok st' Hrun) as (_ & Htr & _ & Hdem & _).
      exists st'. split; [exact Hrun|]. split; [exact Htr|exact Hdem].
Defined.

Lemma X27_witness :
  ∃ st',
    HighResDEMGen.collect_terrain_data [] [((0, 0), Small.tile10)] Small.st0
    = Ok st' ∧
    Np.get (HighResDEMGen.high_res_dem st') 20 20 = 7 ∧
    Np.get (HighResDEMGen.high_res_dem st') 19 20 = 0.
Proof.
  destruct (X27_collect_adds_a_result_into_its_tile Small.low_res_dem
              Small.settings Small.st0 0 0 Small.tile10)
    as (st' & Hrun & Hget & _).
  - simpl. lia.
  - exact small_reachable.
  - simpl. lia.
  - simpl. lia.
  - by vm_compute.
  - by vm_compute.
  - by vm_compute.
  - by vm_compute.
  - change (Np.rect 10 10 Small.tile10). apply rect_tabulate; lia.
  - by vm_compute.
  - by vm_compute.
  - exists st'. split; [exact Hrun|].
    rewrite !Hget by (by vm_compute). split; reflexivity.
Defined.
